(** * Verification of the Spotify export pipeline (merge, scan, sanitize, report)

    A shallow embedding of the batch scripts under [scripts/]:
    - [merge_data.py]        (class SpotifyDataMerger)      -> [Module Merger]
    - [privacy_filter.py]    (class SpotifyPrivacyFilter)   -> [Module Scanner]
    - [sanitize_data.py]     (class SpotifyDataSanitizer)   -> [Module Sanitizer]
    - [diagnostic_report.py] (class SpotifyDiagnosticReport)-> [Module Reporter]

    Conventions of the embedding.
    - A parsed JSON document is a value of [json]; an object is an
      association list in insertion order, as a Python [dict] iterates.
      [json.load] never produces an object with a repeated key; the
      statements that look keys up say so with [NoDup].
    - Python text is a [string]; character classes, word boundaries and
      [str.lower] are those of the ASCII range.
    - A float is a [spec_float] in canonical binary64 form.
    - A method that can raise returns a [result]; a method that updates
      [self] takes the old state and returns the new one.
    - A file on disk is a path with either a parsed document or the
      fact that opening or parsing it raises.  Documents are taken to
      be shallow enough for the interpreter's recursion limit. *)

From Stdlib Require Import List String Ascii ZArith Lia Bool Arith PeanoNat.
From Stdlib Require Import Floats.SpecFloat DecimalString.
Import ListNotations.
Local Open Scope string_scope.
Local Open Scope list_scope.

(* ===================================================================== *)
(** * Python values and built-ins used by the scripts *)
(* ===================================================================== *)

Module Py.

(** Parsed JSON, as [json.load] returns it. *)
#[local] Unset Elimination Schemes.
Inductive json : Type :=
| JNull : json
| JBool : bool -> json
| JInt : Z -> json
| JFloat : spec_float -> json
| JStr : string -> json
| JList : list json -> json
| JDict : list (string * json) -> json.
#[local] Set Elimination Schemes.

(** Induction over a document, with the hypothesis available for every
    element of a list and every value of an object. *)
Section JsonInd.
Variable P : json -> Prop.
Hypothesis HNull : P JNull.
Hypothesis HBool : forall b, P (JBool b).
Hypothesis HInt : forall z, P (JInt z).
Hypothesis HFloat : forall f, P (JFloat f).
Hypothesis HStr : forall s, P (JStr s).
Hypothesis HList : forall l, Forall P l -> P (JList l).
Hypothesis HDict : forall d, Forall (fun kv => P (snd kv)) d -> P (JDict d).

Fixpoint json_ind (v : json) : P v :=
  match v with
  | JNull => HNull
  | JBool b => HBool b
  | JInt z => HInt z
  | JFloat f => HFloat f
  | JStr s => HStr s
  | JList l =>
      HList l ((fix go (l : list json) : Forall P l :=
                match l with
                | [] => Forall_nil _
                | x :: r => Forall_cons _ (json_ind x) (go r)
                end) l)
  | JDict d =>
      HDict d ((fix go (d : list (string * json))
                : Forall (fun kv => P (snd kv)) d :=
                match d with
                | [] => Forall_nil _
                | (k, x) :: r =>
                    @Forall_cons _ (fun kv => P (snd kv)) (k, x) r
                      (json_ind x) (go r)
                end) d)
  end.
End JsonInd.

(** The exceptions that the scripts can meet. *)
Inductive exn : Type :=
| AttributeError | TypeError | ValueError | OverflowError
| KeyError | IndexError | ZeroDivisionError | IOError.

Inductive result (A : Type) : Type :=
| Ok : A -> result A
| Raise : exn -> result A.
Arguments Ok {A} _.
Arguments Raise {A} _.

Definition bind {A B} (m : result A) (f : A -> result B) : result B :=
  match m with
  | Ok a => f a
  | Raise e => Raise e
  end.

Notation "x <- m ;; k" := (bind m (fun x => k))
  (at level 61, m at next level, right associativity).

Definition is_ok {A} (m : result A) : bool :=
  match m with Ok _ => true | Raise _ => false end.

(** What a file yields when it is opened and handed to [json.load]. *)
Inductive file_content : Type :=
| Unreadable : file_content
| Parsed : json -> file_content.

Record file : Type := mkFile { f_path : string; f_content : file_content }.

(** binary64 *)
Definition prec : Z := 53.
Definition emax : Z := 1024.

Definition float_is_zero (f : spec_float) : bool :=
  match f with S754_zero _ => true | _ => false end.

(** [bool(v)]: the truth value tested by [if v] and [a and b]. *)
Definition truthy (v : json) : bool :=
  match v with
  | JNull => false
  | JBool b => b
  | JInt z => negb (z =? 0)%Z
  | JFloat f => negb (float_is_zero f)
  | JStr s => negb (String.eqb s "")
  | JList l => match l with [] => false | _ => true end
  | JDict d => match d with [] => false | _ => true end
  end.

(** ** dict operations on association lists *)

Fixpoint dict_get (k : string) (d : list (string * json)) : option json :=
  match d with
  | [] => None
  | (k', v) :: r => if String.eqb k k' then Some v else dict_get k r
  end.

(** [d[k] = v]: overwrite in place, or append a new key. *)
Fixpoint dict_set (k : string) (v : json) (d : list (string * json))
  : list (string * json) :=
  match d with
  | [] => [(k, v)]
  | (k', v') :: r =>
      if String.eqb k k' then (k', v) :: r else (k', v') :: dict_set k v r
  end.

(** [obj.get(k, dflt)]: only a dict has the method. *)
Definition py_get (obj : json) (k : string) (dflt : json) : result json :=
  match obj with
  | JDict d => Ok (match dict_get k d with Some v => v | None => dflt end)
  | _ => Raise AttributeError
  end.

(** What [for x in v] and [list.extend(v)] go through: the elements of
    a list, the characters of a string, the keys of a dict; anything
    else is not iterable. *)
Definition iterate (x : json) : result (list json) :=
  match x with
  | JList l => Ok l
  | JStr s => Ok (map (fun c => JStr (String c EmptyString))
                    (list_ascii_of_string s))
  | JDict d => Ok (map (fun kv => JStr (fst kv)) d)
  | _ => Raise TypeError
  end.

(** ** [int(x)] *)

Definition is_digit (c : ascii) : bool :=
  ((48 <=? nat_of_ascii c) && (nat_of_ascii c <=? 57))%nat.

Definition digit_val (c : ascii) : Z := Z.of_nat (nat_of_ascii c - 48).

(** The blanks that [int] skips around an integer literal: the space
    and the control characters from tab to carriage return. *)
Definition is_space (c : ascii) : bool :=
  let n := nat_of_ascii c in
  (((9 <=? n) && (n <=? 13)) || (n =? 32))%nat.

Fixpoint lstrip (s : list ascii) : list ascii :=
  match s with
  | c :: r => if is_space c then lstrip r else s
  | [] => []
  end.

Definition strip (s : list ascii) : list ascii :=
  rev (lstrip (rev (lstrip s))).

(** Digits with single underscores between them; [acc] is the value
    read so far and [after_digit] says whether an underscore may follow.
    The interpreter's cap on the number of digits is left out: past it
    [int] raises the same ValueError as for any other malformed text. *)
Fixpoint parse_digits (s : list ascii) (acc : Z) (after_digit : bool)
  : option Z :=
  match s with
  | [] => if after_digit then Some acc else None
  | c :: r =>
      if is_digit c then parse_digits r (10 * acc + digit_val c)%Z true
      else if Ascii.eqb c "_"%char then
        (if after_digit then parse_digits r acc false else None)
      else None
  end.

Definition int_of_str (s : string) : result Z :=
  match strip (list_ascii_of_string s) with
  | [] => Raise ValueError
  | c :: r =>
      if Ascii.eqb c "-"%char then
        match parse_digits r 0 false with
        | Some z => Ok (- z)%Z
        | None => Raise ValueError
        end
      else if Ascii.eqb c "+"%char then
        match parse_digits r 0 false with
        | Some z => Ok z
        | None => Raise ValueError
        end
      else
        match parse_digits (c :: r) 0 false with
        | Some z => Ok z
        | None => Raise ValueError
        end
  end.

(** [int(f)] truncates towards zero; it rejects NaN and the infinities. *)
Definition int_of_float (f : spec_float) : result Z :=
  match f with
  | S754_zero _ => Ok 0%Z
  | S754_nan => Raise ValueError
  | S754_infinity _ => Raise OverflowError
  | S754_finite s m e =>
      let a := match e with
               | Z0 => Zpos m
               | Zpos p => Z.shiftl (Zpos m) (Zpos p)
               | Zneg p => Z.shiftr (Zpos m) (Zpos p)
               end in
      Ok (if s then (- a)%Z else a)
  end.

Definition py_int (v : json) : result Z :=
  match v with
  | JInt z => Ok z
  | JBool b => Ok (if b then 1 else 0)%Z
  | JFloat f => int_of_float f
  | JStr s => int_of_str s
  | JNull | JList _ | JDict _ => Raise TypeError
  end.

(** ** [str.lower] and the [in] test on strings *)

Definition lower_char (c : ascii) : ascii :=
  let n := nat_of_ascii c in
  if ((65 <=? n) && (n <=? 90))%nat then ascii_of_nat (n + 32) else c.

Fixpoint lower (s : string) : string :=
  match s with
  | EmptyString => EmptyString
  | String c r => String (lower_char c) (lower r)
  end.

(** [sub in s] *)
Fixpoint contains (sub s : string) : bool :=
  if String.prefix sub s then true
  else match s with
       | EmptyString => false
       | String _ r => contains sub r
       end.

End Py.

(* ===================================================================== *)
(** * Regular expressions: the part of [re] that the tables use *)
(* ===================================================================== *)

Module Re.

(** A character set is a list of inclusive code ranges. *)
Definition cset : Type := list (nat * nat).

Definition in_cset (cs : cset) (c : ascii) : bool :=
  existsb (fun r => (fst r <=? nat_of_ascii c)%nat
                    && (nat_of_ascii c <=? snd r)%nat) cs.

Inductive regex : Type :=
| Eps : regex                              (* empty pattern *)
| Cls : cset -> regex                      (* [...] and literals *)
| Bnd : regex                              (* \b *)
| Seq : regex -> regex -> regex
| Alt : regex -> regex -> regex            (* a|b, left first *)
| Rep : regex -> nat -> nat -> regex       (* r{lo,lo+extra}, greedy *)
| Many : cset -> nat -> regex.             (* [...]{lo,}, greedy *)

Definition code (c : ascii) : nat := nat_of_ascii c.
Definition one (c : ascii) : cset := [(code c, code c)].
Definition rng (a b : ascii) : cset := [(code a, code b)].
Definition chr (c : ascii) : regex := Cls (one c).

Fixpoint lit_chars (s : list ascii) : regex :=
  match s with
  | [] => Eps
  | [c] => chr c
  | c :: r => Seq (chr c) (lit_chars r)
  end.
Definition lit (s : string) : regex := lit_chars (list_ascii_of_string s).

Definition opt (r : regex) : regex := Rep r 0 1.
Definition times (r : regex) (n : nat) : regex := Rep r n 0.
Definition between (r : regex) (lo hi : nat) : regex := Rep r lo (hi - lo).

(** [\w] *)
Definition word_cset : cset :=
  rng "a" "z" ++ rng "A" "Z" ++ rng "0" "9" ++ one "_".
Definition is_word (c : ascii) : bool := in_cset word_cset c.

Definition word_before (prev : option ascii) : bool :=
  match prev with Some c => is_word c | None => false end.
Definition word_after (s : list ascii) : bool :=
  match s with c :: _ => is_word c | [] => false end.

(** [\b] holds between a word character and a non-word character or
    an end of the text. *)
Definition at_boundary (prev : option ascii) (s : list ascii) : bool :=
  xorb (word_before prev) (word_after s).

(** The continuation receives the character before the current
    position and the text that is left. *)
Definition cont : Type := option ascii -> list ascii -> option (list ascii).

(** Greedy run of a character set, giving back one character at a
    time down to [lo]. *)
Fixpoint many (cs : cset) (lo : nat) (prev : option ascii) (s : list ascii)
  (k : cont) : option (list ascii) :=
  match s with
  | c :: t =>
      if in_cset cs c then
        match many cs (pred lo) (Some c) t k with
        | Some x => Some x
        | None => match lo with O => k prev s | S _ => None end
        end
      else match lo with O => k prev s | S _ => None end
  | [] => match lo with O => k prev s | S _ => None end
  end.

Definition matcher : Type :=
  option ascii -> list ascii -> cont -> option (list ascii).

(** Up to [n] further iterations, as many as possible first. *)
Fixpoint may (ma : matcher) (n : nat) (k : cont) : cont :=
  match n with
  | O => k
  | S n' => fun prev s =>
      match ma prev s (may ma n' k) with
      | Some x => Some x
      | None => k prev s
      end
  end.

(** [lo] iterations that have to succeed, then up to [extra] more. *)
Fixpoint must (ma : matcher) (lo extra : nat) (k : cont) : cont :=
  match lo with
  | S lo' => fun prev s => ma prev s (must ma lo' extra k)
  | O => may ma extra k
  end.

(** Backtracking matcher: alternatives left to right, repetitions
    longest first. *)
Fixpoint m (r : regex) (prev : option ascii) (s : list ascii) (k : cont)
  {struct r} : option (list ascii) :=
  match r with
  | Eps => k prev s
  | Cls cs =>
      match s with
      | c :: t => if in_cset cs c then k (Some c) t else None
      | [] => None
      end
  | Bnd => if at_boundary prev s then k prev s else None
  | Seq a b => m a prev s (fun p s' => m b p s' k)
  | Alt a b =>
      match m a prev s k with
      | Some x => Some x
      | None => m b prev s k
      end
  | Rep a lo extra => must (m a) lo extra k prev s
  | Many cs lo => many cs lo prev s k
  end.

(** A match starting exactly here: what is left after it. *)
Definition match_here (r : regex) (prev : option ascii) (s : list ascii)
  : option (list ascii) :=
  m r prev s (fun _ rest => Some rest).

(** The last character of the matched part [s] minus [rest]. *)
Fixpoint last_before (prev : option ascii) (s : list ascii) (n : nat)
  : option ascii :=
  match n, s with
  | S n', c :: t => last_before (Some c) t n'
  | _, _ => prev
  end.

(** Left-to-right scan for non-overlapping matches.  After a match the
    scan resumes where it ended; an empty match moves on by one
    character.  [fuel] bounds the number of steps. *)
Fixpoint findall_from (fuel : nat) (r : regex) (prev : option ascii)
  (s : list ascii) : list (list ascii) :=
  match fuel with
  | O => []
  | S fuel' =>
      match match_here r prev s with
      | Some rest =>
          let n := (List.length s - List.length rest)%nat in
          match n, s with
          | O, c :: t => [] :: findall_from fuel' r (Some c) t
          | O, [] => [[]]
          | _, _ =>
              firstn n s :: findall_from fuel' r (last_before prev s n) rest
          end
      | None =>
          match s with
          | c :: t => findall_from fuel' r (Some c) t
          | [] => []
          end
      end
  end.

Fixpoint sub_from (fuel : nat) (r : regex) (repl : list ascii)
  (prev : option ascii) (s : list ascii) : list ascii :=
  match fuel with
  | O => s
  | S fuel' =>
      match match_here r prev s with
      | Some rest =>
          let n := (List.length s - List.length rest)%nat in
          match n, s with
          | O, c :: t => repl ++ c :: sub_from fuel' r repl (Some c) t
          | O, [] => repl
          | _, _ =>
              repl ++ sub_from fuel' r repl (last_before prev s n) rest
          end
      | None =>
          match s with
          | c :: t => c :: sub_from fuel' r repl (Some c) t
          | [] => []
          end
      end
  end.

(** [re.findall(pattern, text)]: one entry per match. *)
Definition findall (r : regex) (text : string) : list string :=
  let s := list_ascii_of_string text in
  map string_of_list_ascii (findall_from (S (List.length s)) r None s).

(** [re.sub(pattern, repl, text)] *)
Definition sub (r : regex) (repl : string) (text : string) : string :=
  let s := list_ascii_of_string text in
  string_of_list_ascii
    (sub_from (S (List.length s)) r (list_ascii_of_string repl) None s).

(** [re.search(pattern, text) is not None] *)
Definition search (r : regex) (text : string) : bool :=
  match findall r text with [] => false | _ => true end.

(** ** The seven detectors shared by the scanner and the sanitizer *)

Definition digit : cset := rng "0" "9".
Definition hex_lower : cset := rng "0" "9" ++ rng "a" "f".
Definition hex_any : cset := rng "0" "9" ++ rng "A" "F" ++ rng "a" "f".
Definition alnum : cset := rng "a" "z" ++ rng "A" "Z" ++ rng "0" "9".

(** \b(?:[0-9]{1,3}\.){3}[0-9]{1,3}\b *)
Definition ip_addresses : regex :=
  Seq Bnd
    (Seq (times (Seq (between (Cls digit) 1 3) (chr ".")) 3)
       (Seq (between (Cls digit) 1 3) Bnd)).

(** \b[A-Za-z0-9._%+-]+@[A-Za-z0-9.-]+\.[A-Z|a-z]{2,}\b *)
Definition email_addresses : regex :=
  Seq Bnd
    (Seq (Many (rng "A" "Z" ++ rng "a" "z" ++ rng "0" "9" ++ one "."
                ++ one "_" ++ one "%" ++ one "+" ++ one "-") 1)
       (Seq (chr "@")
          (Seq (Many (rng "A" "Z" ++ rng "a" "z" ++ rng "0" "9" ++ one "."
                      ++ one "-") 1)
             (Seq (chr ".")
                (Seq (Many (rng "A" "Z" ++ one "|" ++ rng "a" "z") 2)
                   Bnd))))).

(** \b[0-9a-f]{8}-[0-9a-f]{4}-[0-9a-f]{4}-[0-9a-f]{4}-[0-9a-f]{12}\b *)
Definition device_ids : regex :=
  Seq Bnd
    (Seq (times (Cls hex_lower) 8)
       (Seq (chr "-")
          (Seq (times (Cls hex_lower) 4)
             (Seq (chr "-")
                (Seq (times (Cls hex_lower) 4)
                   (Seq (chr "-")
                      (Seq (times (Cls hex_lower) 4)
                         (Seq (chr "-")
                            (Seq (times (Cls hex_lower) 12) Bnd))))))))).

(** \b([0-9A-Fa-f]{2}[:-]){5}([0-9A-Fa-f]{2})\b *)
Definition mac_addresses : regex :=
  Seq Bnd
    (Seq (times (Seq (times (Cls hex_any) 2) (Cls (one ":" ++ one "-"))) 5)
       (Seq (times (Cls hex_any) 2) Bnd)).

(** \b\+?[1-9]\d{1,14}\b *)
Definition phone_numbers : regex :=
  Seq Bnd
    (Seq (opt (chr "+"))
       (Seq (Cls (rng "1" "9"))
          (Seq (between (Cls digit) 1 14) Bnd))).

(** \b\d{4}[- ]?\d{4}[- ]?\d{4}[- ]?\d{4}\b *)
Definition credit_cards : regex :=
  let sep := opt (Cls (one "-" ++ one " ")) in
  let four := times (Cls digit) 4 in
  Seq Bnd
    (Seq four (Seq sep (Seq four (Seq sep (Seq four (Seq sep
       (Seq four Bnd))))))).

(** spotify:(track|album|artist|playlist|user):[a-zA-Z0-9]+ *)
Definition spotify_uris : regex :=
  Seq (lit "spotify:")
    (Seq (Alt (lit "track") (Alt (lit "album") (Alt (lit "artist")
            (Alt (lit "playlist") (lit "user")))))
       (Seq (chr ":") (Many alnum 1))).

End Re.

(* ===================================================================== *)
(** * sanitize_data.py *)
(* ===================================================================== *)

Module Sanitizer.
Import Py Re.

(** [self.sanitization_stats] (the timestamp plays no role). *)
Record stats : Type := mkStats {
  files_processed : nat;
  files_sanitized : nat;
  total_redactions : nat
}.

Definition init_stats : stats := mkStats 0 0 0.

Definition add_redactions (n : nat) (st : stats) : stats :=
  mkStats (files_processed st) (files_sanitized st) (total_redactions st + n).

(** [self.redaction_patterns], in the order the dict is written and
    therefore iterated. *)
Definition redaction_patterns : list (string * (regex * string)) :=
  [ ("ip_addresses", (ip_addresses, "[IP_ADDRESS]"));
    ("email_addresses", (email_addresses, "[EMAIL]"));
    ("device_ids", (device_ids, "[DEVICE_ID]"));
    ("mac_addresses", (mac_addresses, "[MAC_ADDRESS]"));
    ("phone_numbers", (phone_numbers, "[PHONE]"));
    ("credit_cards", (credit_cards, "[CREDIT_CARD]"));
    ("spotify_uris", (spotify_uris, "[SPOTIFY_URI]")) ].

(** [self.remove_fields] *)
Definition remove_fields : list string :=
  [ "ip_addr"; "ipAddress"; "ip_address"; "ipAddrDecrypted";
    "email"; "emailAddress"; "email_address";
    "phone"; "phoneNumber"; "phone_number";
    "deviceId"; "device_id"; "deviceIdDecrypted";
    "macAddress"; "mac_address";
    "creditCard"; "credit_card"; "cardNumber";
    "password"; "token"; "accessToken"; "refreshToken";
    "sessionId"; "session_id";
    "userId"; "user_id"; "username";
    "address"; "street"; "city"; "zip"; "postalCode";
    "ssn"; "socialSecurity"; "passport";
    "location"; "latitude"; "longitude"; "gps";
    "timezone"; "timeZone";
    "platform"; "os"; "operatingSystem";
    "browser"; "userAgent";
    "connection"; "network"; "wifi";
    "bluetooth"; "bluetoothAddress" ].

(** The loop body of [sanitize_string]: one pattern applied to the
    text so far, with the running count of this call. *)
Definition redact_step (acc : string * nat) (p : string * (regex * string))
  : string * nat :=
  let '(sanitized, redactions) := acc in
  let '(_, (pattern, replacement)) := p in
  match findall pattern sanitized with
  | [] => (sanitized, redactions)
  | matches =>
      (sub pattern replacement sanitized,
       (redactions + List.length matches)%nat)
  end.

(** [sanitize_string] on a [str] argument. *)
Definition sanitize_string (text : string) (st : stats) : string * stats :=
  let '(sanitized, redactions) :=
    fold_left redact_step redaction_patterns (text, 0%nat) in
  (sanitized,
   if (0 <? redactions)%nat then add_redactions redactions st else st).

(** [any(remove_field.lower() in key.lower() for remove_field in ...)] *)
Definition should_remove (key : string) : bool :=
  existsb (fun remove_field => contains (lower remove_field) (lower key))
    remove_fields.

Fixpoint sanitize_object (obj : json) (st : stats) {struct obj}
  : json * stats :=
  match obj with
  | JDict d =>
      (fix items (d : list (string * json)) (sanitized : list (string * json))
         (st : stats) {struct d} : json * stats :=
         match d with
         | [] => (JDict sanitized, st)
         | (key, value) :: rest =>
             if should_remove key then items rest sanitized st
             else
               let '(v', st') := sanitize_object value st in
               items rest (dict_set key v' sanitized) st'
         end) d [] st
  | JList l =>
      let '(l', st') :=
        (fix each (l : list json) (st : stats) {struct l}
           : list json * stats :=
           match l with
           | [] => ([], st)
           | item :: rest =>
               let '(item', st1) := sanitize_object item st in
               let '(rest', st2) := each rest st1 in
               (item' :: rest', st2)
           end) l st in
      (JList l', st')
  | JStr s =>
      let '(s', st') := sanitize_string s st in (JStr s', st')
  | other => (other, st)
  end.

(** [Path.name]: what follows the last separator. *)
Fixpoint path_name_from (s : list ascii) (cur : list ascii) : list ascii :=
  match s with
  | [] => cur
  | c :: r =>
      if Ascii.eqb c "/"%char then path_name_from r []
      else path_name_from r (cur ++ [c])
  end.
Definition path_name (p : string) : string :=
  string_of_list_ascii (path_name_from (list_ascii_of_string p) []).

Definition sensitive_files : list string :=
  [ "identity.json"; "userdata.json"; "payments.json"; "follow.json";
    "inferences.json" ].

Definition should_skip_file (file_path : string) : bool :=
  let file_name := lower (path_name file_path) in
  let file_path_str := lower file_path in
  if contains "technical" file_path_str || contains "log" file_path_str
  then true
  else if existsb (String.eqb file_name) sensitive_files then true
  else false.

(** [sanitize_file]: the returned value ([JNull] is Python's [None])
    and the updated counters. *)
Definition sanitize_file (f : file) (st : stats) : json * stats :=
  match f_content f with
  | Unreadable => (JNull, st)
  | Parsed data =>
      let st1 := mkStats (S (files_processed st)) (files_sanitized st)
                   (total_redactions st) in
      if should_skip_file (f_path f) then (JNull, st1)
      else
        let '(sanitized_data, st2) := sanitize_object data st1 in
        let st3 :=
          if (0 <? total_redactions st2)%nat
          then mkStats (files_processed st2) (S (files_sanitized st2))
                 (total_redactions st2)
          else st2 in
        (sanitized_data, st3)
  end.

(** [sanitize_all_files] over the files the two globs produce, in
    order: the documents written to the output tree and the counters. *)
Fixpoint sanitize_all_files (files : list file) (st : stats)
  : list (string * json) * stats :=
  match files with
  | [] => ([], st)
  | f :: rest =>
      let '(out, st1) := sanitize_file f st in
      let '(saved, st2) := sanitize_all_files rest st1 in
      (match out with
       | JNull => saved
       | doc => (f_path f, doc) :: saved
       end, st2)
  end.

(** The five-key record of [create_safe_streaming_history]. *)
Definition safe_entry (entry : json) : result json :=
  t <- py_get entry "trackName" (JStr "") ;;
  a <- py_get entry "artistName" (JStr "") ;;
  al <- py_get entry "albumName" (JStr "") ;;
  e <- py_get entry "endTime" (JStr "") ;;
  ms <- py_get entry "msPlayed" (JInt 0) ;;
  Ok (JDict [ ("trackName", t); ("artistName", a); ("albumName", al);
              ("endTime", e); ("msPlayed", ms) ]).

Definition valid_safe_entry (se : json) : bool :=
  match se with
  | JDict d =>
      match dict_get "trackName" d, dict_get "artistName" d,
            dict_get "endTime" d, dict_get "msPlayed" d with
      | Some t, Some a, Some e, Some ms =>
          truthy t && truthy a && truthy e && truthy ms
      | _, _, _, _ => false
      end
  | _ => false
  end.

(** The loop over one file's entries.  An entry without a [get] method
    raises; the enclosing handler then abandons the rest of the file
    and what was appended so far stays. *)
Fixpoint safe_entries (data : list json) (safe_streaming_data : list json)
  : list json :=
  match data with
  | [] => safe_streaming_data
  | entry :: rest =>
      match safe_entry entry with
      | Raise _ => safe_streaming_data
      | Ok se =>
          if valid_safe_entry se
          then safe_entries rest (safe_streaming_data ++ [se])
          else safe_entries rest safe_streaming_data
      end
  end.

(** [create_safe_streaming_history]: the array written to
    safe_streaming_history.json. *)
Fixpoint create_safe_streaming_history (files : list file)
  (safe_streaming_data : list json) : list json :=
  match files with
  | [] => safe_streaming_data
  | f :: rest =>
      match f_content f with
      | Parsed (JList data) =>
          create_safe_streaming_history rest
            (safe_entries data safe_streaming_data)
      | _ => create_safe_streaming_history rest safe_streaming_data
      end
  end.

End Sanitizer.

(* ===================================================================== *)
(** * merge_data.py *)
(* ===================================================================== *)

Module Merger.
Import Py.

(** [self.merged_data]; [merged_at] is a timestamp and is left out. *)
Record merged_data : Type := mkMerged {
  streaming_history : list json;
  playlists : list json;
  user_data : list (string * json);
  files_processed : nat;
  total_streams : nat
}.

Definition init_merged : merged_data := mkMerged [] [] [] 0 0.

(** The [try] body of [merge_streaming_history] for one file. *)
Definition streaming_body (f : file) (md : merged_data)
  : result merged_data :=
  match f_content f with
  | Unreadable => Raise IOError
  | Parsed (JList data) =>
      Ok (mkMerged (streaming_history md ++ data) (playlists md)
            (user_data md) (S (files_processed md)) (total_streams md))
  | Parsed _ => Ok md
  end.

(** [try: ... except Exception: print(...)]: nothing the body did
    before raising needs undoing here, because each body raises
    before its first assignment. *)
Definition guarded (body : merged_data -> result merged_data)
  (md : merged_data) : merged_data :=
  match body md with
  | Ok md' => md'
  | Raise _ => md
  end.

Definition merge_streaming_history (all_files : list file)
  (md : merged_data) : merged_data :=
  fold_left (fun md f => guarded (streaming_body f) md) all_files md.

(** The [try] body of [merge_playlists] for one file. *)
Definition playlists_body (f : file) (md : merged_data)
  : result merged_data :=
  match f_content f with
  | Unreadable => Raise IOError
  | Parsed (JDict d) =>
      match dict_get "playlists" d with
      | Some v =>
          items <- iterate v ;;
          Ok (mkMerged (streaming_history md) (playlists md ++ items)
                (user_data md) (S (files_processed md)) (total_streams md))
      | None => Ok md
      end
  | Parsed _ => Ok md
  end.

Definition merge_playlists (playlist_files : list file)
  (md : merged_data) : merged_data :=
  fold_left (fun md f => guarded (playlists_body f) md) playlist_files md.

(** [data.get(k)], with [None] for a missing key. *)
Definition get_or_none (data : json) (k : string) : result json :=
  py_get data k JNull.

(** [len(data.get(k, []))] *)
Definition len_of (data : json) (k : string) : result json :=
  v <- py_get data k (JList []) ;;
  match v with
  | JList l => Ok (JInt (Z.of_nat (List.length l)))
  | JStr s => Ok (JInt (Z.of_nat (String.length s)))
  | JDict d => Ok (JInt (Z.of_nat (List.length d)))
  | _ => Raise TypeError
  end.

Definition user_data_files : list string :=
  [ "Identity.json"; "Userdata.json"; "YourLibrary.json" ].

(** [filename.replace(".json", "")] on the three names above. *)
Definition stem (filename : string) : string :=
  if String.eqb filename "Identity.json" then "Identity"
  else if String.eqb filename "Userdata.json" then "Userdata"
  else if String.eqb filename "YourLibrary.json" then "YourLibrary"
  else filename.

(** The [try] body of [merge_user_data] for one of the three names. *)
Definition user_data_body (filename : string) (c : file_content)
  (md : merged_data) : result merged_data :=
  match c with
  | Unreadable => Raise IOError
  | Parsed data =>
      safe_data <-
        (if String.eqb filename "Identity.json" then
           a <- get_or_none data "country" ;;
           b <- get_or_none data "birthdate" ;;
           c <- get_or_none data "gender" ;;
           Ok (JDict [("country", a); ("birthdate", b); ("gender", c)])
         else if String.eqb filename "Userdata.json" then
           a <- get_or_none data "username" ;;
           b <- get_or_none data "email" ;;
           c <- get_or_none data "created" ;;
           Ok (JDict [("username", a); ("email", b); ("created", c)])
         else
           a <- len_of data "tracks" ;;
           b <- len_of data "albums" ;;
           c <- len_of data "artists" ;;
           Ok (JDict [("tracks_count", a); ("albums_count", b);
                      ("artists_count", c)])) ;;
      Ok (mkMerged (streaming_history md) (playlists md)
            (dict_set (stem filename) safe_data (user_data md))
            (S (files_processed md)) (total_streams md))
  end.

(** [merge_user_data]: [present] gives, for each of the three names,
    the file if it exists. *)
Definition merge_user_data (present : string -> option file_content)
  (md : merged_data) : merged_data :=
  fold_left
    (fun md filename =>
       match present filename with
       | Some c => guarded (user_data_body filename c) md
       | None => md
       end)
    user_data_files md.

(** One iteration of the loop of [clean_streaming_data]: [None] when
    the entry is dropped, the updated entry when it is kept. *)
Definition clean_entry (entry : json) : result (option json) :=
  t <- get_or_none entry "trackName" ;;
  if negb (truthy t) then Ok None else
  a <- get_or_none entry "artistName" ;;
  if negb (truthy a) then Ok None else
  e <- get_or_none entry "endTime" ;;
  if negb (truthy e) then Ok None else
  ms <- get_or_none entry "msPlayed" ;;
  if negb (truthy ms) then Ok None else
  match py_int ms with
  | Ok n =>
      let entry' := match entry with
                    | JDict d => JDict (dict_set "msPlayed" (JInt n) d)
                    | other => other
                    end in
      if (0 <? n)%Z then Ok (Some entry') else Ok None
  | Raise ValueError | Raise TypeError => Ok None
  | Raise e => Raise e
  end.

Fixpoint clean_loop (entries : list json) (cleaned_data : list json)
  : result (list json) :=
  match entries with
  | [] => Ok cleaned_data
  | entry :: rest =>
      r <- clean_entry entry ;;
      match r with
      | Some kept => clean_loop rest (cleaned_data ++ [kept])
      | None => clean_loop rest cleaned_data
      end
  end.

Definition clean_streaming_data (md : merged_data) : result merged_data :=
  cleaned_data <- clean_loop (streaming_history md) [] ;;
  Ok (mkMerged cleaned_data (playlists md) (user_data md)
        (files_processed md) (List.length cleaned_data)).

(** [run] up to the point where the document is written. *)
Definition run (streaming_files playlist_files : list file)
  (present : string -> option file_content) : result merged_data :=
  clean_streaming_data
    (merge_user_data present
       (merge_playlists playlist_files
          (merge_streaming_history streaming_files init_merged))).

End Merger.

(* ===================================================================== *)
(** * privacy_filter.py *)
(* ===================================================================== *)

Module Scanner.
Import Py Re.

(** [self.sensitive_patterns], in iteration order. *)
Definition sensitive_patterns : list (string * regex) :=
  [ ("ip_addresses", ip_addresses);
    ("email_addresses", email_addresses);
    ("device_ids", device_ids);
    ("spotify_uris", spotify_uris);
    ("mac_addresses", mac_addresses);
    ("phone_numbers", phone_numbers);
    ("credit_cards", credit_cards) ].

(** [self.sensitive_fields] *)
Definition sensitive_fields : list (string * list string) :=
  [ ("high_risk",
     [ "ip_addr"; "ipAddress"; "ip_address"; "ipAddrDecrypted";
       "email"; "emailAddress"; "email_address";
       "phone"; "phoneNumber"; "phone_number";
       "deviceId"; "device_id"; "deviceIdDecrypted";
       "macAddress"; "mac_address";
       "creditCard"; "credit_card"; "cardNumber";
       "password"; "token"; "accessToken"; "refreshToken";
       "sessionId"; "session_id";
       "userId"; "user_id"; "username";
       "address"; "street"; "city"; "zip"; "postalCode";
       "ssn"; "socialSecurity"; "passport" ]);
    ("medium_risk",
     [ "location"; "latitude"; "longitude"; "gps";
       "timezone"; "timeZone";
       "language"; "locale";
       "platform"; "os"; "operatingSystem";
       "browser"; "userAgent";
       "connection"; "network"; "wifi";
       "bluetooth"; "bluetoothAddress" ]);
    ("low_risk",
     [ "timestamp"; "date"; "time";
       "duration"; "msPlayed";
       "trackName"; "artistName"; "albumName";
       "playlistName"; "playlist_name" ]) ].

(** An issue line, kept as the values its f-string interpolates. *)
Inductive issue : Type :=
| PathContains (pattern_name : string) (matches : list string)
| FieldMatches (field_name context risk_level sensitive_field : string)
| FieldNameContains (field_name context pattern_name : string)
| ValueContains (context pattern_name : string) (first_three : list string)
| LargeNumeric (context : string) (value : json)
| ErrorReading.

Record analysis_results : Type := mkResults {
  files_analyzed : nat;
  sensitive_data_found : list (string * list issue);
  safe_files : list string;
  risky_files : list (string * list issue)
}.

Definition init_results : analysis_results := mkResults 0 [] [] [].

Definition _check_field_name (field_name context : string) : list issue :=
  let field_lower := lower field_name in
  flat_map
    (fun tier =>
       flat_map
         (fun sensitive_field =>
            if contains (lower sensitive_field) field_lower
            then [FieldMatches field_name context (fst tier) sensitive_field]
            else [])
         (snd tier))
    sensitive_fields
  ++
  flat_map
    (fun p =>
       if search (snd p) field_name
       then [FieldNameContains field_name context (fst p)]
       else [])
    sensitive_patterns.

(** 1000000000000 as a binary64 *)
Definition large_threshold : spec_float :=
  binary_normalize prec emax 1000000000000 0 false.

Definition _check_field_value (value : json) (context : string)
  : list issue :=
  match value with
  | JStr s =>
      flat_map
        (fun p =>
           match findall (snd p) s with
           | [] => []
           | matches => [ValueContains context (fst p) (firstn 3 matches)]
           end)
        sensitive_patterns
  | JInt z =>
      if (1000000000000 <? z)%Z then [LargeNumeric context value] else []
  | JBool _ => []
  | JFloat f =>
      if SFltb large_threshold f then [LargeNumeric context value] else []
  | _ => []
  end.

Definition is_container (v : json) : bool :=
  match v with JDict _ | JList _ => true | _ => false end.

Definition show_nat (i : nat) : string :=
  NilEmpty.string_of_uint (Nat.to_uint i).

Fixpoint _analyze_json_structure (obj : json) (context : string)
  {struct obj} : list issue :=
  match obj with
  | JDict d =>
      (fix items (d : list (string * json)) : list issue :=
         match d with
         | [] => []
         | (key, value) :: rest =>
             _check_field_name key context
             ++ _check_field_value value (context ++ "." ++ key)
             ++ (if is_container value
                 then _analyze_json_structure value (context ++ "." ++ key)
                 else [])
             ++ items rest
         end) d
  | JList l =>
      (fix each (l : list json) (i : nat) : list issue :=
         match l with
         | [] => []
         | item :: rest =>
             (if is_container item
              then _analyze_json_structure item
                     (context ++ "[" ++ show_nat i ++ "]")
              else [])
             ++ each rest (S i)
         end) l 0%nat
  | _ => []
  end.

(** The issues that the path check of [analyze_file] collects. *)
Definition path_issues (file_path_str : string) : list issue :=
  flat_map
    (fun p =>
       match findall (snd p) file_path_str with
       | [] => []
       | matches => [PathContains (fst p) matches]
       end)
    sensitive_patterns.

(** All issues of a file that parses: path check, then structure. *)
Definition file_issues (file_path : string) (data : json) : list issue :=
  path_issues file_path
  ++ _analyze_json_structure data (Sanitizer.path_name file_path).

Definition analyze_file (f : file) (res : analysis_results)
  : analysis_results :=
  match f_content f with
  | Parsed data =>
      match file_issues (f_path f) data with
      | [] =>
          mkResults (S (files_analyzed res)) (sensitive_data_found res)
            (safe_files res ++ [f_path f]) (risky_files res)
      | issues =>
          mkResults (S (files_analyzed res))
            ((fix put (m : list (string * list issue)) :=
                match m with
                | [] => [(f_path f, issues)]
                | (k, v) :: r =>
                    if String.eqb k (f_path f) then (k, issues) :: r
                    else (k, v) :: put r
                end) (sensitive_data_found res))
            (safe_files res)
            (risky_files res ++ [(f_path f, issues)])
      end
  | Unreadable =>
      mkResults (files_analyzed res) (sensitive_data_found res)
        (safe_files res)
        (risky_files res ++ [(f_path f, [ErrorReading])])
  end.

(** [analyze_all_files] over the files the globs produce, in order. *)
Definition analyze_all_files (files : list file) (res : analysis_results)
  : analysis_results :=
  fold_left (fun res f => analyze_file f res) files res.

End Scanner.

(* ===================================================================== *)
(** * diagnostic_report.py: [analyze_artists] *)
(* ===================================================================== *)

Module Reporter.
Import Py.

(** A Python number: [int] (and [bool]) or [float]. *)
Inductive pynum : Type :=
| PInt : Z -> pynum
| PFloat : spec_float -> pynum.

Definition to_num (v : json) : result pynum :=
  match v with
  | JInt z => Ok (PInt z)
  | JBool b => Ok (PInt (if b then 1 else 0))
  | JFloat f => Ok (PFloat f)
  | _ => Raise TypeError
  end.

(** Magnitudes from here on round to an infinity: half-way between the
    largest binary64 and [2^1024]. *)
Definition overflow_bound : Z := 2 ^ 1024 - 2 ^ 970.

(** [float(z)]: "int too large to convert to float" past the bound. *)
Definition float_of_int (z : Z) : result spec_float :=
  if (overflow_bound <=? Z.abs z)%Z then Raise OverflowError
  else Ok (binary_normalize prec emax z 0 false).

(** [a + b] on numbers. *)
Definition num_add (a b : pynum) : result pynum :=
  match a, b with
  | PInt x, PInt y => Ok (PInt (x + y))
  | PInt x, PFloat g => f <- float_of_int x ;; Ok (PFloat (SFadd prec emax f g))
  | PFloat f, PInt y => g <- float_of_int y ;; Ok (PFloat (SFadd prec emax f g))
  | PFloat f, PFloat g => Ok (PFloat (SFadd prec emax f g))
  end.

(** Exact comparison of an integer with a binary64. *)
Definition cmp_int_float (z : Z) (f : spec_float) : option comparison :=
  match f with
  | S754_nan => None
  | S754_infinity s => Some (if s then Gt else Lt)
  | S754_zero _ => Some (z ?= 0)%Z
  | S754_finite s m e =>
      let v := if s then Zneg m else Zpos m in
      Some (match e with
            | Zneg p => (z * 2 ^ Zpos p ?= v)%Z
            | _ => (z ?= v * 2 ^ e)%Z
            end)
  end.

Definition cmp_num (a b : pynum) : option comparison :=
  match a, b with
  | PInt x, PInt y => Some (x ?= y)%Z
  | PInt x, PFloat g => cmp_int_float x g
  | PFloat f, PInt y => option_map CompOpp (cmp_int_float y f)
  | PFloat f, PFloat g => SFcompare f g
  end.

Definition num_gt (a b : pynum) : bool :=
  match cmp_num a b with Some Gt => true | _ => false end.
Definition num_ge (a b : pynum) : bool :=
  match cmp_num a b with Some Gt | Some Eq => true | _ => false end.
Definition num_eq (a b : pynum) : bool :=
  match cmp_num a b with Some Eq => true | _ => false end.

(** [a / b] on two integers: the quotient rounded once to binary64. *)
Definition int_truediv (a b : Z) : result spec_float :=
  match b with
  | Z0 => Raise ZeroDivisionError
  | _ =>
      if (overflow_bound * Z.abs b <=? Z.abs a)%Z then Raise OverflowError
      else
        let s := xorb (a <? 0)%Z (b <? 0)%Z in
        match Z.abs a, Z.abs b with
        | Zpos ma, Zpos mb =>
            Ok (SFdiv prec emax (S754_finite s ma 0) (S754_finite false mb 0))
        | _, _ => Ok (S754_zero (b <? 0)%Z)
        end
  end.

Definition round_half_even_div (a b : Z) : Z :=
  let q := (a / b)%Z in
  let r := (a mod b)%Z in
  match (2 * r ?= b)%Z with
  | Lt => q
  | Gt => (q + 1)%Z
  | Eq => if Z.even q then q else (q + 1)%Z
  end.

(** [round(x, 2)]: the nearest hundredth of the exact value, ties to
    the even hundredth, read back as a binary64. *)
Definition round2 (x : spec_float) : spec_float :=
  match x with
  | S754_finite s m e =>
      let q := match e with
               | Zneg p => round_half_even_div (Zpos m * 100) (2 ^ Zpos p)
               | _ => (Zpos m * 100 * 2 ^ e)%Z
               end in
      match q with
      | Zpos qp =>
          SFdiv prec emax (S754_finite s qp 0) (S754_finite false 100 0)
      | _ => S754_zero s
      end
  | other => other
  end.

(** [int(n * 0.1)]: the product [n * 3602879701896397 / 2^55] kept to
    53 significant bits, ties to even, then truncated. *)
Definition tenth_z (n : Z) : Z :=
  let v := (n * 3602879701896397)%Z in
  let s := (Z.log2 v + 1 - 53)%Z in
  if (s <=? 0)%Z then Z.shiftr v 55
  else Z.shiftr (round_half_even_div v (2 ^ s) * 2 ^ s) 55.

Definition tenth (n : nat) : nat := Z.to_nat (tenth_z (Z.of_nat n)).

(** Dictionary keys: lists and dicts cannot be hashed; numbers are
    looked up by value, strings by content. *)
Definition hashable (k : json) : bool :=
  match k with JList _ | JDict _ => false | _ => true end.

Definition key_eq (a b : json) : bool :=
  match a, b with
  | JStr s, JStr t => String.eqb s t
  | JNull, JNull => true
  | JStr _, _ | _, JStr _ | JNull, _ | _, JNull => false
  | _, _ =>
      match to_num a, to_num b with
      | Ok x, Ok y => num_eq x y
      | _, _ => false
      end
  end.

(** A [defaultdict(int)], in insertion order. *)
Definition ddict : Type := list (json * pynum).

Fixpoint dd_find (k : json) (d : ddict) : option pynum :=
  match d with
  | [] => None
  | (k', v) :: r => if key_eq k k' then Some v else dd_find k r
  end.

Fixpoint dd_put (k : json) (v : pynum) (d : ddict) : ddict :=
  match d with
  | [] => [(k, v)]
  | (k', v') :: r =>
      if key_eq k k' then (k', v) :: r else (k', v') :: dd_put k v r
  end.

(** [d[k]] on a defaultdict: 0 when missing. *)
Definition dd_get (k : json) (d : ddict) : pynum :=
  match dd_find k d with Some v => v | None => PInt 0 end.

(** [d[k] += delta] *)
Definition dd_add (k : json) (delta : pynum) (d : ddict) : result ddict :=
  if hashable k then
    v <- num_add (dd_get k d) delta ;;
    Ok (dd_put k v d)
  else Raise TypeError.

(** [sorted(items, key=lambda x: x[1], reverse=True)]: stable. *)
Fixpoint insert_desc (x : json * pynum) (l : list (json * pynum))
  : list (json * pynum) :=
  match l with
  | [] => [x]
  | y :: r =>
      if num_gt (snd y) (snd x) then y :: insert_desc x r else x :: y :: r
  end.

Definition sorted_desc (l : list (json * pynum)) : list (json * pynum) :=
  fold_right insert_desc [] l.

(** [round(v / (1000 * 60 * 60), 2)] *)
Definition time_hours (v : pynum) : result spec_float :=
  match v with
  | PInt a => q <- int_truediv a 3600000 ;; Ok (round2 q)
  | PFloat f =>
      Ok (round2 (SFdiv prec emax f
                    (binary_normalize prec emax 3600000 0 false)))
  end.

Record artist_row : Type := mkRow {
  artist : json;
  streams : pynum;
  row_time_hours : spec_float
}.

Record artist_analysis : Type := mkArtists {
  total_artists : nat;
  top_artists_by_streams : list artist_row;
  top_artists_by_time : list artist_row;
  top_10_percent_artists : nat;
  concentration_ratio : pynum
}.

(** The body of the [for entry in streaming_data] loop. *)
Definition count_entry (entry : json) (acc : ddict * ddict)
  : result (ddict * ddict) :=
  let '(artist_streams, artist_time) := acc in
  artist <- py_get entry "artistName" (JStr "") ;;
  if truthy artist then
    artist_streams' <- dd_add artist (PInt 1) artist_streams ;;
    ms <- py_get entry "msPlayed" (JInt 0) ;;
    delta <- to_num ms ;;
    artist_time' <- dd_add artist delta artist_time ;;
    Ok (artist_streams', artist_time')
  else Ok acc.

Fixpoint count_entries (entries : list json) (acc : ddict * ddict)
  : result (ddict * ddict) :=
  match entries with
  | [] => Ok acc
  | entry :: rest =>
      acc' <- count_entry entry acc ;;
      count_entries rest acc'
  end.

Fixpoint map_result {A B} (f : A -> result B) (l : list A)
  : result (list B) :=
  match l with
  | [] => Ok []
  | x :: r => y <- f x ;; ys <- map_result f r ;; Ok (y :: ys)
  end.

(** The length of the list comprehension that counts the artists at or
    above the value found a tenth of the way down the sorted counts. *)
Definition top_10_percent (artist_streams : ddict) : result nat :=
  match artist_streams with
  | [] => Ok 0%nat
  | _ =>
      match nth_error (map snd (sorted_desc artist_streams))
              (tenth (List.length artist_streams)) with
      | Some threshold =>
          Ok (List.length
                (filter (fun a => num_ge a threshold)
                   (map snd artist_streams)))
      | None => Raise IndexError
      end
  end.

(** [analyze_artists]: [None] when the method returns early and leaves
    the report as it was. *)
Definition analyze_artists (merged_data : json)
  : result (option artist_analysis) :=
  streaming_data <- py_get merged_data "streaming_history" (JList []) ;;
  if negb (truthy streaming_data) then Ok None else
  entries <- iterate streaming_data ;;
  acc <- count_entries entries ([], []) ;;
  let '(artist_streams, artist_time) := acc in
  let top_by_streams := firstn 20 (sorted_desc artist_streams) in
  let top_by_time := firstn 20 (sorted_desc artist_time) in
  let total := List.length artist_streams in
  top10 <- top_10_percent artist_streams ;;
  rows_streams <-
    map_result (fun kv =>
                  h <- time_hours (dd_get (fst kv) artist_time) ;;
                  Ok (mkRow (fst kv) (snd kv) h))
      top_by_streams ;;
  rows_time <-
    map_result (fun kv =>
                  h <- time_hours (snd kv) ;;
                  Ok (mkRow (fst kv) (dd_get (fst kv) artist_streams) h))
      top_by_time ;;
  ratio <-
    (if (0 <? total)%nat then
       q <- int_truediv (Z.of_nat top10) (Z.of_nat total) ;;
       Ok (PFloat (round2 (SFmul prec emax q
                             (binary_normalize prec emax 100 0 false))))
     else Ok (PInt 0)) ;;
  Ok (Some (mkArtists total rows_streams rows_time top10 ratio)).

(** Whether [analyze_artists] returns rather than raises. *)
Definition is_ok_artists (merged_data : json) : bool :=
  is_ok (analyze_artists merged_data).

End Reporter.

(* ===================================================================== *)
(** * Properties stated by the specification *)
(* ===================================================================== *)

Import Py Re.

(** ** Predicates on documents *)

(** A key that contains no entry of the removal list, ignoring case. *)
Definition clean_key (k : string) : bool :=
  forallb (fun remove_field => negb (contains (lower remove_field) (lower k)))
    Sanitizer.remove_fields.

(** Every mapping key, at every depth, is a [clean_key]. *)
Fixpoint keys_clean (v : json) : bool :=
  match v with
  | JDict d =>
      (fix all (d : list (string * json)) : bool :=
         match d with
         | [] => true
         | (k, x) :: r => clean_key k && keys_clean x && all r
         end) d
  | JList l =>
      (fix all (l : list json) : bool :=
         match l with
         | [] => true
         | x :: r => keys_clean x && all r
         end) l
  | _ => true
  end.

(** No string leaf, at any depth, contains a match of one of [ps]. *)
Fixpoint strings_free (ps : list regex) (v : json) : bool :=
  match v with
  | JStr s => forallb (fun p => negb (search p s)) ps
  | JDict d =>
      (fix all (d : list (string * json)) : bool :=
         match d with
         | [] => true
         | (_, x) :: r => strings_free ps x && all r
         end) d
  | JList l =>
      (fix all (l : list json) : bool :=
         match l with
         | [] => true
         | x :: r => strings_free ps x && all r
         end) l
  | _ => true
  end.

(** The seven redaction regexes. *)
Definition redaction_regexes : list regex :=
  map (fun p => fst (snd p)) Sanitizer.redaction_patterns.

(** The document that [sanitize_object] returns. *)
Definition sanitized (obj : json) : json :=
  fst (Sanitizer.sanitize_object obj Sanitizer.init_stats).

(** The redactions that sanitizing [obj] adds to the counter. *)
Definition redactions_of (obj : json) : nat :=
  Sanitizer.total_redactions
    (snd (Sanitizer.sanitize_object obj Sanitizer.init_stats)).

(** The files that were processed, not skipped, and had a redaction of
    their own. *)
Definition files_with_redactions (files : list file) : nat :=
  List.length
    (filter (fun f =>
               match f_content f with
               | Parsed data =>
                   negb (Sanitizer.should_skip_file (f_path f))
                   && (0 <? redactions_of data)%nat
               | Unreadable => false
               end) files).

Definition is_nonempty_str (v : json) : bool :=
  match v with JStr s => negb (String.eqb s "") | _ => false end.

Definition is_positive_int (v : json) : bool :=
  match v with JInt z => (0 <? z)%Z | _ => false end.

Definition field (k : string) (record : json) : json :=
  match record with
  | JDict d => match dict_get k d with Some v => v | None => JNull end
  | _ => JNull
  end.

(** A streaming record as the specification describes it. *)
Definition strict_record (r : json) : bool :=
  is_nonempty_str (field "trackName" r)
  && is_nonempty_str (field "artistName" r)
  && is_nonempty_str (field "endTime" r)
  && is_positive_int (field "msPlayed" r).

(** A streaming record as the cleaning step leaves it. *)
Definition cleaned_record (r : json) : bool :=
  match r with
  | JDict _ =>
      truthy (field "trackName" r)
      && truthy (field "artistName" r)
      && truthy (field "endTime" r)
      && is_positive_int (field "msPlayed" r)
  | _ => false
  end.

(** What one playlist file adds to the accumulator. *)
Definition playlist_contribution (f : file) : list json :=
  match f_content f with
  | Parsed (JDict d) =>
      match dict_get "playlists" d with
      | Some (JList l) => l
      | Some (JStr s) =>
          map (fun c => JStr (String c EmptyString)) (list_ascii_of_string s)
      | Some (JDict d') => map (fun kv => JStr (fst kv)) d'
      | _ => []
      end
  | _ => []
  end.

Definition playlists_is_array (f : file) : bool :=
  match f_content f with
  | Parsed (JDict d) =>
      match dict_get "playlists" d with
      | Some (JList _) => true
      | _ => false
      end
  | _ => false
  end.

Definition unreadable (f : file) : bool :=
  match f_content f with Unreadable => true | Parsed _ => false end.

(** The issues that the four analysis steps find in a file. *)
Definition analysis_issues (f : file) : list Scanner.issue :=
  match f_content f with
  | Parsed data => Scanner.file_issues (f_path f) data
  | Unreadable => []
  end.

Definition risky_paths (res : Scanner.analysis_results) : list string :=
  map fst (Scanner.risky_files res).

(** ** Vocabulary of the proofs *)

(** The loop runs to the end when every entry is an object and no
    [msPlayed] is an infinite float: these are the only two ways in
    which an iteration raises past the handler. *)
Definition cleanable (entry : json) : bool :=
  match entry with
  | JDict d =>
      match dict_get "msPlayed" d with
      | Some (JFloat (S754_infinity _)) => false
      | _ => true
      end
  | _ => false
  end.

(** [rec] is the five-key copy of the source record [d]. *)
Definition safe_copy_of (d : list (string * json)) (rec : json) : Prop :=
  exists t a al e ms,
    rec = JDict [ ("trackName", t); ("artistName", a); ("albumName", al);
                  ("endTime", e); ("msPlayed", ms) ] /\
    dict_get "trackName" d = Some t /\ truthy t = true /\
    dict_get "artistName" d = Some a /\ truthy a = true /\
    dict_get "endTime" d = Some e /\ truthy e = true /\
    dict_get "msPlayed" d = Some ms /\ truthy ms = true /\
    al = match dict_get "albumName" d with Some v => v | None => JStr "" end.

(** The two inner loops of [Sanitizer.sanitize_object], named. *)
Fixpoint sanitize_each (l : list json) (st : Sanitizer.stats)
  : list json * Sanitizer.stats :=
  match l with
  | [] => ([], st)
  | item :: rest =>
      let '(item', st1) := Sanitizer.sanitize_object item st in
      let '(rest', st2) := sanitize_each rest st1 in
      (item' :: rest', st2)
  end.

Fixpoint sanitize_items (d acc : list (string * json)) (st : Sanitizer.stats)
  : json * Sanitizer.stats :=
  match d with
  | [] => (JDict acc, st)
  | (key, value) :: rest =>
      if Sanitizer.should_remove key then sanitize_items rest acc st
      else
        let '(v', st') := Sanitizer.sanitize_object value st in
        sanitize_items rest (dict_set key v' acc) st'
  end.

(** One step of the loop over the items of an object, without the
    counters. *)
Definition keep_item (acc : list (string * json)) (kv : string * json)
  : list (string * json) :=
  if Sanitizer.should_remove (fst kv) then acc
  else dict_set (fst kv) (sanitized (snd kv)) acc.

Definition dict_clean (d : list (string * json)) : bool :=
  forallb (fun kv => clean_key (fst kv) && keys_clean (snd kv)) d.

(** A file that parses and in which the analysis finds nothing. *)
Definition is_safe (f : file) : bool :=
  match f_content f with
  | Parsed data =>
      match Scanner.file_issues (f_path f) data with
      | [] => true
      | _ => false
      end
  | Unreadable => false
  end.

Definition is_risky (f : file) : bool := negb (is_safe f).

Definition readable (f : file) : bool := negb (unreadable f).

(** A streaming record with the types the report expects: an object
    whose artistName, if any, is a text and whose msPlayed, if any, is
    an integer below [2^63] in magnitude. *)
Definition plain_entry (entry : json) : bool :=
  match entry with
  | JDict e =>
      match dict_get "artistName" e with
      | None | Some (JStr _) => true
      | _ => false
      end
      && match dict_get "msPlayed" e with
         | None => true
         | Some (JInt z) => (Z.abs z <? 2 ^ 63)%Z
         | _ => false
         end
  | _ => false
  end.

(** The loaded data: an object whose streaming_history is missing,
    falsy, or an array of fewer than [2^63] plain records. *)
Definition plain_export (merged_data : json) : bool :=
  match merged_data with
  | JDict md =>
      match dict_get "streaming_history" md with
      | None => true
      | Some (JList l) =>
          forallb plain_entry l && (Z.of_nat (List.length l) <? 2 ^ 63)%Z
      | Some v => negb (truthy v)
      end
  | _ => false
  end.

(** Every value is an integer of magnitude at most [B]. *)
Definition int_valued (B : Z) (d : Reporter.ddict) : Prop :=
  Forall (fun kv => exists a, snd kv = Reporter.PInt a /\ (Z.abs a <= B)%Z) d.

(** ** What a pattern matches *)

(** The character before the position reached after reading [w]. *)
Fixpoint last_of (p : option ascii) (w : list ascii) : option ascii :=
  match w with
  | [] => p
  | c :: t => last_of (Some c) t
  end.

(** A language in context: the character before, the text matched,
    the text that follows. *)
Definition ctx_lang : Type :=
  option ascii -> list ascii -> list ascii -> Prop.

Fixpoint pow (L : ctx_lang) (n : nat) : ctx_lang :=
  fun p w rest =>
    match n with
    | O => w = []
    | S n' =>
        exists w1 w2, w = w1 ++ w2 /\ L p w1 (w2 ++ rest)
                      /\ pow L n' (last_of p w1) w2 rest
    end.

(** The texts that a pattern can match at a position. *)
Fixpoint lang (r : regex) : ctx_lang :=
  fun p w rest =>
    match r with
    | Eps => w = []
    | Cls cs => exists c, w = [c] /\ in_cset cs c = true
    | Bnd => w = [] /\ at_boundary p rest = true
    | Seq a b =>
        exists w1 w2, w = w1 ++ w2 /\ lang a p w1 (w2 ++ rest)
                      /\ lang b (last_of p w1) w2 rest
    | Alt a b => lang a p w rest \/ lang b p w rest
    | Rep a lo extra =>
        exists n, (lo <= n <= lo + extra)%nat /\ pow (lang a) n p w rest
    | Many cs lo =>
        (lo <= List.length w)%nat /\ Forall (fun c => in_cset cs c = true) w
    end.

Definition sound (ma : matcher) (L : ctx_lang) : Prop :=
  forall p s k x,
    ma p s k = Some x ->
    exists w rest, s = w ++ rest /\ L p w rest /\ k (last_of p w) rest = Some x.

Definition complete (ma : matcher) (L : ctx_lang) : Prop :=
  forall p s k w rest,
    s = w ++ rest -> L p w rest -> k (last_of p w) rest <> None ->
    ma p s k <> None.

Fixpoint bnd_free (r : regex) : bool :=
  match r with
  | Bnd => false
  | Seq a b | Alt a b => bnd_free a && bnd_free b
  | Rep a _ _ => bnd_free a
  | _ => true
  end.

(** The characters that a pattern can read. *)
Fixpoint uses (r : regex) (c : ascii) : bool :=
  match r with
  | Cls cs | Many cs _ => in_cset cs c
  | Seq a b | Alt a b => uses a c || uses b c
  | Rep a _ _ => uses a c
  | _ => false
  end.

(** Some part of [t] is in the language of [r]. *)
Definition occurs (r : regex) (t : list ascii) : Prop :=
  exists u w v, t = u ++ w ++ v /\ lang r None w [].

(** ** Example inputs *)

(** The input used to illustrate the cleaning step: one record whose
    identity fields are not strings, one record that is dropped. *)
Definition odd_history : Merger.merged_data :=
  Merger.mkMerged
    [ JDict [ ("trackName", JInt 7); ("artistName", JBool true);
              ("endTime", JList [JNull]); ("msPlayed", JStr "12") ];
      JDict [ ("trackName", JStr "A"); ("artistName", JStr "B");
              ("endTime", JStr "2024-01-01T12:00:00Z"); ("msPlayed", JInt 0) ] ]
    [] [] 1 0.

Definition odd_history_cleaned : Merger.merged_data :=
  Merger.mkMerged
    [ JDict [ ("trackName", JInt 7); ("artistName", JBool true);
              ("endTime", JList [JNull]); ("msPlayed", JInt 12) ] ]
    [] [] 1 1.

(** A playlist file whose "playlists" value is a string. *)
Definition text_playlists : file :=
  mkFile "Spotify Account Data/Playlist1.json"
    (Parsed (JDict [("playlists", JStr "ab")])).

(** Two source records whose [msPlayed] is not a positive integer. *)
Definition text_duration : list (string * json) :=
  [ ("trackName", JStr "A"); ("artistName", JStr "B");
    ("endTime", JStr "2024-01-01T12:00:00Z"); ("msPlayed", JStr "long");
    ("ip_addr", JStr "1.2.3.4") ].

Definition negative_duration : list (string * json) :=
  [ ("trackName", JStr "A"); ("artistName", JStr "B");
    ("albumName", JStr ""); ("endTime", JStr "2024-01-01T12:00:00Z");
    ("msPlayed", JInt (-5)) ].

Definition odd_durations : list file :=
  [ mkFile "Spotify Account Data/StreamingHistory_music_0.json"
      (Parsed (JList [JDict text_duration; JDict negative_duration])) ].

(** A text in which a digit run touches a Spotify URI. *)
Definition uri_after_digits : json := JStr "12spotify:track:abc".

Definition mixed_object : list (string * json) :=
  [ ("email", JStr "x@y.com");
    ("note", JStr "contact 1.2.3.4 now");
    ("plays", JList [JInt 3; JNull; JStr "spotify:track:abc"]) ].

(** Two files: the first holds an IP address, the second nothing to
    redact. *)
Definition two_files : list file :=
  [ mkFile "Spotify Account Data/Marquee.json"
      (Parsed (JDict [("note", JStr "contact 1.2.3.4 now")]));
    mkFile "Spotify Account Data/SearchQueries.json"
      (Parsed (JDict [("note", JStr "nothing here")])) ].

(** One file that cannot be parsed. *)
Definition broken_file : file :=
  mkFile "Spotify Account Data/Inferences.json" Unreadable.

Definition three_files : list file :=
  [ mkFile "Spotify Account Data/Follow.json"
      (Parsed (JDict [("count", JInt 3)]));
    mkFile "Spotify Account Data/Userdata.json"
      (Parsed (JDict [("email", JStr "x@y.com")]));
    broken_file ].

(** The data that the reporter loads when only the safe datasets
    exist: the safe streaming history of [odd_durations]. *)
Definition fallback_data : json :=
  JDict [ ("streaming_history",
           JList (Sanitizer.create_safe_streaming_history odd_durations []));
          ("playlists", JList []) ].

(** A small export of the expected shape, one record without msPlayed. *)
Definition plain_data : json :=
  JDict [ ("streaming_history",
           JList [ JDict [ ("trackName", JStr "A"); ("artistName", JStr "B");
                           ("endTime", JStr "2024-01-01T12:00:00Z");
                           ("msPlayed", JInt 180000) ];
                   JDict [ ("artistName", JStr "B") ];
                   JDict [ ("trackName", JStr "C") ] ]) ].

(** ** Further vocabulary: the sanitizer run *)

(** The counters after [n] more redactions. *)
Definition bump (n : nat) (st : Sanitizer.stats) : Sanitizer.stats :=
  Sanitizer.mkStats (Sanitizer.files_processed st)
    (Sanitizer.files_sanitized st) (Sanitizer.total_redactions st + n).

(** No key is repeated, at any depth. *)
Fixpoint unique_keys (v : json) : bool :=
  match v with
  | JDict d =>
      (fix all (d : list (string * json)) : bool :=
         match d with
         | [] => true
         | (k, x) :: r =>
             negb (existsb (fun kv => String.eqb k (fst kv)) r)
             && unique_keys x && all r
         end) d
  | JList l =>
      (fix all (l : list json) : bool :=
         match l with
         | [] => true
         | x :: r => unique_keys x && all r
         end) l
  | _ => true
  end.

(** A document on which the sanitizer has nothing to do. *)
Definition nothing_to_redact (v : json) : bool :=
  unique_keys v && keys_clean v && strings_free redaction_regexes v.

(** A file that parses and is not on the skip list. *)
Definition sanitizable (f : file) : bool :=
  match f_content f with
  | Parsed _ => negb (Sanitizer.should_skip_file (f_path f))
  | Unreadable => false
  end.

(** The redactions that a file adds to the run. *)
Definition file_redactions (f : file) : nat :=
  match f_content f with
  | Parsed data =>
      if Sanitizer.should_skip_file (f_path f) then 0%nat
      else redactions_of data
  | Unreadable => 0%nat
  end.

(** What the run writes for one file. *)
Definition written_for (f : file) : list (string * json) :=
  match f_content f with
  | Parsed data =>
      if Sanitizer.should_skip_file (f_path f) then []
      else match sanitized data with
           | JNull => []
           | doc => [(f_path f, doc)]
           end
  | Unreadable => []
  end.

(** [entry.get(k, dflt)] on an object. *)
Definition field_or (k : string) (dflt : json) (entry : json) : json :=
  match entry with
  | JDict d => match dict_get k d with Some v => v | None => dflt end
  | _ => dflt
  end.

Definition is_object (v : json) : bool :=
  match v with JDict _ => true | _ => false end.

(** The entries of an array up to the first one that is not an object. *)
Fixpoint leading_objects (data : list json) : list json :=
  match data with
  | entry :: rest =>
      if is_object entry then entry :: leading_objects rest else []
  | [] => []
  end.

(** The five-key copy of an object, with the defaults of
    [create_safe_streaming_history]. *)
Definition five_keys (entry : json) : json :=
  JDict [ ("trackName", field_or "trackName" (JStr "") entry);
          ("artistName", field_or "artistName" (JStr "") entry);
          ("albumName", field_or "albumName" (JStr "") entry);
          ("endTime", field_or "endTime" (JStr "") entry);
          ("msPlayed", field_or "msPlayed" (JInt 0) entry) ].

(** The records that one streaming file adds to the safe history. *)
Definition safe_records_of (f : file) : list json :=
  match f_content f with
  | Parsed (JList data) =>
      filter Sanitizer.valid_safe_entry
        (map five_keys (leading_objects data))
  | _ => []
  end.

(** A document without removable key, repeated key or matching text. *)
Definition quiet_object : json :=
  JDict [ ("trackName", JStr "Sample Track");
          ("plays", JList [JInt 3; JNull; JStr "no digits here"]);
          ("album", JDict [("title", JStr "Sample Album")]) ].

(** ** sanitize_data.py: [create_safe_playlists] *)

(** The four-key copy of one playlist item. *)
Definition safe_item (item : json) : result json :=
  track <- py_get item "track" (JDict []) ;;
  tn <- py_get track "trackName" (JStr "") ;;
  an <- py_get track "artistName" (JStr "") ;;
  al <- py_get track "albumName" (JStr "") ;;
  ad <- py_get item "addedAt" (JStr "") ;;
  Ok (JDict [ ("trackName", tn); ("artistName", an); ("albumName", al);
              ("addedAt", ad) ]).

(** The body of the loop over the playlists of one file. *)
Definition safe_playlist (playlist : json) : result json :=
  name <- py_get playlist "name" (JStr "") ;;
  description <- py_get playlist "description" (JStr "") ;;
  followers <- py_get playlist "numberOfFollowers" (JInt 0) ;;
  items <-
    match playlist with
    | JDict p =>
        match dict_get "items" p with
        | Some v => its <- iterate v ;; Reporter.map_result safe_item its
        | None => Ok []
        end
    | _ => Raise AttributeError
    end ;;
  Ok (JDict [ ("name", name); ("description", description);
              ("numberOfFollowers", followers); ("items", JList items) ]).

(** The loop over the playlists of one file: the first playlist that
    raises ends it, and what was appended before stays. *)
Fixpoint safe_playlists_loop (playlists : list json)
  (safe_playlists : list json) : list json :=
  match playlists with
  | [] => safe_playlists
  | playlist :: rest =>
      match safe_playlist playlist with
      | Ok sp => safe_playlists_loop rest (safe_playlists ++ [sp])
      | Raise _ => safe_playlists
      end
  end.

(** [create_safe_playlists]: the list stored under "playlists" in
    safe_playlists.json. *)
Fixpoint create_safe_playlists (files : list file)
  (safe_playlists : list json) : list json :=
  match files with
  | [] => safe_playlists
  | f :: rest =>
      match f_content f with
      | Parsed (JDict d) =>
          match dict_get "playlists" d with
          | Some v =>
              match iterate v with
              | Ok playlists =>
                  create_safe_playlists rest
                    (safe_playlists_loop playlists safe_playlists)
              | Raise _ => create_safe_playlists rest safe_playlists
              end
          | None => create_safe_playlists rest safe_playlists
          end
      | _ => create_safe_playlists rest safe_playlists
      end
  end.

(** An object with exactly these keys, in this order. *)
Definition has_keys (ks : list string) (v : json) : bool :=
  match v with
  | JDict d =>
      if list_eq_dec string_dec (map fst d) ks then true else false
  | _ => false
  end.

(** The shape of a safe playlist: four keys, and four keys per item. *)
Definition safe_playlist_shape (sp : json) : bool :=
  has_keys ["name"; "description"; "numberOfFollowers"; "items"] sp
  && match field "items" sp with
     | JList items =>
         forallb
           (has_keys ["trackName"; "artistName"; "albumName"; "addedAt"])
           items
     | _ => false
     end.

(** A source playlist of the expected types: an object whose items, if
    any, are an array of objects whose track, if any, is an object. *)
Definition tidy_item (item : json) : bool :=
  match item with
  | JDict i =>
      match dict_get "track" i with
      | None | Some (JDict _) => true
      | _ => false
      end
  | _ => false
  end.

Definition tidy_playlist (playlist : json) : bool :=
  match playlist with
  | JDict p =>
      match dict_get "items" p with
      | None => true
      | Some (JList items) => forallb tidy_item items
      | _ => false
      end
  | _ => false
  end.

(** The number of entries under "items" ([0] without the key). *)
Definition item_count (playlist : json) : nat :=
  match field "items" playlist with
  | JList items => List.length items
  | _ => 0%nat
  end.

(** A playlist file with two playlists of the expected types. *)
Definition tidy_playlists : list json :=
  [ JDict [ ("name", JStr "Road trip"); ("lastModifiedDate", JStr "2024-01-01");
            ("items",
             JList [ JDict [ ("track",
                              JDict [ ("trackName", JStr "A");
                                      ("trackUri", JStr "spotify:track:abc") ]);
                             ("addedDate", JStr "2024-01-01") ];
                     JDict [ ("episode", JNull) ] ]) ];
    JDict [ ("name", JStr "Empty") ] ].

(** ** Further vocabulary: the merger *)

(** The records that one streaming file adds. *)
Definition array_contents (f : file) : list json :=
  match f_content f with
  | Parsed (JList data) => data
  | _ => []
  end.

Definition is_array_file (f : file) : bool :=
  match f_content f with
  | Parsed (JList _) => true
  | _ => false
  end.

(** A playlist file that is counted in [files_processed]: an object
    whose "playlists" value can be iterated. *)
Definition playlists_counted (f : file) : bool :=
  match f_content f with
  | Parsed (JDict d) =>
      match dict_get "playlists" d with
      | Some (JList _ | JStr _ | JDict _) => true
      | _ => false
      end
  | _ => false
  end.

(** The fields that [merge_user_data] takes from each account file. *)
Definition allowed_fields (filename : string) : list string :=
  if String.eqb filename "Identity.json"
  then ["country"; "birthdate"; "gender"]
  else if String.eqb filename "Userdata.json"
  then ["username"; "email"; "created"]
  else ["tracks_count"; "albums_count"; "artists_count"].

(** An account file that exists and whose [try] body succeeds. *)
Definition account_counted (present : string -> option file_content)
  (filename : string) : bool :=
  match present filename with
  | Some c => is_ok (Merger.user_data_body filename c Merger.init_merged)
  | None => false
  end.

Definition is_infinite (v : json) : bool :=
  match v with JFloat (S754_infinity _) => true | _ => false end.

(** An entry on which the cleaning loop raises: it is not an object,
    or its three identity fields are truthy and its msPlayed is an
    infinite float. *)
Definition raises_in_cleaning (entry : json) : bool :=
  match entry with
  | JDict _ =>
      truthy (field "trackName" entry)
      && truthy (field "artistName" entry)
      && truthy (field "endTime" entry)
      && is_infinite (field "msPlayed" entry)
  | _ => true
  end.

(** Three account files, the third one missing. *)
Definition two_account_files (filename : string) : option file_content :=
  if String.eqb filename "Identity.json"
  then Some (Parsed (JDict [ ("country", JStr "NO");
                             ("displayName", JStr "someone") ]))
  else if String.eqb filename "Userdata.json"
  then Some (Parsed (JList []))
  else None.

(** The streaming and playlist files of a small export. *)
Definition small_streaming_files : list file :=
  [ mkFile "Spotify Account Data/StreamingHistory_music_0.json"
      (Parsed (JList [ JDict [ ("trackName", JStr "A");
                               ("artistName", JStr "B");
                               ("endTime", JStr "2024-01-01T12:00:00Z");
                               ("msPlayed", JInt 180000) ];
                       JDict [ ("trackName", JStr "A");
                               ("artistName", JStr "B");
                               ("endTime", JStr "2024-01-01T13:00:00Z");
                               ("msPlayed", JInt 0) ] ]));
    mkFile "Spotify Account Data/StreamingHistory_music_1.json" Unreadable ].

(** The loop body of [merge_user_data] for one of the three names. *)
Definition account_step (present : string -> option file_content)
  (md : Merger.merged_data) (filename : string) : Merger.merged_data :=
  match present filename with
  | Some c => Merger.guarded (Merger.user_data_body filename c) md
  | None => md
  end.

(** ** Further vocabulary: the scanner *)

(** Arrays and scalars only: no object at any depth. *)
Fixpoint objectless (v : json) : bool :=
  match v with
  | JDict _ => false
  | JList l => forallb objectless l
  | _ => true
  end.

(** The loop of [_analyze_json_structure] over the elements of an
    array, from index [i] on. *)
Fixpoint analyze_each (context : string) (l : list json) (i : nat)
  : list Scanner.issue :=
  match l with
  | [] => []
  | item :: rest =>
      (if Scanner.is_container item
       then Scanner._analyze_json_structure item
              (context ++ "[" ++ Scanner.show_nat i ++ "]")
       else [])
      ++ analyze_each context rest (S i)
  end.

(** The loop of [_analyze_json_structure] over the items of an
    object. *)
Fixpoint analyze_items (context : string) (d : list (string * json))
  : list Scanner.issue :=
  match d with
  | [] => []
  | (key, value) :: rest =>
      Scanner._check_field_name key context
      ++ Scanner._check_field_value value (context ++ "." ++ key)
      ++ (if Scanner.is_container value
          then Scanner._analyze_json_structure value (context ++ "." ++ key)
          else [])
      ++ analyze_items context rest
  end.

(** A field-name issue whose sensitive field is an entry of the
    sanitizer's removal list. *)
Definition names_removed_field (i : Scanner.issue) : bool :=
  match i with
  | Scanner.FieldMatches _ _ _ sensitive_field =>
      existsb (String.eqb sensitive_field) Sanitizer.remove_fields
  | _ => false
  end.

(** A field-name issue of the high-risk tier. *)
Definition at_high_risk (i : Scanner.issue) : bool :=
  match i with
  | Scanner.FieldMatches _ _ risk_level _ => String.eqb risk_level "high_risk"
  | _ => false
  end.

(** What one file adds to [risky_files]. *)
Definition risky_entry (f : file) : list (string * list Scanner.issue) :=
  match f_content f with
  | Unreadable => [(f_path f, [Scanner.ErrorReading])]
  | Parsed data =>
      match Scanner.file_issues (f_path f) data with
      | [] => []
      | issues => [(f_path f, issues)]
      end
  end.

(** What one file adds to [sensitive_data_found]. *)
Definition found_entry (f : file) : list (string * list Scanner.issue) :=
  if unreadable f then [] else risky_entry f.

(** An array, nested once, whose texts and number the detectors would
    report as values of an object. *)
Definition array_of_texts : json :=
  JList [ JStr "a@b.com";
          JList [JStr "1.2.3.4"; JInt 2000000000000];
          JNull ].

(** ** Further vocabulary: the artist report *)

(** The artist that a plain record counts for: its artistName when
    that is a non-empty text. *)
Definition artist_of (entry : json) : option string :=
  match entry with
  | JDict e =>
      match dict_get "artistName" e with
      | Some (JStr a) => if String.eqb a "" then None else Some a
      | _ => None
      end
  | _ => None
  end.

Definition counts_for (a : string) (entry : json) : bool :=
  match artist_of entry with
  | Some b => String.eqb a b
  | None => false
  end.

(** The number of records that count for artist [a]. *)
Definition plays_of (a : string) (entries : list json) : nat :=
  List.length (filter (counts_for a) entries).

(** The artists of the records that have one, with repetitions. *)
Definition artists_of (entries : list json) : list string :=
  flat_map (fun entry => match artist_of entry with
                         | Some a => [a]
                         | None => []
                         end)
    entries.

(** The array under "streaming_history" ([[]] without one). *)
Definition history_of (merged_data : json) : list json :=
  match merged_data with
  | JDict md =>
      match dict_get "streaming_history" md with
      | Some (JList l) => l
      | _ => []
      end
  | _ => []
  end.

(** Each number is at least every number after it. *)
Fixpoint descending (l : list Reporter.pynum) : bool :=
  match l with
  | [] => true
  | x :: r => forallb (fun y => Reporter.num_ge x y) r && descending r
  end.

(** [artist_streams] after the records [seen]: its keys are the
    artists [names], each once, and each maps to its number of
    records. *)
Definition tallied (names : list string) (artist_streams : Reporter.ddict)
  (seen : list json) : Prop :=
  map fst artist_streams = map JStr names /\
  NoDup names /\
  (forall a, In a names <-> (0 < plays_of a seen)%nat) /\
  (forall a, Reporter.dd_get (JStr a) artist_streams
             = Reporter.PInt (Z.of_nat (plays_of a seen))).

(** A history of five plain records by three artists. *)
Definition five_plays : json :=
  JDict [ ("streaming_history",
           JList [ JDict [ ("artistName", JStr "B"); ("msPlayed", JInt 1000) ];
                   JDict [ ("artistName", JStr "A"); ("msPlayed", JInt 2000) ];
                   JDict [ ("artistName", JStr "B") ];
                   JDict [ ("trackName", JStr "no artist") ];
                   JDict [ ("artistName", JStr "C"); ("msPlayed", JInt 5) ];
                   JDict [ ("artistName", JStr "B"); ("msPlayed", JInt 7) ] ]) ].

(** ** Further example inputs *)

(** A streaming file whose records hold unusual but truthy values: a
    number as track name, a fraction and a boolean as msPlayed; the
    last two records have a falsy msPlayed. *)
Definition unusual_durations : list file :=
  [ mkFile "Spotify Account Data/StreamingHistory_music_0.json"
      (Parsed (JList
         [ JDict [ ("trackName", JInt 7); ("artistName", JBool true);
                   ("endTime", JList [JNull]);
                   ("msPlayed", JFloat (binary_normalize prec emax 5 (-1) false)) ];
           JDict [ ("trackName", JStr "A"); ("artistName", JStr "B");
                   ("albumName", JNull);
                   ("endTime", JStr "2024-01-01T12:00:00Z");
                   ("msPlayed", JBool true) ];
           JDict [ ("trackName", JStr "A"); ("artistName", JStr "B");
                   ("endTime", JStr "2024-01-01T12:00:00Z");
                   ("msPlayed", JBool false) ];
           JDict [ ("trackName", JStr "A"); ("artistName", JStr "B");
                   ("endTime", JStr "2024-01-01T12:00:00Z");
                   ("msPlayed", JFloat (S754_zero false)) ] ])) ].

(** ** Further vocabulary: the account files *)

(** [len(v)] for the values that have a length. *)
Definition size_of (v : json) : option Z :=
  match v with
  | JList l => Some (Z.of_nat (List.length l))
  | JStr s => Some (Z.of_nat (String.length s))
  | JDict d => Some (Z.of_nat (List.length d))
  | _ => None
  end.

(** The object that [merge_user_data] stores for an account file whose
    document is [data]; [None] when reading the fields raises: the
    document is not an object, or a library field has no length. *)
Definition account_object (filename : string) (data : json) : option json :=
  match data with
  | JDict _ =>
      if String.eqb filename "Identity.json" then
        Some (JDict [ ("country", field "country" data);
                      ("birthdate", field "birthdate" data);
                      ("gender", field "gender" data) ])
      else if String.eqb filename "Userdata.json" then
        Some (JDict [ ("username", field "username" data);
                      ("email", field "email" data);
                      ("created", field "created" data) ])
      else
        match size_of (field_or "tracks" (JList []) data),
              size_of (field_or "albums" (JList []) data),
              size_of (field_or "artists" (JList []) data) with
        | Some a, Some b, Some c =>
            Some (JDict [ ("tracks_count", JInt a);
                          ("albums_count", JInt b);
                          ("artists_count", JInt c) ])
        | _, _, _ => None
        end
  | _ => None
  end.

(** What is stored for one of the three names, if anything. *)
Definition stored_account (present : string -> option file_content)
  (filename : string) : option json :=
  match present filename with
  | Some (Parsed data) => account_object filename data
  | _ => None
  end.

(** ** Further vocabulary: the records the artist analysis accepts *)

(** A value that can be a key of the tallies and is equal to itself:
    anything but an array, an object or a NaN. *)
Definition tally_key (a : json) : bool :=
  match a with
  | JList _ | JDict _ | JFloat S754_nan => false
  | _ => true
  end.

Definition is_number (v : json) : bool :=
  match v with JInt _ | JBool _ | JFloat _ => true | _ => false end.

(** A record the loop can count: an object whose artistName is missing
    or falsy (msPlayed is then not looked at), or a tally key together
    with an msPlayed that is missing or a number. *)
Definition typed_entry (entry : json) : bool :=
  match entry with
  | JDict _ =>
      let artist := field_or "artistName" (JStr "") entry in
      negb (truthy artist)
      || tally_key artist
         && is_number (field_or "msPlayed" (JInt 0) entry)
  | _ => false
  end.

(** What a record can add to the magnitude of an integer running
    time: the magnitude of an integer msPlayed, 1 for [true]. *)
Definition tally_weight (entry : json) : Z :=
  match entry with
  | JDict _ =>
      if truthy (field_or "artistName" (JStr "") entry) then
        match field_or "msPlayed" (JInt 0) entry with
        | JInt z => Z.abs z
        | JBool true => 1
        | _ => 0
        end
      else 0
  | _ => 0
  end.

Definition total_weight (entries : list json) : Z :=
  fold_right (fun entry acc => (tally_weight entry + acc)%Z) 0%Z entries.

(** The loaded data: an object whose streaming_history is missing,
    falsy, or an array of typed records whose integer running times
    stay below the first magnitude that has no float. *)
Definition typed_export (merged_data : json) : bool :=
  match merged_data with
  | JDict md =>
      match dict_get "streaming_history" md with
      | None => true
      | Some (JList l) =>
          forallb typed_entry l
          && (total_weight l <? Reporter.overflow_bound)%Z
      | Some v => negb (truthy v)
      end
  | _ => false
  end.

(** A record on which the loop raises: not an object, or an object
    with a truthy artistName that cannot be hashed or comes with an
    msPlayed that is not a number. *)
Definition breaks_tally (entry : json) : bool :=
  match entry with
  | JDict _ =>
      let artist := field_or "artistName" (JStr "") entry in
      truthy artist
      && (negb (Reporter.hashable artist)
          || negb (is_number (field_or "msPlayed" (JInt 0) entry)))
  | _ => true
  end.

Definition ill_typed_export (merged_data : json) : bool :=
  match merged_data with
  | JDict md =>
      match dict_get "streaming_history" md with
      | None => false
      | Some (JList l) => existsb breaks_tally l
      | Some v => truthy v
      end
  | _ => true
  end.

(** Every value is a float or an integer of magnitude at most [B]. *)
Definition num_valued (B : Z) (d : Reporter.ddict) : Prop :=
  Forall (fun kv => match snd kv with
                    | Reporter.PInt a => (Z.abs a <= B)%Z
                    | Reporter.PFloat _ => True
                    end) d.

(** A history with a number as artist name, a boolean and a fraction
    as msPlayed, and a text msPlayed on a record without artist. *)
Definition mixed_types_data : json :=
  JDict [ ("streaming_history",
           JList [ JDict [ ("artistName", JInt 7); ("msPlayed", JBool true) ];
                   JDict [ ("artistName", JStr "B");
                           ("msPlayed",
                            JFloat (binary_normalize prec emax 5 (-1) false)) ];
                   JDict [ ("artistName", JStr "B"); ("msPlayed", JInt 3) ];
                   JDict [ ("artistName", JStr ""); ("msPlayed", JStr "long") ];
                   JDict [ ("trackName", JStr "x") ] ]) ].

(** ** Further vocabulary: what a later substitution can uncover *)

(** The pattern begins, respectively ends, with [\b]. *)
Fixpoint starts_bnd (r : regex) : bool :=
  match r with
  | Bnd => true
  | Seq a _ => starts_bnd a
  | _ => false
  end.

Fixpoint ends_bnd (r : regex) : bool :=
  match r with
  | Bnd => true
  | Seq _ b => ends_bnd b
  | _ => false
  end.

(** A lower bound on the length of a match. *)
Fixpoint min_len (r : regex) : nat :=
  match r with
  | Eps | Bnd => 0
  | Cls _ => 1
  | Seq a b => min_len a + min_len b
  | Alt a b => Nat.min (min_len a) (min_len b)
  | Rep a lo _ => lo * min_len a
  | Many _ lo => lo
  end.

(** No part of [s], read after the character [prev], is a match of
    [r] in its place. *)
Definition no_match (r : regex) (prev : option ascii) (s : list ascii)
  : Prop :=
  forall u w v, s = u ++ w ++ v -> ~ lang r (last_of prev u) w v.

(** [replaced r repl prev s out]: scanning [s] from the left after the
    character [prev], every character at which no match of [r] starts
    is kept and every match found is replaced by [repl]; [out] is the
    result. *)
Inductive replaced (r : regex) (repl : list ascii)
  : option ascii -> list ascii -> list ascii -> Prop :=
| replaced_nil prev :
    replaced r repl prev [] []
| replaced_keep prev c t out :
    match_here r prev (c :: t) = None ->
    replaced r repl (Some c) t out ->
    replaced r repl prev (c :: t) (c :: out)
| replaced_match prev w rest out :
    w <> [] -> lang r prev w rest ->
    replaced r repl (last_of prev w) rest out ->
    replaced r repl prev (w ++ rest) (repl ++ out).

(** A word that cannot overlap the replacement text [lb :: mid ++ [rb]]:
    it holds neither bracket and some character that the replacement
    does not. *)
Definition clear_of (lb rb : ascii) (mid : list ascii) (w : list ascii)
  : Prop :=
  ~ In lb w /\ ~ In rb w /\ exists c, In c w /\ ~ In c (lb :: mid ++ [rb]).

(** The three character classes of the e-mail pattern. *)
Definition email_local : cset :=
  rng "A" "Z" ++ rng "a" "z" ++ rng "0" "9" ++ one "."
  ++ one "_" ++ one "%" ++ one "+" ++ one "-".
Definition email_domain : cset :=
  rng "A" "Z" ++ rng "a" "z" ++ rng "0" "9" ++ one "." ++ one "-".
Definition email_tld : cset := rng "A" "Z" ++ one "|" ++ rng "a" "z".

(** The e-mail pattern without its two word boundaries. *)
Definition email_core (w : list ascii) : Prop :=
  exists l d t,
    w = l ++ "@"%char :: d ++ "."%char :: t /\
    l <> [] /\ Forall (fun c => in_cset email_local c = true) l /\
    d <> [] /\ Forall (fun c => in_cset email_domain c = true) d /\
    (2 <= List.length t)%nat /\
    Forall (fun c => in_cset email_tld c = true) t.

(** Texts in which a match of one of the five other patterns is left
    after sanitization: the pattern is followed by a Spotify URI, whose
    replacement creates the word boundary the pattern needs. *)
Definition ip_before_uri : string := "1.2.3.4spotify:track:abc".
Definition device_before_uri : string :=
  "abcdefab-cdef-abcd-efab-cdefabcdefabspotify:track:abc".
Definition mac_before_uri : string := "aa:bb:cc:dd:ee:ffspotify:track:abc".
Definition phone_before_uri : string := "12spotify:track:abc".
Definition card_before_uri : string :=
  "0123 0456 0789 0123spotify:track:abc".

(** Two typed records of one artist whose integer running time is too
    large for the float that the second record needs. *)
Definition huge_time_data : json :=
  JDict [ ("streaming_history",
           JList [ JDict [ ("artistName", JStr "B");
                           ("msPlayed", JInt (2 ^ 1024)) ];
                   JDict [ ("artistName", JStr "B");
                           ("msPlayed",
                            JFloat (binary_normalize prec emax 1 (-1)
                                      false)) ] ]) ].

(* ===================================================================== *)
(** * Proofs *)
(* ===================================================================== *)

(** ** Association lists *)

Lemma dict_get_set_same k v d : dict_get k (dict_set k v d) = Some v.
Proof.
  induction d as [|[k' v'] r IH]; simpl.
  - now rewrite String.eqb_refl.
  - destruct (String.eqb k k') eqn:E; simpl; rewrite E; auto.
Qed.

Lemma dict_get_set_other k k' v d :
  String.eqb k' k = false -> dict_get k' (dict_set k v d) = dict_get k' d.
Proof.
  intros Hne. induction d as [|[k0 v0] r IH]; simpl.
  - now rewrite Hne.
  - destruct (String.eqb k k0) eqn:E; simpl.
    + apply String.eqb_eq in E. subst k0. now rewrite Hne.
    + destruct (String.eqb k' k0); auto.
Qed.

Lemma dict_get_none k d : dict_get k d = None <-> ~ In k (map fst d).
Proof.
  induction d as [|[k' v'] r IH]; simpl.
  - tauto.
  - destruct (String.eqb k k') eqn:E.
    + apply String.eqb_eq in E. subst. split; [discriminate | tauto].
    + apply String.eqb_neq in E. rewrite IH. split.
      * intros H [H1|H1]; [congruence | tauto].
      * tauto.
Qed.

(** ** Merger: cleaning *)

Section Cleaning.
Import Merger.

Lemma clean_entry_kept entry kept :
  clean_entry entry = Ok (Some kept) -> cleaned_record kept = true.
Proof.
  unfold clean_entry, get_or_none.
  destruct entry as [| | | | | |d]; simpl; try discriminate.
  destruct (truthy (match dict_get "trackName" d with
                    | Some v => v | None => JNull end)) eqn:Ht;
    simpl; [|discriminate].
  destruct (truthy (match dict_get "artistName" d with
                    | Some v => v | None => JNull end)) eqn:Ha;
    simpl; [|discriminate].
  destruct (truthy (match dict_get "endTime" d with
                    | Some v => v | None => JNull end)) eqn:He;
    simpl; [|discriminate].
  destruct (truthy (match dict_get "msPlayed" d with
                    | Some v => v | None => JNull end)) eqn:Hm;
    simpl; [|discriminate].
  destruct (py_int _) as [n|e] eqn:Hint.
  - destruct (0 <? n)%Z eqn:Hpos; [|discriminate].
    intros [= <-]. unfold cleaned_record, field.
    rewrite !dict_get_set_other by reflexivity.
    rewrite dict_get_set_same. rewrite Ht, Ha, He. simpl. exact Hpos.
  - destruct e; discriminate.
Qed.

Lemma clean_loop_records entries :
  forall acc out,
    clean_loop entries acc = Ok out ->
    Forall (fun r => cleaned_record r = true) acc ->
    Forall (fun r => cleaned_record r = true) out.
Proof.
  induction entries as [|e rest IH]; simpl; intros acc out H Hacc.
  - now injection H as <-.
  - destruct (clean_entry e) as [[kept|]|ex] eqn:He; simpl in H;
      [| eauto | discriminate].
    apply (IH _ _ H). apply Forall_app. split; [assumption|].
    constructor; [|constructor]. eapply clean_entry_kept; eauto.
Qed.

Lemma py_int_no_overflow v :
  match v with JFloat (S754_infinity _) => False | _ => True end ->
  py_int v <> Raise OverflowError.
Proof.
  destruct v as [| b | z | f | s | l | d]; simpl; try discriminate.
  - destruct f; simpl; try discriminate; tauto.
  - intros _. unfold int_of_str.
    destruct (strip _) as [|c r]; [discriminate|].
    destruct (Ascii.eqb c "-"); [destruct (parse_digits _ _ _); discriminate|].
    destruct (Ascii.eqb c "+"); destruct (parse_digits _ _ _); discriminate.
Qed.

Lemma py_int_raises v e :
  py_int v = Raise e -> e = ValueError \/ e = TypeError \/ e = OverflowError.
Proof.
  destruct v as [| b | z | f | s | l | d]; simpl; try discriminate;
    try (intros [= <-]; tauto).
  - destruct f; simpl; try discriminate; intros [= <-]; tauto.
  - unfold int_of_str.
    destruct (strip _) as [|c r]; [intros [= <-]; tauto|].
    destruct (Ascii.eqb c "-");
      [destruct (parse_digits _ _ _); [discriminate|intros [= <-]; tauto]|].
    destruct (Ascii.eqb c "+");
      (destruct (parse_digits _ _ _); [discriminate|intros [= <-]; tauto]).
Qed.

Lemma clean_entry_total entry :
  cleanable entry = true -> exists r, clean_entry entry = Ok r.
Proof.
  unfold cleanable, clean_entry, get_or_none.
  destruct entry as [| | | | | |d]; try discriminate. simpl.
  intros Hc.
  destruct (truthy (match dict_get "trackName" d with
                    | Some v => v | None => JNull end)); simpl; [|eauto].
  destruct (truthy (match dict_get "artistName" d with
                    | Some v => v | None => JNull end)); simpl; [|eauto].
  destruct (truthy (match dict_get "endTime" d with
                    | Some v => v | None => JNull end)); simpl; [|eauto].
  destruct (truthy (match dict_get "msPlayed" d with
                    | Some v => v | None => JNull end)); simpl; [|eauto].
  destruct (py_int _) as [n|e] eqn:Hint.
  - destruct (0 <? n)%Z; eauto.
  - destruct (py_int_raises _ _ Hint) as [-> | [-> | ->]]; eauto.
    exfalso. revert Hint. apply py_int_no_overflow.
    destruct (dict_get "msPlayed" d) as [[| | |[]| | |]|]; auto.
    discriminate.
Qed.

Lemma clean_loop_total entries :
  forallb cleanable entries = true ->
  forall acc, exists out, clean_loop entries acc = Ok out.
Proof.
  induction entries as [|e rest IH]; simpl; intros H acc; [eauto|].
  apply andb_true_iff in H as [He Hr].
  destruct (clean_entry_total _ He) as [r ->]. simpl.
  destruct r; apply IH; assumption.
Qed.

(** [clean_streaming_data] returns on every history made of objects
    whose [msPlayed] is not an infinite float. *)
Lemma clean_streaming_data_total md :
  forallb cleanable (streaming_history md) = true ->
  exists md', clean_streaming_data md = Ok md'.
Proof.
  intros H. unfold clean_streaming_data.
  destruct (clean_loop_total _ H []) as [out ->]. simpl. eauto.
Qed.

End Cleaning.

(** C4, as stated, fails: a record whose [trackName] is the number 7
    survives the cleaning step, so not every emitted record has
    non-empty strings in its identity fields. *)
Lemma C4_counterexample :
  exists md',
    Merger.clean_streaming_data odd_history = Ok md' /\
    exists r, In r (Merger.streaming_history md') /\ strict_record r = false.
Proof.
  exists odd_history_cleaned. split; [reflexivity|].
  eexists. split; [left; reflexivity | reflexivity].
Qed.

(** C4 (amended): every record that the cleaning step keeps is an
    object whose trackName, artistName and endTime are truthy (so
    non-empty when they are strings) and whose msPlayed is an integer
    greater than zero. *)
Theorem C4_cleaned_records md md' :
  Merger.clean_streaming_data md = Ok md' ->
  forall r, In r (Merger.streaming_history md') ->
    (exists d, r = JDict d) /\
    truthy (field "trackName" r) = true /\
    truthy (field "artistName" r) = true /\
    truthy (field "endTime" r) = true /\
    (exists n, field "msPlayed" r = JInt n /\ (0 < n)%Z).
Proof.
  unfold Merger.clean_streaming_data. intros H r Hin.
  destruct (Merger.clean_loop _ _) as [out|e] eqn:Hloop; [|discriminate].
  simpl in H. injection H as <-. simpl in Hin.
  pose proof (clean_loop_records _ _ _ Hloop (Forall_nil _)) as Hall.
  rewrite Forall_forall in Hall. specialize (Hall _ Hin).
  unfold cleaned_record in Hall. destruct r as [| | | | | |d]; try discriminate.
  repeat (apply andb_true_iff in Hall as [Hall ?]).
  repeat split; eauto.
  unfold is_positive_int in *.
  destruct (field "msPlayed" (JDict d)) as [| |n| | | |]; try discriminate.
  exists n. split; [reflexivity|]. now apply Z.ltb_lt.
Qed.

Lemma C4_cleaned_records_witness :
  Merger.clean_streaming_data odd_history = Ok odd_history_cleaned /\
  forall r, In r (Merger.streaming_history odd_history_cleaned) ->
    (exists d, r = JDict d) /\
    truthy (field "trackName" r) = true /\
    truthy (field "artistName" r) = true /\
    truthy (field "endTime" r) = true /\
    (exists n, field "msPlayed" r = JInt n /\ (0 < n)%Z).
Proof.
  split; [reflexivity|].
  apply (C4_cleaned_records odd_history odd_history_cleaned). reflexivity.
Defined.

Lemma clean_streaming_data_count md md' :
  Merger.clean_streaming_data md = Ok md' ->
  Merger.total_streams md' = List.length (Merger.streaming_history md').
Proof.
  unfold Merger.clean_streaming_data. intros H.
  destruct (Merger.clean_loop _ _) as [out|e]; [|discriminate].
  simpl in H. now injection H as <-.
Qed.

(** C6: after the cleaning step, [total_streams] is the length of
    [streaming_history]. *)
Theorem C6_total_streams md md' :
  Merger.clean_streaming_data md = Ok md' ->
  Merger.total_streams md' = List.length (Merger.streaming_history md').
Proof. apply clean_streaming_data_count. Qed.

Lemma C6_total_streams_witness :
  Merger.clean_streaming_data odd_history = Ok odd_history_cleaned /\
  Merger.total_streams odd_history_cleaned
  = List.length (Merger.streaming_history odd_history_cleaned).
Proof.
  split; [reflexivity|].
  apply (C6_total_streams odd_history odd_history_cleaned). reflexivity.
Defined.

(** The same invariant for the document that [run] hands to
    [save_merged_data]. *)
Corollary run_total_streams sf pf present md' :
  Merger.run sf pf present = Ok md' ->
  Merger.total_streams md' = List.length (Merger.streaming_history md').
Proof. unfold Merger.run. apply clean_streaming_data_count. Qed.

(** ** Merger: ingestion *)

(** C7, as stated, fails: the "playlists" value of [text_playlists] is
    not an array, yet the file adds two elements to the accumulator. *)
Lemma C7_counterexample :
  playlists_is_array text_playlists = false /\
  Merger.playlists
    (Merger.merge_playlists [text_playlists] Merger.init_merged)
  = [JStr "a"; JStr "b"].
Proof. split; reflexivity. Qed.

Lemma playlists_step f md :
  Merger.playlists (Merger.guarded (Merger.playlists_body f) md)
  = Merger.playlists md ++ playlist_contribution f.
Proof.
  unfold Merger.guarded, Merger.playlists_body, playlist_contribution.
  destruct (f_content f) as [|data]; simpl; [now rewrite app_nil_r|].
  destruct data as [| | | | | |d]; simpl; try now rewrite app_nil_r.
  destruct (dict_get "playlists" d) as [v|]; simpl; [|now rewrite app_nil_r].
  destruct v; simpl; try reflexivity; now rewrite app_nil_r.
Qed.

(** C7 (amended): a playlist file adds elements only when its content
    is an object with a "playlists" key; it adds the elements of the
    value when that is an array, its characters when it is a string,
    its keys when it is an object, and nothing when it is a number, a
    boolean or null. *)
Theorem C7_playlist_ingestion playlist_files md :
  Merger.playlists (Merger.merge_playlists playlist_files md)
  = Merger.playlists md ++ flat_map playlist_contribution playlist_files.
Proof.
  unfold Merger.merge_playlists. revert md.
  induction playlist_files as [|f rest IH]; simpl; intros md.
  - now rewrite app_nil_r.
  - rewrite IH, playlists_step. now rewrite app_assoc.
Qed.

(** C8: a file whose reading or parsing raises leaves the merged
    document exactly as it was, and the loop goes on: the result is
    the one obtained without that file.  This holds for the streaming
    loop, the playlist loop and the three account files. *)
Theorem C8_unreadable_file_skipped p before after md :
  Merger.guarded (Merger.streaming_body (mkFile p Unreadable)) md = md /\
  Merger.guarded (Merger.playlists_body (mkFile p Unreadable)) md = md /\
  (forall filename,
     Merger.guarded (Merger.user_data_body filename Unreadable) md = md) /\
  Merger.merge_streaming_history (before ++ mkFile p Unreadable :: after) md
  = Merger.merge_streaming_history (before ++ after) md /\
  Merger.merge_playlists (before ++ mkFile p Unreadable :: after) md
  = Merger.merge_playlists (before ++ after) md.
Proof.
  split; [reflexivity|]. split; [reflexivity|].
  split; [intros filename; reflexivity|].
  unfold Merger.merge_streaming_history, Merger.merge_playlists.
  rewrite !fold_left_app. split; reflexivity.
Qed.

(** The account files: an unreadable one changes nothing. *)
Lemma merge_user_data_unreadable md :
  Merger.merge_user_data (fun _ => Some Unreadable) md = md.
Proof. reflexivity. Qed.

(** ** Sanitizer: the safe streaming history *)

Lemma truthy_default_present d k dflt :
  truthy dflt = false ->
  truthy (match dict_get k d with Some v => v | None => dflt end) = true ->
  exists v, dict_get k d = Some v /\ truthy v = true.
Proof.
  intros Hd. destruct (dict_get k d) as [v|]; [eauto | congruence].
Qed.

Lemma safe_entry_valid entry se :
  Sanitizer.safe_entry entry = Ok se ->
  Sanitizer.valid_safe_entry se = true ->
  exists d, entry = JDict d /\ safe_copy_of d se.
Proof.
  destruct entry as [| | | | | |d]; try discriminate.
  unfold Sanitizer.safe_entry. simpl. intros [= <-].
  unfold Sanitizer.valid_safe_entry. simpl. intros H.
  repeat (apply andb_true_iff in H as [H ?]).
  exists d. split; [reflexivity|].
  destruct (truthy_default_present d "trackName" (JStr "") eq_refl H)
    as [t [Ht Ht']].
  destruct (truthy_default_present d "artistName" (JStr "") eq_refl H2)
    as [a [Ha Ha']].
  destruct (truthy_default_present d "endTime" (JStr "") eq_refl H1)
    as [e [He He']].
  destruct (truthy_default_present d "msPlayed" (JInt 0) eq_refl H0)
    as [ms [Hm Hm']].
  exists t, a, (match dict_get "albumName" d with
                | Some v => v | None => JStr "" end), e, ms.
  rewrite Ht, Ha, He, Hm. repeat split; assumption.
Qed.

Lemma safe_entries_from data :
  forall acc rec,
    In rec (Sanitizer.safe_entries data acc) ->
    In rec acc \/ exists d, In (JDict d) data /\ safe_copy_of d rec.
Proof.
  induction data as [|entry rest IH]; simpl; intros acc rec H; [now left|].
  destruct (Sanitizer.safe_entry entry) as [se|ex] eqn:Hse; [|now left].
  destruct (Sanitizer.valid_safe_entry se) eqn:Hv.
  - destruct (IH _ _ H) as [Hin | [d [Hd Hc]]].
    + apply in_app_or in Hin as [Hin | [<- | []]]; [now left|].
      destruct (safe_entry_valid _ _ Hse Hv) as [d [-> Hc]].
      right. exists d. split; [now left | assumption].
    + right. exists d. split; [now right | assumption].
  - destruct (IH _ _ H) as [Hin | [d [Hd Hc]]]; [now left|].
    right. exists d. split; [now right | assumption].
Qed.

Lemma safe_history_from files :
  forall acc rec,
    In rec (Sanitizer.create_safe_streaming_history files acc) ->
    In rec acc \/
    exists f data d,
      In f files /\ f_content f = Parsed (JList data) /\
      In (JDict d) data /\ safe_copy_of d rec.
Proof.
  induction files as [|f rest IH]; simpl; intros acc rec H; [now left|].
  assert (Hskip :
    In rec (Sanitizer.create_safe_streaming_history rest acc) ->
    In rec acc \/
    exists f0 data d,
      (f = f0 \/ In f0 rest) /\ f_content f0 = Parsed (JList data) /\
      In (JDict d) data /\ safe_copy_of d rec).
  { intros H'. destruct (IH _ _ H') as [Hin | (f0 & data & d & Hf & Hrest)];
      [now left|].
    right. exists f0, data, d. split; [now right | assumption]. }
  destruct (f_content f) as [|content] eqn:Hc; [auto|].
  destruct content as [| | | | |data|]; auto.
  destruct (IH _ _ H) as [Hin | (f0 & data0 & d & Hf & Hrest)].
  - destruct (safe_entries_from _ _ _ Hin) as [Hacc | [d [Hd Hcopy]]];
      [now left|].
    right. exists f, data, d. repeat split; auto.
  - right. exists f0, data0, d. split; [now right | assumption].
Qed.

(** Conversely, the copy of every source record whose four required
    fields are truthy is emitted, whatever the values are. *)
Lemma safe_copy_valid d rec :
  safe_copy_of d rec ->
  Sanitizer.safe_entry (JDict d) = Ok rec /\
  Sanitizer.valid_safe_entry rec = true.
Proof.
  intros (t & a & al & e & ms & -> & Ht & Ht' & Ha & Ha' & He & He'
          & Hms & Hms' & ->).
  unfold Sanitizer.safe_entry. cbn [py_get bind].
  rewrite Ht, Ha, He, Hms. split; [reflexivity|].
  unfold Sanitizer.valid_safe_entry. simpl.
  now rewrite Ht', Ha', He', Hms'.
Qed.

Lemma safe_entries_keeps data :
  forall acc rec, In rec acc -> In rec (Sanitizer.safe_entries data acc).
Proof.
  induction data as [|entry rest IH]; simpl; intros acc rec H; [assumption|].
  destruct (Sanitizer.safe_entry entry) as [se|ex]; [|assumption].
  destruct (Sanitizer.valid_safe_entry se); apply IH; [|assumption].
  apply in_or_app. now left.
Qed.

Lemma safe_entries_emits data :
  forall acc d rec,
    In (JDict d) (leading_objects data) -> safe_copy_of d rec ->
    In rec (Sanitizer.safe_entries data acc).
Proof.
  induction data as [|entry rest IH]; intros acc d rec Hin Hc; [destruct Hin|].
  cbn [leading_objects] in Hin.
  destruct entry as [| | | | | |d0]; try (now destruct Hin).
  cbn [is_object] in Hin. cbn [Sanitizer.safe_entries].
  destruct Hin as [E|Hin].
  - injection E as ->. destruct (safe_copy_valid d rec Hc) as [-> ->].
    apply safe_entries_keeps, in_or_app. right. now left.
  - assert (E : exists se, Sanitizer.safe_entry (JDict d0) = Ok se)
      by (eexists; reflexivity).
    destruct E as [se ->].
    destruct (Sanitizer.valid_safe_entry se); now apply (IH _ d).
Qed.

Lemma safe_history_keeps files :
  forall acc rec,
    In rec acc -> In rec (Sanitizer.create_safe_streaming_history files acc).
Proof.
  induction files as [|f rest IH]; simpl; intros acc rec H; [assumption|].
  destruct (f_content f) as [|[| | | | |data|]]; try now apply IH.
  now apply IH, safe_entries_keeps.
Qed.

Lemma safe_history_emits files :
  forall acc f data d rec,
    In f files -> f_content f = Parsed (JList data) ->
    In (JDict d) (leading_objects data) -> safe_copy_of d rec ->
    In rec (Sanitizer.create_safe_streaming_history files acc).
Proof.
  induction files as [|f0 rest IH]; intros acc f data d rec Hf Hd Hin Hc;
    [destruct Hf|].
  cbn [Sanitizer.create_safe_streaming_history].
  destruct Hf as [->|Hf].
  - rewrite Hd. now apply safe_history_keeps, (safe_entries_emits data _ d).
  - destruct (f_content f0) as [|[| | | | |data0|]];
      now apply (IH _ f data d).
Qed.

(** C9: every record of safe_streaming_history.json has exactly the
    five keys trackName, artistName, albumName, endTime and msPlayed;
    it is the copy of a record of some streaming file whose trackName,
    artistName, endTime and msPlayed are present and truthy, each value
    taken over as it is (albumName defaulting to the empty string).
    Conversely the copy of every such record is emitted, whatever the
    four truthy values are, as long as no entry before it in its array
    is something other than an object.  No conversion is applied to
    msPlayed: a text and a negative number both pass, and so do a
    fraction and a boolean. *)
Theorem C9_safe_streaming_records :
  (forall files rec,
     In rec (Sanitizer.create_safe_streaming_history files []) ->
     exists f data d,
       In f files /\ f_content f = Parsed (JList data) /\
       In (JDict d) data /\ safe_copy_of d rec) /\
  (forall files f data d rec,
     In f files -> f_content f = Parsed (JList data) ->
     In (JDict d) (leading_objects data) -> safe_copy_of d rec ->
     In rec (Sanitizer.create_safe_streaming_history files [])) /\
  Sanitizer.create_safe_streaming_history odd_durations []
  = [ JDict [ ("trackName", JStr "A"); ("artistName", JStr "B");
              ("albumName", JStr "");
              ("endTime", JStr "2024-01-01T12:00:00Z");
              ("msPlayed", JStr "long") ];
      JDict [ ("trackName", JStr "A"); ("artistName", JStr "B");
              ("albumName", JStr "");
              ("endTime", JStr "2024-01-01T12:00:00Z");
              ("msPlayed", JInt (-5)) ] ] /\
  Sanitizer.create_safe_streaming_history unusual_durations []
  = [ JDict [ ("trackName", JInt 7); ("artistName", JBool true);
              ("albumName", JStr "");
              ("endTime", JList [JNull]);
              ("msPlayed",
               JFloat (binary_normalize prec emax 5 (-1) false)) ];
      JDict [ ("trackName", JStr "A"); ("artistName", JStr "B");
              ("albumName", JNull);
              ("endTime", JStr "2024-01-01T12:00:00Z");
              ("msPlayed", JBool true) ] ].
Proof.
  split; [|split; [|split; reflexivity]].
  - intros files rec H.
    destruct (safe_history_from _ _ _ H) as [[] | Hex]. exact Hex.
  - intros files f data d rec. apply safe_history_emits.
Qed.

Lemma C9_safe_streaming_records_witness :
  exists f data d,
    In f odd_durations /\ f_content f = Parsed (JList data) /\
    In (JDict d) data /\
    safe_copy_of d
      (JDict [ ("trackName", JStr "A"); ("artistName", JStr "B");
               ("albumName", JStr "");
               ("endTime", JStr "2024-01-01T12:00:00Z");
               ("msPlayed", JInt (-5)) ]).
Proof.
  apply (proj1 C9_safe_streaming_records odd_durations).
  right. left. reflexivity.
Defined.

(** ** Sanitizer: the recursive rebuild *)

Section Rebuild.
Import Sanitizer.

Lemma sanitize_object_list l st :
  sanitize_object (JList l) st =
  let '(l', st') := sanitize_each l st in (JList l', st').
Proof.
  revert st. induction l as [|x r IH]; intros st; [reflexivity|].
  simpl. simpl in IH.
  destruct (sanitize_object x st) as [x' st1]. specialize (IH st1).
  match type of IH with
  | (let '(_, _) := ?X in _) = _ => destruct X as [a b]
  end.
  destruct (sanitize_each r st1) as [c d].
  now injection IH as -> ->.
Qed.

Lemma sanitize_object_dict d st :
  sanitize_object (JDict d) st = sanitize_items d [] st.
Proof.
  simpl. generalize (@nil (string * json)). revert st.
  induction d as [|[k v] r IH]; intros st acc; simpl; [reflexivity|].
  destruct (should_remove k); [apply IH|].
  destruct (sanitize_object v st) as [v' st']. apply IH.
Qed.

Lemma sanitize_string_text s st :
  fst (sanitize_string s st) = fst (sanitize_string s init_stats).
Proof.
  unfold sanitize_string.
  destruct (fold_left redact_step redaction_patterns (s, 0%nat)).
  reflexivity.
Qed.

(** The rebuilt list, without the counters. *)
Lemma sanitize_each_map l :
  Forall (fun v => forall st, fst (sanitize_object v st) = sanitized v) l ->
  forall st, fst (sanitize_each l st) = map sanitized l.
Proof.
  induction 1 as [|x r Hx _ IH]; intros st; simpl; [reflexivity|].
  specialize (Hx st). destruct (sanitize_object x st) as [x' st1].
  specialize (IH st1). destruct (sanitize_each r st1) as [r' st2].
  simpl in *. now subst.
Qed.

Lemma sanitize_items_fold d :
  Forall (fun kv => forall st,
            fst (sanitize_object (snd kv) st) = sanitized (snd kv)) d ->
  forall acc st,
    fst (sanitize_items d acc st) = JDict (fold_left keep_item d acc).
Proof.
  induction 1 as [|[k v] r Hx _ IH]; intros acc st; simpl; [reflexivity|].
  unfold keep_item at 2. simpl.
  destruct (should_remove k); [apply IH|].
  specialize (Hx st). simpl in Hx.
  destruct (sanitize_object v st) as [v' st']. simpl in Hx. subst v'.
  apply IH.
Qed.

(** The returned document does not depend on the counters. *)
Lemma sanitize_object_doc obj :
  forall st, fst (sanitize_object obj st) = sanitized obj.
Proof.
  induction obj as [| b | z | f | s | l IH | d IH] using json_ind;
    intros st; try reflexivity.
  - unfold sanitized. simpl.
    pose proof (sanitize_string_text s st) as H.
    destruct (sanitize_string s st), (sanitize_string s init_stats).
    simpl in *. now subst.
  - unfold sanitized. rewrite !sanitize_object_list.
    pose proof (sanitize_each_map l IH st) as H1.
    pose proof (sanitize_each_map l IH init_stats) as H2.
    destruct (sanitize_each l st), (sanitize_each l init_stats).
    simpl in *. congruence.
  - unfold sanitized. rewrite !sanitize_object_dict.
    now rewrite !(sanitize_items_fold d IH).
Qed.

Lemma sanitized_list l : sanitized (JList l) = JList (map sanitized l).
Proof.
  unfold sanitized at 1. rewrite sanitize_object_list.
  pose proof (sanitize_each_map l) as H.
  specialize (H (proj2 (Forall_forall _ _)
                   (fun v _ => sanitize_object_doc v)) init_stats).
  destruct (sanitize_each l init_stats). simpl in *. now subst.
Qed.

Lemma sanitized_dict d :
  sanitized (JDict d) = JDict (fold_left keep_item d []).
Proof.
  unfold sanitized at 1. rewrite sanitize_object_dict.
  apply sanitize_items_fold.
  apply Forall_forall. intros kv _. apply sanitize_object_doc.
Qed.

Lemma sanitized_str s :
  sanitized (JStr s) = JStr (fst (sanitize_string s init_stats)).
Proof.
  unfold sanitized. simpl. now destruct (sanitize_string s init_stats).
Qed.

(** Lookups in the rebuilt object. *)
Lemma fold_keep_item_get d :
  NoDup (map fst d) ->
  forall acc k,
    dict_get k (fold_left keep_item d acc) =
    match (if should_remove k then None
           else option_map sanitized (dict_get k d)) with
    | Some v => Some v
    | None => dict_get k acc
    end.
Proof.
  induction d as [|[k0 v0] r IH]; simpl; intros Hnd acc k.
  - now destruct (should_remove k).
  - inversion Hnd as [|? ? Hnotin Hnd']; subst.
    rewrite (IH Hnd'). unfold keep_item. simpl.
    destruct (String.eqb k k0) eqn:E.
    + apply String.eqb_eq in E. subst k0.
      apply dict_get_none in Hnotin. rewrite Hnotin. simpl.
      destruct (should_remove k); simpl; [reflexivity|].
      apply dict_get_set_same.
    + assert (Hacc :
        dict_get k (if should_remove k0 then acc
                    else dict_set k0 (sanitized v0) acc) = dict_get k acc).
      { destruct (should_remove k0); [reflexivity|].
        now apply dict_get_set_other. }
      now rewrite Hacc.
Qed.

Lemma clean_key_spec k : clean_key k = negb (should_remove k).
Proof.
  unfold clean_key, should_remove.
  induction remove_fields as [|f r IH]; simpl; [reflexivity|].
  rewrite IH. now destruct (contains (lower f) (lower k)).
Qed.

Lemma keys_clean_dict d : keys_clean (JDict d) = dict_clean d.
Proof.
  simpl. induction d as [|[k v] r IH]; simpl; [reflexivity|].
  now rewrite IH.
Qed.

Lemma keys_clean_list l : keys_clean (JList l) = forallb keys_clean l.
Proof.
  simpl. induction l as [|x r IH]; simpl; [reflexivity|]. now rewrite IH.
Qed.

Lemma dict_clean_set k v d :
  clean_key k = true -> keys_clean v = true -> dict_clean d = true ->
  dict_clean (dict_set k v d) = true.
Proof.
  intros Hk Hv. induction d as [|[k0 v0] r IH]; simpl; intros Hd.
  - now rewrite Hk, Hv.
  - apply andb_true_iff in Hd as [H0 Hr].
    destruct (String.eqb k k0) eqn:E; simpl.
    + apply andb_true_iff in H0 as [Hk0 _]. now rewrite Hk0, Hv, Hr.
    + now rewrite H0, IH.
Qed.

Lemma sanitized_keys_clean obj : keys_clean (sanitized obj) = true.
Proof.
  induction obj as [| b | z | f | s | l IH | d IH] using json_ind;
    try reflexivity.
  - now rewrite sanitized_str.
  - rewrite sanitized_list, keys_clean_list.
    induction IH as [|x r Hx _ IHr]; simpl; [reflexivity|].
    now rewrite Hx, IHr.
  - rewrite sanitized_dict, keys_clean_dict.
    assert (Hacc : dict_clean [] = true) by reflexivity.
    revert Hacc. generalize (@nil (string * json)).
    induction IH as [|[k v] r Hx _ IHr]; simpl; intros acc Hacc;
      [assumption|].
    apply IHr. unfold keep_item. simpl.
    destruct (should_remove k) eqn:Hrm; [assumption|].
    apply dict_clean_set; trivial.
    rewrite clean_key_spec, Hrm. reflexivity.
Qed.

End Rebuild.

(** ** Regular expressions: what the matcher accepts *)

Lemma last_of_app p w1 w2 :
  last_of p (w1 ++ w2) = last_of (last_of p w1) w2.
Proof. revert p. induction w1; simpl; auto. Qed.

Section Repetition.
Variable ma : matcher.
Variable L : ctx_lang.

Lemma may_sound :
  sound ma L ->
  forall n k p s x,
    may ma n k p s = Some x ->
    exists j w rest,
      (j <= n)%nat /\ s = w ++ rest /\ pow L j p w rest
      /\ k (last_of p w) rest = Some x.
Proof.
  intros Hs. induction n as [|n IH]; simpl; intros k p s x H.
  - exists 0%nat, [], s. repeat split; auto.
  - destruct (ma p s (may ma n k)) as [y|] eqn:E.
    + injection H as ->.
      destruct (Hs _ _ _ _ E) as (w1 & rest1 & -> & HL & Hk).
      destruct (IH _ _ _ _ Hk) as (j & w2 & rest2 & Hj & -> & Hp & Hk2).
      exists (S j), (w1 ++ w2), rest2. repeat split.
      * lia.
      * now rewrite app_assoc.
      * simpl. exists w1, w2. repeat split; auto.
      * now rewrite last_of_app.
    + exists 0%nat, [], s. repeat split; auto. lia.
Qed.

Lemma may_complete :
  complete ma L ->
  forall n k p s j w rest,
    (j <= n)%nat -> s = w ++ rest -> pow L j p w rest ->
    k (last_of p w) rest <> None ->
    may ma n k p s <> None.
Proof.
  intros Hc. induction n as [|n IH]; simpl; intros k p s j w rest Hj -> Hp Hk.
  - assert (j = 0)%nat as -> by lia. simpl in Hp. now subst w.
  - destruct j as [|j]; simpl in Hp.
    + subst w. simpl. destruct (ma p rest (may ma n k)); [discriminate|].
      exact Hk.
    + destruct Hp as (w1 & w2 & -> & HL & Hp).
      assert (Hin : ma p ((w1 ++ w2) ++ rest) (may ma n k) <> None).
      { apply (Hc p _ _ w1 (w2 ++ rest)); [now rewrite app_assoc | exact HL |].
        apply (IH k _ _ j w2 rest); auto; try lia.
        now rewrite <- last_of_app. }
      destruct (ma p ((w1 ++ w2) ++ rest) (may ma n k)); [discriminate|].
      contradiction.
Qed.

Lemma must_sound :
  sound ma L ->
  forall lo extra k p s x,
    must ma lo extra k p s = Some x ->
    exists j w rest,
      (lo <= j <= lo + extra)%nat /\ s = w ++ rest /\ pow L j p w rest
      /\ k (last_of p w) rest = Some x.
Proof.
  intros Hs. induction lo as [|lo IH]; simpl; intros extra k p s x H.
  - destruct (may_sound Hs _ _ _ _ _ H) as (j & w & rest & Hj & Hr).
    exists j, w, rest. split; [lia | exact Hr].
  - destruct (Hs _ _ _ _ H) as (w1 & rest1 & -> & HL & Hk).
    destruct (IH _ _ _ _ _ Hk) as (j & w2 & rest2 & Hj & -> & Hp & Hk2).
    exists (S j), (w1 ++ w2), rest2. repeat split; try lia.
    + now rewrite app_assoc.
    + simpl. exists w1, w2. repeat split; auto.
    + now rewrite last_of_app.
Qed.

Lemma must_complete :
  complete ma L ->
  forall lo extra k p s j w rest,
    (lo <= j <= lo + extra)%nat -> s = w ++ rest -> pow L j p w rest ->
    k (last_of p w) rest <> None ->
    must ma lo extra k p s <> None.
Proof.
  intros Hc. induction lo as [|lo IH]; simpl;
    intros extra k p s j w rest Hj -> Hp Hk.
  - apply (may_complete Hc extra k p _ j w rest); auto. lia.
  - destruct j as [|j]; [lia|]. simpl in Hp.
    destruct Hp as (w1 & w2 & -> & HL & Hp).
    apply (Hc p _ _ w1 (w2 ++ rest)); [now rewrite app_assoc | exact HL |].
    apply (IH extra k _ _ j w2 rest); auto; try lia.
    now rewrite <- last_of_app.
Qed.

End Repetition.

Lemma many_sound cs :
  forall s lo p k x,
    many cs lo p s k = Some x ->
    exists w rest,
      s = w ++ rest /\ (lo <= List.length w)%nat
      /\ Forall (fun c => in_cset cs c = true) w
      /\ k (last_of p w) rest = Some x.
Proof.
  assert (Hstop : forall s lo p (k : cont) x,
    match lo with O => k p s | S _ => None end = Some x ->
    exists w rest,
      s = w ++ rest /\ (lo <= List.length w)%nat
      /\ Forall (fun c => in_cset cs c = true) w
      /\ k (last_of p w) rest = Some x).
  { intros s lo p k x H. destruct lo; [|discriminate].
    exists [], s. repeat split; auto. }
  induction s as [|c t IH]; simpl; intros lo p k x H; [now apply Hstop|].
  destruct (in_cset cs c) eqn:Hc; [|now apply Hstop].
  destruct (many cs (pred lo) (Some c) t k) as [y|] eqn:E;
    [|now apply Hstop].
  injection H as ->.
  destruct (IH _ _ _ _ E) as (w & rest & -> & Hlen & Hall & Hk).
  exists (c :: w), rest. repeat split; auto.
  simpl. lia.
Qed.

Lemma many_complete cs :
  forall s lo p k w rest,
    s = w ++ rest -> (lo <= List.length w)%nat ->
    Forall (fun c => in_cset cs c = true) w ->
    k (last_of p w) rest <> None ->
    many cs lo p s k <> None.
Proof.
  induction s as [|c t IH]; intros lo p k w rest Hs Hlen Hall Hk.
  - destruct w; [|discriminate]. simpl in *. subst rest.
    destruct lo; [exact Hk | lia].
  - destruct w as [|c' w'].
    + simpl in *. subst rest. assert (lo = 0)%nat as -> by lia.
      destruct (in_cset cs c); [|exact Hk].
      destruct (many cs _ (Some c) t k); [discriminate | exact Hk].
    + simpl in Hs. injection Hs as <- ->.
      inversion Hall as [|? ? Hc Hall']; subst. simpl. rewrite Hc.
      assert (Hin : many cs (pred lo) (Some c) (w' ++ rest) k <> None).
      { apply (IH _ _ _ w' rest); auto. simpl in Hlen. lia. }
      destruct (many cs (pred lo) (Some c) (w' ++ rest) k);
        [discriminate | contradiction].
Qed.

(** Whatever the matcher returns comes from a text of the language. *)
Theorem m_sound r : sound (m r) (lang r).
Proof.
  induction r as [| cs | | a IHa b IHb | a IHa b IHb | a IHa lo extra
                 | cs lo]; intros p s k x H; simpl in H.
  - exists [], s. simpl. repeat split; auto.
  - destruct s as [|c t]; [discriminate|].
    destruct (in_cset cs c) eqn:Hc; [|discriminate].
    exists [c], t. simpl. repeat split; eauto.
  - destruct (at_boundary p s) eqn:Hb; [|discriminate].
    exists [], s. simpl. auto.
  - destruct (IHa _ _ _ _ H) as (w1 & rest1 & -> & HL1 & Hk1).
    destruct (IHb _ _ _ _ Hk1) as (w2 & rest2 & -> & HL2 & Hk2).
    exists (w1 ++ w2), rest2. repeat split.
    + now rewrite app_assoc.
    + simpl. exists w1, w2. repeat split; auto.
    + now rewrite last_of_app.
  - destruct (m a p s k) as [y|] eqn:E.
    + injection H as ->.
      destruct (IHa _ _ _ _ E) as (w & rest & -> & HL & Hk).
      exists w, rest. simpl. repeat split; auto.
    + destruct (IHb _ _ _ _ H) as (w & rest & -> & HL & Hk).
      exists w, rest. simpl. repeat split; auto.
  - destruct (must_sound _ _ IHa _ _ _ _ _ _ H) as (j & w & rest & Hj & -> & Hp & Hk).
    exists w, rest. simpl. repeat split; eauto.
  - destruct (many_sound _ _ _ _ _ _ H) as (w & rest & -> & Hlen & Hall & Hk).
    exists w, rest. simpl. repeat split; auto.
Qed.

(** The matcher finds a match whenever the language has one that the
    continuation accepts. *)
Theorem m_complete r : complete (m r) (lang r).
Proof.
  induction r as [| cs | | a IHa b IHb | a IHa b IHb | a IHa lo extra
                 | cs lo]; intros p s k w rest -> HL Hk; simpl in HL; simpl.
  - now subst w.
  - destruct HL as (c & -> & Hc). simpl. now rewrite Hc.
  - destruct HL as (-> & Hb). simpl. now rewrite Hb.
  - destruct HL as (w1 & w2 & -> & H1 & H2).
    apply (IHa p _ _ w1 (w2 ++ rest)); [now rewrite app_assoc | exact H1 |].
    apply (IHb _ _ _ w2 rest); auto. now rewrite <- last_of_app.
  - destruct HL as [HL|HL].
    + assert (Hin : m a p (w ++ rest) k <> None)
        by (apply (IHa p _ _ w rest); auto).
      destruct (m a p (w ++ rest) k); [discriminate | contradiction].
    + destruct (m a p (w ++ rest) k); [discriminate|].
      apply (IHb p _ _ w rest); auto.
  - destruct HL as (n & Hn & Hp).
    apply (must_complete _ _ IHa lo extra k p _ n w rest); auto.
  - destruct HL as (Hlen & Hall).
    apply (many_complete cs _ lo p k w rest); auto.
Qed.

(** ** Regular expressions: patterns without [\b] *)

Lemma pow_ctx (L : ctx_lang) :
  (forall p w rest p' rest', L p w rest -> L p' w rest') ->
  forall n p w rest p' rest', pow L n p w rest -> pow L n p' w rest'.
Proof.
  intros HL. induction n as [|n IH]; simpl; intros p w rest p' rest' H; auto.
  destruct H as (w1 & w2 & -> & H1 & H2).
  exists w1, w2. repeat split; eauto.
Qed.

(** Without [\b] a match does not depend on what surrounds it. *)
Lemma lang_bnd_free r :
  bnd_free r = true ->
  forall p w rest p' rest', lang r p w rest -> lang r p' w rest'.
Proof.
  induction r as [| cs | | a IHa b IHb | a IHa b IHb | a IHa lo extra
                 | cs lo]; simpl; intros Hf p w rest p' rest' H; auto.
  - discriminate.
  - apply andb_true_iff in Hf as [Ha Hb].
    destruct H as (w1 & w2 & -> & H1 & H2).
    exists w1, w2. repeat split; eauto.
  - apply andb_true_iff in Hf as [Ha Hb]. destruct H; eauto.
  - destruct H as (n & Hn & Hp). exists n. split; [assumption|].
    eapply pow_ctx; eauto.
Qed.

Lemma pow_uses (L : ctx_lang) (P : ascii -> Prop) :
  (forall p w rest, L p w rest -> Forall P w) ->
  forall n p w rest, pow L n p w rest -> Forall P w.
Proof.
  intros HL. induction n as [|n IH]; simpl; intros p w rest H.
  - subst. constructor.
  - destruct H as (w1 & w2 & -> & H1 & H2).
    apply Forall_app. split; eauto.
Qed.

Lemma lang_uses r :
  forall p w rest, lang r p w rest -> Forall (fun c => uses r c = true) w.
Proof.
  induction r as [| cs | | a IHa b IHb | a IHa b IHb | a IHa lo extra
                 | cs lo]; simpl; intros p w rest H.
  - subst. constructor.
  - destruct H as (c & -> & Hc). constructor; [assumption | constructor].
  - destruct H as [-> _]. constructor.
  - destruct H as (w1 & w2 & -> & H1 & H2). apply Forall_app. split.
    + eapply Forall_impl; [|eapply IHa; eauto].
      simpl. intros c ->. reflexivity.
    + eapply Forall_impl; [|eapply IHb; eauto].
      simpl. intros c ->. apply orb_true_r.
  - destruct H as [H|H].
    + eapply Forall_impl; [|eapply IHa; eauto].
      simpl. intros c ->. reflexivity.
    + eapply Forall_impl; [|eapply IHb; eauto].
      simpl. intros c ->. apply orb_true_r.
  - destruct H as (n & _ & Hp). eapply pow_uses; eauto.
  - tauto.
Qed.

(** ** Regular expressions: substitution removes every occurrence *)

Lemma occurs_cons r c t : occurs r t -> occurs r (c :: t).
Proof.
  intros (u & w & v & -> & H). exists (c :: u), w, v. auto.
Qed.

Lemma match_here_sound r p s rest :
  match_here r p s = Some rest ->
  exists w, s = w ++ rest /\ lang r p w rest.
Proof.
  unfold match_here. intros H.
  destruct (m_sound r _ _ _ _ H) as (w & rest' & -> & HL & [= ->]).
  eauto.
Qed.

Lemma match_here_complete r p w rest :
  lang r p w rest -> match_here r p (w ++ rest) <> None.
Proof.
  unfold match_here. intros H.
  apply (m_complete r p _ _ w rest); auto. discriminate.
Qed.

Lemma findall_from_S fuel r prev s :
  findall_from (S fuel) r prev s =
  match match_here r prev s with
  | Some rest =>
      let n := (List.length s - List.length rest)%nat in
      match n, s with
      | O, c :: t => [] :: findall_from fuel r (Some c) t
      | O, [] => [[]]
      | _, _ => firstn n s :: findall_from fuel r (last_before prev s n) rest
      end
  | None =>
      match s with
      | c :: t => findall_from fuel r (Some c) t
      | [] => []
      end
  end.
Proof. reflexivity. Qed.

Lemma sub_from_S fuel r repl prev s :
  sub_from (S fuel) r repl prev s =
  match match_here r prev s with
  | Some rest =>
      let n := (List.length s - List.length rest)%nat in
      match n, s with
      | O, c :: t => repl ++ c :: sub_from fuel r repl (Some c) t
      | O, [] => repl
      | _, _ => repl ++ sub_from fuel r repl (last_before prev s n) rest
      end
  | None =>
      match s with
      | c :: t => c :: sub_from fuel r repl (Some c) t
      | [] => []
      end
  end.
Proof. reflexivity. Qed.

Section Substitution.
Variable r : regex.
Variable repl : list ascii.
Variable bracket : ascii.
Variable repl' : list ascii.

Hypothesis r_bnd_free : bnd_free r = true.
Hypothesis repl_starts : repl = bracket :: repl'.
Hypothesis bracket_foreign : uses r bracket = false.
Hypothesis first_foreign :
  forall w, lang r None w [] -> exists c w', w = c :: w' /\ ~ In c repl.

(** A text without occurrence has no match. *)
Lemma findall_from_none fuel :
  forall s prev, ~ occurs r s -> findall_from fuel r prev s = [].
Proof.
  induction fuel as [|fuel IH]; intros s prev Hno; [reflexivity|].
  rewrite findall_from_S.
  destruct (match_here r prev s) as [rest|] eqn:E.
  - exfalso. apply Hno.
    destruct (match_here_sound _ _ _ _ E) as (w & -> & HL).
    exists [], w, rest. split; [reflexivity|].
    eapply lang_bnd_free; eauto.
  - destruct s as [|c t]; [reflexivity|].
    apply IH. intros H. apply Hno. now apply occurs_cons.
Qed.

(** A stretch of the output that stays within the characters of the
    pattern lies before the first replacement, so it is a stretch of
    the input. *)
Lemma sub_from_prefix fuel :
  forall t p w rest,
    w ++ rest = sub_from fuel r repl p t ->
    Forall (fun c => uses r c = true) w ->
    exists rest', t = w ++ rest'.
Proof.
  assert (Hrepl : forall w rest tail,
            w ++ rest = repl ++ tail ->
            Forall (fun c => uses r c = true) w -> w = []).
  { intros w rest tail H Hw. destruct w as [|c w0]; [reflexivity|].
    rewrite repl_starts in H. simpl in H. injection H as -> _.
    apply Forall_inv in Hw. congruence. }
  induction fuel as [|fuel IH]; intros t p w rest H Hw.
  - simpl in H. eauto.
  - rewrite sub_from_S in H.
    destruct (match_here r p t) as [rest0|].
    + assert (w = []) as ->; [|exists t; reflexivity].
      cbv zeta in H.
      destruct (List.length t - List.length rest0)%nat.
      * destruct t.
        -- apply (Hrepl w rest []); [now rewrite app_nil_r | assumption].
        -- eapply Hrepl; eauto.
      * eapply Hrepl; eauto.
    + destruct t as [|c t'].
      * destruct w; [exists []; reflexivity | discriminate].
      * destruct w as [|c' w0]; [exists (c :: t'); reflexivity|].
        simpl in H. injection H as -> H.
        apply Forall_inv_tail in Hw.
        destruct (IH _ _ _ _ H Hw) as [rest' ->].
        exists rest'. reflexivity.
Qed.

(** After [re.sub] the pattern occurs nowhere in the text. *)
Lemma sub_from_no_occurrence fuel :
  forall s prev,
    (List.length s < fuel)%nat -> ~ occurs r (sub_from fuel r repl prev s).
Proof.
  induction fuel as [|fuel IH]; intros s prev Hlen; [lia|].
  rewrite sub_from_S.
  destruct (match_here r prev s) as [rest0|] eqn:E.
  - destruct (match_here_sound _ _ _ _ E) as (w0 & -> & HL0).
    assert (HL0' : lang r None w0 []) by (eapply lang_bnd_free; eauto).
    destruct (first_foreign _ HL0') as (c0 & w0' & -> & _).
    assert (Hn : (List.length ((c0 :: w0') ++ rest0) - List.length rest0
                  = S (List.length w0'))%nat).
    { rewrite length_app. cbn [List.length]. lia. }
    cbv zeta. rewrite Hn.
    match goal with
    | |- ~ occurs _ (_ ++ sub_from _ _ _ ?q _) => set (pq := q)
    end.
    intros (u & w & v & Heq & HL).
    destruct (first_foreign _ HL) as (c & w' & -> & Hc).
    assert (Hrest : (List.length rest0 < fuel)%nat).
    { rewrite length_app in Hlen. cbn [List.length] in Hlen. lia. }
    apply app_eq_app in Heq as [l [[Hrepl Hw] | [Hu Hout]]].
    + destruct l as [|c' l'].
      * simpl in Hw. apply (IH rest0 pq Hrest). rewrite <- Hw.
        exists [], (c :: w'), v. auto.
      * simpl in Hw. injection Hw as <- _.
        apply Hc. rewrite Hrepl. apply in_or_app. right. now left.
    + apply (IH rest0 pq Hrest). rewrite Hout. exists l, (c :: w'), v. auto.
  - destruct s as [|c t].
    + intros (u & w & v & Heq & HL).
      destruct (first_foreign _ HL) as (c & w' & -> & _).
      destruct u; discriminate.
    + intros (u & w & v & Heq & HL).
      destruct u as [|c' u'].
      * destruct (first_foreign _ HL) as (c1 & w' & -> & _).
        simpl in Heq. injection Heq as <- Heq.
        pose proof (lang_uses _ _ _ _ HL) as Huses.
        apply Forall_inv_tail in Huses. rename Huses into Huses'.
        destruct (sub_from_prefix _ _ _ _ _ (eq_sym Heq) Huses')
          as [rest' ->].
        apply (match_here_complete r prev (c :: w') rest'); [|exact E].
        eapply lang_bnd_free; eauto.
      * simpl in Heq. injection Heq as <- Heq.
        simpl in Hlen.
        apply (IH t (Some c)); [lia|]. rewrite Heq. exists u', w, v. auto.
Qed.

End Substitution.

(** ** Sanitizer: what redaction guarantees *)

Lemma in_cset_one a c : in_cset (one a) c = true -> c = a.
Proof.
  unfold in_cset, one, code. simpl. rewrite orb_false_r.
  intros H. apply andb_true_iff in H as [H1 H2].
  apply Nat.leb_le in H1, H2.
  rewrite <- (ascii_nat_embedding c), <- (ascii_nat_embedding a).
  f_equal. lia.
Qed.

Lemma spotify_first w :
  lang spotify_uris None w [] ->
  exists c w', w = c :: w' /\ ~ In c (list_ascii_of_string "[SPOTIFY_URI]").
Proof.
  unfold spotify_uris. intros H.
  change (lit "spotify:") with (Seq (chr "s") (lit "potify:")) in H.
  cbn [lang] in H.
  destruct H as (w1 & w2 & -> & (w3 & w4 & -> & H & _) & _).
  unfold chr in H. cbn [lang] in H. destruct H as (c & -> & Hc).
  apply in_cset_one in Hc. subst c.
  exists "s"%char, (w4 ++ w2). split; [reflexivity|].
  simpl. intros H.
  repeat (destruct H as [H|H]; [discriminate|]). exact H.
Qed.

(** The Spotify URI pattern is applied last and matches nowhere in
    the text that [re.sub] returns. *)
Lemma spotify_removed text :
  findall spotify_uris (sub spotify_uris "[SPOTIFY_URI]" text) = [].
Proof.
  unfold findall, sub. rewrite list_ascii_of_string_of_list_ascii.
  rewrite findall_from_none; [reflexivity | reflexivity |].
  apply (sub_from_no_occurrence spotify_uris
           (list_ascii_of_string "[SPOTIFY_URI]") "["%char
           (list_ascii_of_string "SPOTIFY_URI]")); trivial.
  - exact spotify_first.
  - lia.
Qed.

Lemma sanitize_string_spotify_free s :
  search spotify_uris (fst (Sanitizer.sanitize_string s Sanitizer.init_stats))
  = false.
Proof.
  unfold Sanitizer.sanitize_string, Sanitizer.redaction_patterns.
  cbn [fold_left].
  match goal with
  | |- context [Sanitizer.redact_step ?acc _] => destruct acc as [t n]
  end.
  unfold Sanitizer.redact_step at 1, search.
  destruct (findall spotify_uris t) as [|x l] eqn:E; simpl.
  - now rewrite E.
  - now rewrite spotify_removed.
Qed.

Lemma strings_free_list ps l :
  strings_free ps (JList l) = forallb (strings_free ps) l.
Proof.
  simpl. induction l as [|x r IH]; simpl; [reflexivity|]. now rewrite IH.
Qed.

Lemma strings_free_dict ps d :
  strings_free ps (JDict d) = forallb (fun kv => strings_free ps (snd kv)) d.
Proof.
  simpl. induction d as [|[k v] r IH]; simpl; [reflexivity|].
  now rewrite IH.
Qed.

Lemma strings_free_set ps k v d :
  strings_free ps v = true ->
  forallb (fun kv => strings_free ps (snd kv)) d = true ->
  forallb (fun kv => strings_free ps (snd kv)) (dict_set k v d) = true.
Proof.
  intros Hv. induction d as [|[k0 v0] r IH]; simpl; intros Hd.
  - now rewrite Hv.
  - apply andb_true_iff in Hd as [H0 Hr].
    destruct (String.eqb k k0); simpl.
    + now rewrite Hv, Hr.
    + now rewrite H0, IH.
Qed.

(** ** Sanitizer: what the later passes cannot uncover *)

Lemma last_of_nonempty p q (l : list ascii) :
  l <> [] -> last_of p l = last_of q l.
Proof. destruct l as [|c t]; [congruence | reflexivity]. Qed.

Lemma last_of_snoc p (l : list ascii) c : last_of p (l ++ [c]) = Some c.
Proof. now rewrite last_of_app. Qed.

Lemma last_before_app prev (w rest : list ascii) :
  last_before prev (w ++ rest) (List.length w) = last_of prev w.
Proof.
  revert prev. induction w as [|c t IH]; intros prev; simpl.
  - now destruct rest.
  - apply IH.
Qed.

Lemma pow_min_len (L : ctx_lang) k :
  (forall p w rest, L p w rest -> (k <= List.length w)%nat) ->
  forall n p w rest, pow L n p w rest -> (n * k <= List.length w)%nat.
Proof.
  intros HL. induction n as [|n IH]; simpl; intros p w rest H; [lia|].
  destruct H as (w1 & w2 & -> & H1 & H2).
  rewrite length_app. specialize (HL _ _ _ H1). specialize (IH _ _ _ H2).
  lia.
Qed.

Lemma lang_min_len r :
  forall p w rest, lang r p w rest -> (min_len r <= List.length w)%nat.
Proof.
  induction r as [| cs | | a IHa b IHb | a IHa b IHb | a IHa lo extra
                 | cs lo]; simpl; intros p w rest H.
  - lia.
  - destruct H as (c & -> & _). simpl. lia.
  - lia.
  - destruct H as (w1 & w2 & -> & H1 & H2). rewrite length_app.
    specialize (IHa _ _ _ H1). specialize (IHb _ _ _ H2). lia.
  - destruct H as [H|H]; [specialize (IHa _ _ _ H) | specialize (IHb _ _ _ H)];
      lia.
  - destruct H as (n & Hn & H).
    pose proof (pow_min_len (lang a) (min_len a) IHa n _ _ _ H). nia.
  - lia.
Qed.

Lemma lang_starts_bnd r :
  starts_bnd r = true ->
  forall p w rest, lang r p w rest -> at_boundary p (w ++ rest) = true.
Proof.
  induction r as [| cs | | a IHa b IHb | a IHa b IHb | a IHa lo extra
                 | cs lo]; simpl; try discriminate; intros Hr p w rest H.
  - now destruct H as [-> H].
  - destruct H as (w1 & w2 & -> & H1 & _). rewrite <- app_assoc.
    now apply IHa.
Qed.

Lemma lang_ends_bnd r :
  ends_bnd r = true ->
  forall p w rest, lang r p w rest -> at_boundary (last_of p w) rest = true.
Proof.
  induction r as [| cs | | a IHa b IHb | a IHa b IHb | a IHa lo extra
                 | cs lo]; simpl; try discriminate; intros Hr p w rest H.
  - now destruct H as [-> H].
  - destruct H as (w1 & w2 & -> & _ & H2). rewrite last_of_app.
    now apply IHb.
Qed.

(** A text without match gives an empty [findall], and conversely. *)
Lemma no_match_findall r fuel :
  forall s prev, no_match r prev s -> findall_from fuel r prev s = [].
Proof.
  induction fuel as [|fuel IH]; intros s prev Hno; [reflexivity|].
  rewrite findall_from_S.
  destruct (match_here r prev s) as [rest|] eqn:E.
  - exfalso. destruct (match_here_sound _ _ _ _ E) as (w & -> & HL).
    apply (Hno [] w rest); [reflexivity | exact HL].
  - destruct s as [|c t]; [reflexivity|].
    apply IH. intros u w v Heq HL.
    apply (Hno (c :: u) w v); [now rewrite Heq | exact HL].
Qed.

Lemma findall_no_match r fuel :
  forall s prev,
    (List.length s < fuel)%nat -> findall_from fuel r prev s = [] ->
    no_match r prev s.
Proof.
  induction fuel as [|fuel IH]; intros s prev Hlen H; [lia|].
  rewrite findall_from_S in H.
  destruct (match_here r prev s) as [rest|] eqn:E.
  - exfalso. cbv zeta in H.
    destruct (List.length s - List.length rest)%nat; [destruct s|];
      discriminate.
  - intros u w v Heq HL. destruct u as [|c u].
    + simpl in Heq, HL. subst s.
      now apply (match_here_complete r prev w v).
    + destruct s as [|c' t]; [discriminate|].
      simpl in Heq. injection Heq as -> Heq. simpl in Hlen.
      apply (IH t (Some c) ltac:(lia) H u w v Heq). exact HL.
Qed.

(** The result of [sub_from], piece by piece. *)
Lemma sub_from_replaced r repl :
  (0 < min_len r)%nat ->
  forall fuel s prev,
    (List.length s < fuel)%nat ->
    replaced r repl prev s (sub_from fuel r repl prev s).
Proof.
  intros Hmin. induction fuel as [|fuel IH]; intros s prev Hlen; [lia|].
  rewrite sub_from_S.
  destruct (match_here r prev s) as [rest|] eqn:E.
  - destruct (match_here_sound _ _ _ _ E) as (w & -> & HL).
    pose proof (lang_min_len _ _ _ _ HL) as Hw.
    rewrite length_app in Hlen.
    assert (Hn : (List.length (w ++ rest) - List.length rest
                  = List.length w)%nat) by (rewrite length_app; lia).
    cbv zeta. rewrite Hn.
    destruct (List.length w) as [|n] eqn:En; [lia|].
    rewrite <- En, last_before_app.
    apply replaced_match; [destruct w; [simpl in En; lia | discriminate]
                          | exact HL | apply IH; lia].
  - destruct s as [|c t]; [constructor|].
    apply replaced_keep; [exact E | apply IH; simpl in Hlen; lia].
Qed.

Section Uncover.
Variable r : regex.
Variables lb rb : ascii.
Variable mid : list ascii.

(** A word that holds no left bracket and is read off the head of the
    output is the head of the input, kept as it was. *)
Lemma replaced_prefix w :
  forall q t out v',
    replaced r (lb :: mid ++ [rb]) q t out ->
    out = w ++ v' -> ~ In lb w ->
    exists v, t = w ++ v /\
              replaced r (lb :: mid ++ [rb]) (last_of q w) v v'.
Proof.
  induction w as [|a w2 IH]; intros q t out v' H Hout Hlb.
  - simpl in Hout. subst out. exists t. auto.
  - destruct H as [prev | prev c t0 out0 Hnone H0 | prev w0 rest out0 _ _ _].
    + discriminate.
    + simpl in Hout. injection Hout as -> Hout.
      destruct (IH (Some a) t0 out0 v' H0 Hout) as (v & -> & Hv).
      { intros Hin. apply Hlb. now right. }
      exists v. auto.
    + simpl in Hout. injection Hout as <- _. elim Hlb. now left.
Qed.

(** A word clear of the replacement text lies behind it. *)
Lemma clear_of_behind out u' w v' :
  (lb :: mid ++ [rb]) ++ out = u' ++ w ++ v' ->
  clear_of lb rb mid w ->
  exists u1', u' = (lb :: mid ++ [rb]) ++ u1' /\ out = u1' ++ w ++ v'.
Proof.
  intros Heq (Hlb & Hrb & c & Hc & Hforeign).
  apply app_eq_app in Heq as [l [[Hrepl Hw] | [Hu Hout]]].
  - symmetry in Hw.
    apply app_eq_app in Hw as [l2 [[Hl Hv] | [Hw2 Hout]]].
    + (* the word ends inside the replacement text *)
      elim Hforeign. rewrite Hrepl, Hl.
      apply in_or_app. right. apply in_or_app. now left.
    + destruct l as [|a l].
      * exists []. rewrite app_nil_r in Hrepl. simpl in Hw2.
        subst w. rewrite app_nil_r. split; [now rewrite Hrepl|].
        now rewrite Hout.
      * (* the word covers the right bracket *)
        elim Hrb. rewrite Hw2. apply in_or_app. left.
        assert (Hlast : last_of None (u' ++ a :: l) = Some rb).
        { rewrite <- Hrepl.
          change (lb :: mid ++ [rb]) with ((lb :: mid) ++ [rb]).
          apply last_of_snoc. }
        rewrite last_of_app in Hlast.
        clear - Hlast. revert a Hlast. generalize (last_of None u').
        induction l as [|b l IH]; intros o a H; simpl in H.
        -- injection H as ->. now left.
        -- right. apply (IH (Some a) b). exact H.
  - exists l. split; [exact Hu | exact Hout].
Qed.

(** Where a word of the output that is clear of the replacement text
    comes from: the same word of the input, at a place where no match
    of [r] starts, followed by what the scan makes of the rest, and
    preceded by the same character or by a match of [r]. *)
Lemma replaced_occurrence :
  forall prev s out,
    replaced r (lb :: mid ++ [rb]) prev s out ->
    forall u' w v',
      out = u' ++ w ++ v' -> clear_of lb rb mid w ->
      exists u v,
        s = u ++ w ++ v /\
        match_here r (last_of prev u) (w ++ v) = None /\
        replaced r (lb :: mid ++ [rb]) (last_of prev (u ++ w)) v v' /\
        ((u' = [] /\ u = []) \/
         (u' <> [] /\ u <> [] /\ last_of None u' = last_of None u) \/
         (exists u0 m, u = u0 ++ m /\ m <> [] /\
                       lang r (last_of prev u0) m (w ++ v))).
Proof.
  induction 1 as [prev | prev c t out Hnone H IH
                  | prev w0 rest out Hw0 HL0 H IH];
    intros u' w v' Hout Hclear.
  - exfalso. destruct Hclear as (_ & _ & c & Hc & _).
    destruct u'; [destruct w|]; try discriminate. destruct Hc.
  - destruct u' as [|a u1'].
    + destruct w as [|a w2].
      { exfalso. destruct Hclear as (_ & _ & c0 & Hc & _). destruct Hc. }
      simpl in Hout. injection Hout as <- Hout.
      destruct (replaced_prefix w2 (Some c) t out v' H Hout) as (v & -> & Hv).
      { destruct Hclear as (Hlb & _). intros Hin. apply Hlb. now right. }
      exists [], v. repeat split; auto.
    + simpl in Hout. injection Hout as <- Hout.
      destruct (IH u1' w v' Hout Hclear) as (u1 & v & -> & Hk & Hv & Hleft).
      exists (c :: u1), v. split; [reflexivity|].
      split; [exact Hk|]. split; [exact Hv|].
      destruct Hleft as [[-> ->] | [(Hu1' & Hu1 & Hlast) | (u0 & m & -> & Hm & HL)]].
      * right. left. repeat split; discriminate || reflexivity.
      * right. left. split; [discriminate|]. split; [discriminate|].
        simpl. rewrite (last_of_nonempty (Some c) None u1' Hu1').
        rewrite (last_of_nonempty (Some c) None u1 Hu1). exact Hlast.
      * right. right. exists (c :: u0), m. auto.
  - destruct (clear_of_behind out u' w v' Hout Hclear) as (u1' & -> & Hout').
    destruct (IH u1' w v' Hout' Hclear) as (u1 & v & -> & Hk & Hv & Hleft).
    exists (w0 ++ u1), v.
    split; [now rewrite <- app_assoc|].
    split; [now rewrite last_of_app|].
    split; [now rewrite <- app_assoc, last_of_app|].
    destruct Hleft as [[-> ->] | [(Hu1' & Hu1 & Hlast) | (u0 & m & -> & Hm & HL)]].
    + right. right. exists [], w0. rewrite app_nil_r. auto.
    + right. left.
      split; [discriminate|].
      split; [destruct w0; [congruence | discriminate]|].
      rewrite !last_of_app.
      rewrite (last_of_nonempty _ None u1' Hu1').
      rewrite (last_of_nonempty _ None u1 Hu1). exact Hlast.
    + right. right. exists (w0 ++ u0), m.
      split; [now rewrite app_assoc|]. split; [exact Hm|].
      now rewrite last_of_app.
Qed.

End Uncover.

(** The e-mail pattern is its core between two word boundaries. *)
Lemma email_lang p w rest :
  lang email_addresses p w rest <->
  at_boundary p (w ++ rest) = true /\ email_core w /\
  at_boundary (last_of p w) rest = true.
Proof.
  unfold email_addresses, chr. cbn [lang]. split.
  - intros (w1 & w2 & -> & (-> & Hb1) & w3 & w4 & -> & (Hl3 & Hf3)
            & w5 & w6 & -> & (c5 & -> & Hc5)
            & w7 & w8 & -> & (Hl7 & Hf7)
            & w9 & w10 & -> & (c9 & -> & Hc9)
            & w11 & w12 & -> & (Hl11 & Hf11) & -> & Hb2).
    apply in_cset_one in Hc5, Hc9. subst c5 c9.
    rewrite app_nil_r in *. cbn [app] in *.
    split; [exact Hb1|]. split.
    + exists w3, w7, w11. repeat split; try assumption.
      * intros ->. simpl in Hl3. lia.
      * intros ->. simpl in Hl7. lia.
    + cbn [last_of] in Hb2.
      repeat (rewrite last_of_app; cbn [last_of]). exact Hb2.
  - intros (Hb1 & (l & d & t & -> & Hl & Hfl & Hd & Hfd & Ht & Hft) & Hb2).
    exists [], (l ++ "@"%char :: d ++ "."%char :: t).
    split; [reflexivity|]. split; [split; [reflexivity | exact Hb1]|].
    exists l, ("@"%char :: d ++ "."%char :: t).
    split; [reflexivity|].
    split; [split; [destruct l; [congruence | simpl; lia] | exact Hfl]|].
    exists ["@"%char], (d ++ "."%char :: t).
    split; [reflexivity|].
    split; [exists "@"%char; split; reflexivity|].
    exists d, ("."%char :: t).
    split; [reflexivity|].
    split; [split; [destruct d; [congruence | simpl; lia] | exact Hfd]|].
    exists ["."%char], t.
    split; [reflexivity|].
    split; [exists "."%char; split; reflexivity|].
    exists t, []. split; [now rewrite app_nil_r|].
    split; [split; assumption|]. split; [reflexivity|].
    cbn [last_of].
    repeat (rewrite last_of_app in Hb2; cbn [last_of] in Hb2). exact Hb2.
Qed.

Lemma word_after_app (w v : list ascii) :
  w <> [] -> word_after (w ++ v) = word_after w.
Proof. destruct w; [congruence | reflexivity]. Qed.

Lemma cset_not_in cs a (l : list ascii) :
  in_cset cs a = false ->
  Forall (fun c => in_cset cs c = true) l -> ~ In a l.
Proof.
  intros Ha Hl Hin. rewrite Forall_forall in Hl.
  specialize (Hl a Hin). congruence.
Qed.

Lemma email_core_nonempty w : email_core w -> w <> [].
Proof.
  intros (l & d & t & -> & Hl & _). destruct l; [congruence | discriminate].
Qed.

(** An e-mail match holds no bracket, and an at sign. *)
Lemma email_core_clear mid w :
  ~ In "@"%char ("["%char :: mid ++ ["]"%char]) ->
  email_core w -> clear_of "[" "]" mid w.
Proof.
  intros Hat (l & d & t & -> & _ & Hfl & _ & Hfd & _ & Hft).
  assert (Hno : forall b, b = "["%char \/ b = "]"%char ->
            ~ In b (l ++ "@"%char :: d ++ "."%char :: t)).
  { intros b Hb Hin.
    apply in_app_or in Hin as [Hin|[Hin|Hin]].
    - revert Hin. apply (cset_not_in email_local); [|exact Hfl].
      destruct Hb as [-> | ->]; reflexivity.
    - destruct Hb as [-> | ->]; discriminate.
    - apply in_app_or in Hin as [Hin|[Hin|Hin]].
      + revert Hin. apply (cset_not_in email_domain); [|exact Hfd].
        destruct Hb as [-> | ->]; reflexivity.
      + destruct Hb as [-> | ->]; discriminate.
      + revert Hin. apply (cset_not_in email_tld); [|exact Hft].
        destruct Hb as [-> | ->]; reflexivity. }
  split; [apply Hno; now left|]. split; [apply Hno; now right|].
  exists "@"%char. split; [|exact Hat].
  apply in_or_app. right. now left.
Qed.

(** What a run of letters and digits, or the word "spotify", adds to
    an e-mail core is still an e-mail core. *)
Lemma alnum_local c : in_cset alnum c = true -> in_cset email_local c = true.
Proof.
  destruct c as [[] [] [] [] [] [] [] []]; vm_compute; congruence.
Qed.

Lemma alnum_word c : in_cset alnum c = true -> is_word c = true.
Proof.
  destruct c as [[] [] [] [] [] [] [] []]; vm_compute; congruence.
Qed.

Lemma email_core_left a w :
  Forall (fun c => in_cset alnum c = true) a ->
  email_core w -> email_core (a ++ w).
Proof.
  intros Ha (l & d & t & -> & Hl & Hfl & Hrest).
  exists (a ++ l), d, t. split; [now rewrite <- app_assoc|].
  split; [destruct a; [exact Hl | discriminate]|].
  split; [|exact Hrest].
  apply Forall_app. split; [|exact Hfl].
  eapply Forall_impl; [|exact Ha]. apply alnum_local.
Qed.

Lemma email_core_right w :
  email_core w -> email_core (w ++ list_ascii_of_string "spotify").
Proof.
  intros (l & d & t & -> & Hl & Hfl & Hd & Hfd & Ht & Hft).
  exists l, d, (t ++ list_ascii_of_string "spotify").
  split.
  { rewrite <- app_assoc. cbn [app]. now rewrite <- app_assoc. }
  repeat split; try assumption.
  - rewrite length_app. lia.
  - apply Forall_app. split; [exact Hft|].
    repeat constructor.
Qed.

(** What the scan makes of the text after a word decides the boundary
    at its end, for a pattern that begins with [\b]. *)
Lemma boundary_after r repl q v v' :
  starts_bnd r = true ->
  replaced r repl q v v' ->
  at_boundary q v' = true -> at_boundary q v = true.
Proof.
  intros Hs H Hb.
  inversion H as [prev | prev c t out Hnone H0 | prev m rest out Hm HL H0];
    subst; try exact Hb.
  now apply (lang_starts_bnd r Hs).
Qed.

(** A match of the e-mail pattern in what a substitution returns was
    one before, at a place where the scan found no match, when the
    pattern substituted begins and ends with [\b]. *)
Lemma uncovered_by_bounded r mid s out u' w v' :
  starts_bnd r = true -> ends_bnd r = true ->
  ~ In "@"%char ("["%char :: mid ++ ["]"%char]) ->
  replaced r ("["%char :: mid ++ ["]"%char]) None s out ->
  out = u' ++ w ++ v' ->
  lang email_addresses (last_of None u') w v' ->
  exists u v,
    s = u ++ w ++ v /\ lang email_addresses (last_of None u) w v /\
    match_here r (last_of None u) (w ++ v) = None.
Proof.
  intros Hs He Hat H Hout HL.
  apply email_lang in HL as (Hb1 & Hcore & Hb2).
  pose proof (email_core_nonempty w Hcore) as Hw.
  destruct (replaced_occurrence r "[" "]" mid None s out H u' w v' Hout
              (email_core_clear mid w Hat Hcore))
    as (u & v & -> & Hk & Hv & Hleft).
  exists u, v. split; [reflexivity|]. split; [|exact Hk].
  apply email_lang. split; [|split; [exact Hcore|]].
  - unfold at_boundary in *.
    rewrite word_after_app in Hb1 |- * by exact Hw.
    destruct Hleft as [[-> ->] | [(_ & _ & Hlast) | (u0 & m & -> & Hm & HL)]].
    + exact Hb1.
    + now rewrite <- Hlast.
    + pose proof (lang_ends_bnd r He _ _ _ HL) as Hb.
      unfold at_boundary in Hb.
      rewrite word_after_app in Hb by exact Hw.
      now rewrite last_of_app.
  - rewrite last_of_app in Hv.
    apply (boundary_after r _ _ v v' Hs Hv).
    now rewrite (last_of_nonempty _ (last_of None u') w Hw).
Qed.

Lemma lang_lit_chars cs :
  forall p w rest, lang (lit_chars cs) p w rest -> w = cs.
Proof.
  induction cs as [|c r IH]; intros p w rest H; [exact H|].
  destruct r as [|c2 r].
  - simpl in H. destruct H as (c' & -> & Hc).
    apply in_cset_one in Hc. now subst.
  - change (lit_chars (c :: c2 :: r))
      with (Seq (chr c) (lit_chars (c2 :: r))) in H.
    cbn [lang] in H. destruct H as (w1 & w2 & -> & H1 & H2).
    unfold chr in H1. cbn [lang] in H1. destruct H1 as (c' & -> & Hc).
    apply in_cset_one in Hc. subst c'.
    now rewrite (IH _ _ _ H2).
Qed.

(** A Spotify URI is the word "spotify", a colon, and then something
    that ends with a colon and a run of letters and digits. *)
Lemma spotify_shape p m rest :
  lang spotify_uris p m rest ->
  exists k a,
    m = list_ascii_of_string "spotify" ++ ":"%char :: k ++ ":"%char :: a /\
    a <> [] /\ Forall (fun c => in_cset alnum c = true) a.
Proof.
  unfold spotify_uris. intros H.
  change (lang (Seq (lit "spotify:")
                  (Seq (Alt (lit "track") (Alt (lit "album")
                          (Alt (lit "artist")
                             (Alt (lit "playlist") (lit "user")))))
                     (Seq (chr ":") (Many alnum 1)))) p m rest) in H.
  cbn [lang] in H.
  destruct H as (w1 & w2 & -> & H1 & k & w3 & -> & _ & w4 & a & -> & H4
                 & Hlen & Ha).
  apply lang_lit_chars in H1. subst w1.
  unfold chr in H4. cbn [lang] in H4. destruct H4 as (c & -> & Hc).
  apply in_cset_one in Hc. subst c.
  exists k, a. split; [reflexivity|]. split; [|exact Ha].
  intros ->. simpl in Hlen. lia.
Qed.

Lemma is_word_colon : is_word ":" = false.
Proof. reflexivity. Qed.

(** A match of the e-mail pattern in what the substitution of the
    Spotify URIs returns comes from a match before it: the same word,
    possibly with the letters and digits that ended a URI in front of
    it and with the word "spotify" that began one behind it. *)
Lemma uncovered_by_spotify mid s out u' w v' :
  ~ In "@"%char ("["%char :: mid ++ ["]"%char]) ->
  replaced spotify_uris ("["%char :: mid ++ ["]"%char]) None s out ->
  out = u' ++ w ++ v' ->
  lang email_addresses (last_of None u') w v' ->
  exists u2 w2 v2,
    s = u2 ++ w2 ++ v2 /\ lang email_addresses (last_of None u2) w2 v2.
Proof.
  intros Hat H Hout HL.
  apply email_lang in HL as (Hb1 & Hcore & Hb2).
  pose proof (email_core_nonempty w Hcore) as Hw.
  destruct (replaced_occurrence spotify_uris "[" "]" mid None s out H
              u' w v' Hout (email_core_clear mid w Hat Hcore))
    as (u & v & -> & _ & Hv & Hleft).
  (* the end of the word *)
  assert (Hright : exists w1 v1,
            w ++ v = w1 ++ v1 /\ email_core w1 /\
            word_after w1 = word_after w /\
            at_boundary (last_of None w1) v1 = true).
  { rewrite last_of_app in Hv.
    rewrite (last_of_nonempty _ (last_of None u') w Hw) in Hv.
    rewrite (last_of_nonempty _ None w Hw) in Hv, Hb2.
    inversion Hv as [prev | prev c t out0 Hnone H0
                     | prev m rest out0 Hm HLm H0]; subst.
    - exists w, []. auto.
    - exists w, (c :: t). auto.
    - destruct (spotify_shape _ _ _ HLm) as (k & a & -> & _ & _).
      destruct (word_before (last_of None w)) eqn:Hlast.
      + exists (w ++ list_ascii_of_string "spotify"),
               (":"%char :: (k ++ ":"%char :: a) ++ rest).
        split; [repeat (progress (rewrite <- ?app_assoc; cbn [app]));
                reflexivity|].
        split; [now apply email_core_right|].
        split; [now rewrite word_after_app|].
        now rewrite last_of_app.
      + exists w, ((list_ascii_of_string "spotify" ++
                     ":"%char :: k ++ ":"%char :: a) ++ rest).
        split; [reflexivity|]. split; [exact Hcore|].
        split; [reflexivity|].
        unfold at_boundary. now rewrite Hlast. }
  destruct Hright as (w1 & v1 & Heq & Hcore1 & Hhead & Hend).
  pose proof (email_core_nonempty w1 Hcore1) as Hw1.
  rewrite Heq.
  (* the start of the word *)
  assert (Hsame : at_boundary (last_of None u) (w ++ v') = true ->
            exists u2 w2 v2,
              u ++ w1 ++ v1 = u2 ++ w2 ++ v2 /\
              lang email_addresses (last_of None u2) w2 v2).
  { intros Hb. exists u, w1, v1. split; [reflexivity|].
    apply email_lang. split; [|split; [exact Hcore1|]].
    - unfold at_boundary in *.
      rewrite word_after_app in Hb |- * by assumption.
      now rewrite Hhead.
    - now rewrite (last_of_nonempty _ None w1 Hw1). }
  destruct Hleft as [[-> ->] | [(_ & _ & Hlast) | (u0 & m & -> & Hm & HLm)]].
  - now apply Hsame.
  - apply Hsame. now rewrite <- Hlast.
  - destruct (spotify_shape _ _ _ HLm) as (k & a & -> & Ha & Hfa).
    assert (Hla : word_before (last_of None
                    (u0 ++ list_ascii_of_string "spotify" ++
                     ":"%char :: k ++ ":"%char :: a)) = true).
    { rewrite !last_of_app. cbn [last_of]. rewrite last_of_app.
      cbn [last_of]. clear - Ha Hfa.
      generalize (Some ":"%char).
      induction Hfa as [|c a Hc Hfa IH]; intros o; [congruence|].
      destruct a as [|c2 a].
      - simpl. now apply alnum_word.
      - apply (IH ltac:(discriminate) (Some c)). }
    destruct (word_after w) eqn:Hhw.
    + (* the letters and digits that ended the URI go in front *)
      exists (u0 ++ list_ascii_of_string "spotify" ++ ":"%char :: k
              ++ [":"%char]), (a ++ w1), v1.
      split.
      { repeat (progress (rewrite <- ?app_assoc; cbn [app])).
        reflexivity. }
      apply email_lang. split; [|split; [now apply email_core_left|]].
      * rewrite !last_of_app. cbn [last_of]. rewrite last_of_app.
        cbn [last_of]. unfold at_boundary. cbn [word_before].
        rewrite is_word_colon.
        destruct a as [|c a]; [congruence|]. cbn [app word_after].
        apply Forall_inv in Hfa. now rewrite (alnum_word c Hfa).
      * rewrite last_of_app.
        now rewrite (last_of_nonempty _ None w1 Hw1).
    + apply Hsame. unfold at_boundary.
      rewrite word_after_app by exact Hw. now rewrite Hla, Hhw.
Qed.

(** The same, for the texts that [redact_step] handles. *)
Lemma no_match_search r text :
  no_match r None (list_ascii_of_string text) -> search r text = false.
Proof.
  intros H. unfold search, findall. cbv zeta.
  now rewrite (no_match_findall r _ _ None H).
Qed.

Lemma findall_nil_no_match r text :
  findall r text = [] -> no_match r None (list_ascii_of_string text).
Proof.
  unfold findall. cbv zeta. intros H.
  apply map_eq_nil in H.
  apply (findall_no_match r _ _ None (Nat.lt_succ_diag_r _) H).
Qed.

Lemma sub_replaced r repl text :
  (0 < min_len r)%nat ->
  replaced r (list_ascii_of_string repl) None (list_ascii_of_string text)
    (list_ascii_of_string (sub r repl text)).
Proof.
  intros Hmin. unfold sub. cbv zeta.
  rewrite list_ascii_of_string_of_list_ascii.
  apply sub_from_replaced; [exact Hmin | lia].
Qed.

Lemma redact_step_fst acc name r repl :
  fst (Sanitizer.redact_step acc (name, (r, repl)))
  = match findall r (fst acc) with
    | [] => fst acc
    | _ => sub r repl (fst acc)
    end.
Proof.
  destruct acc as [t n]. unfold Sanitizer.redact_step. simpl.
  now destruct (findall r t).
Qed.

(** After the e-mail pass no match of the e-mail pattern is left. *)
Lemma redact_step_email acc name :
  no_match email_addresses None
    (list_ascii_of_string
       (fst (Sanitizer.redact_step acc
               (name, (email_addresses, "[EMAIL]"))))).
Proof.
  rewrite redact_step_fst.
  destruct (findall email_addresses (fst acc)) as [|x l] eqn:E.
  - now apply findall_nil_no_match.
  - intros u' w v' Hout HL.
    destruct (uncovered_by_bounded email_addresses
                (list_ascii_of_string "EMAIL") _ _ u' w v'
                eq_refl eq_refl
                ltac:(simpl; intuition discriminate)
                (sub_replaced email_addresses "[EMAIL]" (fst acc)
                   ltac:(vm_compute; lia))
                Hout HL)
      as (u & v & _ & HL' & Hnone).
    now apply (match_here_complete _ _ _ _ HL').
Qed.

(** A later pass of a pattern between two word boundaries uncovers no
    match of the e-mail pattern. *)
Lemma redact_step_bounded acc name r repl mid :
  starts_bnd r = true -> ends_bnd r = true -> (0 < min_len r)%nat ->
  list_ascii_of_string repl = "["%char :: mid ++ ["]"%char] ->
  ~ In "@"%char ("["%char :: mid ++ ["]"%char]) ->
  no_match email_addresses None (list_ascii_of_string (fst acc)) ->
  no_match email_addresses None
    (list_ascii_of_string (fst (Sanitizer.redact_step acc (name, (r, repl))))).
Proof.
  intros Hs He Hmin Hrepl Hat Hno. rewrite redact_step_fst.
  destruct (findall r (fst acc)) as [|x l]; [exact Hno|].
  intros u' w v' Hout HL.
  pose proof (sub_replaced r repl (fst acc) Hmin) as H.
  rewrite Hrepl in H.
  destruct (uncovered_by_bounded r mid _ _ u' w v' Hs He Hat H Hout HL)
    as (u & v & Heq & HL' & _).
  exact (Hno u w v Heq HL').
Qed.

(** Neither does the pass of the Spotify URIs. *)
Lemma redact_step_spotify acc name :
  no_match email_addresses None (list_ascii_of_string (fst acc)) ->
  no_match email_addresses None
    (list_ascii_of_string
       (fst (Sanitizer.redact_step acc
               (name, (spotify_uris, "[SPOTIFY_URI]"))))).
Proof.
  intros Hno. rewrite redact_step_fst.
  destruct (findall spotify_uris (fst acc)) as [|x l]; [exact Hno|].
  intros u' w v' Hout HL.
  destruct (uncovered_by_spotify (list_ascii_of_string "SPOTIFY_URI")
              _ _ u' w v'
              ltac:(simpl; intuition discriminate)
              (sub_replaced spotify_uris "[SPOTIFY_URI]" (fst acc)
                 ltac:(vm_compute; lia))
              Hout HL)
    as (u2 & w2 & v2 & Heq & HL').
  exact (Hno u2 w2 v2 Heq HL').
Qed.

Lemma sanitize_string_email_free s :
  search email_addresses (fst (Sanitizer.sanitize_string s Sanitizer.init_stats))
  = false.
Proof.
  assert (E : fst (Sanitizer.sanitize_string s Sanitizer.init_stats)
              = fst (fold_left Sanitizer.redact_step
                       Sanitizer.redaction_patterns (s, 0%nat))).
  { unfold Sanitizer.sanitize_string.
    now destruct (fold_left _ _ _). }
  rewrite E. unfold Sanitizer.redaction_patterns. cbn [fold_left].
  apply no_match_search.
  apply redact_step_spotify.
  apply (redact_step_bounded _ _ _ _ (list_ascii_of_string "CREDIT_CARD"));
    [reflexivity | reflexivity | vm_compute; lia | reflexivity
    | simpl; intuition discriminate |].
  apply (redact_step_bounded _ _ _ _ (list_ascii_of_string "PHONE"));
    [reflexivity | reflexivity | vm_compute; lia | reflexivity
    | simpl; intuition discriminate |].
  apply (redact_step_bounded _ _ _ _ (list_ascii_of_string "MAC_ADDRESS"));
    [reflexivity | reflexivity | vm_compute; lia | reflexivity
    | simpl; intuition discriminate |].
  apply (redact_step_bounded _ _ _ _ (list_ascii_of_string "DEVICE_ID"));
    [reflexivity | reflexivity | vm_compute; lia | reflexivity
    | simpl; intuition discriminate |].
  apply redact_step_email.
Qed.

Lemma sanitized_strings_free ps :
  (forall p s, In p ps ->
     search p (fst (Sanitizer.sanitize_string s Sanitizer.init_stats))
     = false) ->
  forall obj, strings_free ps (sanitized obj) = true.
Proof.
  intros Hps.
  induction obj as [| b | z | f | s | l IH | d IH] using json_ind;
    try reflexivity.
  - rewrite sanitized_str. simpl. apply forallb_forall.
    intros p Hp. now rewrite (Hps p s Hp).
  - rewrite sanitized_list, strings_free_list.
    induction IH as [|x r Hx _ IHr]; simpl; [reflexivity|].
    now rewrite Hx, IHr.
  - rewrite sanitized_dict, strings_free_dict.
    assert (Hacc : forallb (fun kv : string * json =>
                              strings_free ps (snd kv))
                     [] = true) by reflexivity.
    revert Hacc. generalize (@nil (string * json)).
    induction IH as [|[k v] r Hx _ IHr]; simpl; intros acc Hacc;
      [assumption|].
    apply IHr. unfold keep_item. simpl.
    destruct (Sanitizer.should_remove k); [assumption|].
    now apply strings_free_set.
Qed.



(** C10: apart from key removal and redaction the structure is kept.
    The returned document is the same whatever the counters are; a
    list becomes the list of its sanitized elements, in order; null,
    booleans and numbers come back unchanged; and in an object every
    key outside the removal list maps to the sanitization of its value
    while the other keys are absent. *)
Theorem C10_structure_preserved :
  (forall obj st,
     fst (Sanitizer.sanitize_object obj st) = sanitized obj) /\
  (forall l, sanitized (JList l) = JList (map sanitized l)) /\
  sanitized JNull = JNull /\
  (forall b, sanitized (JBool b) = JBool b) /\
  (forall z, sanitized (JInt z) = JInt z) /\
  (forall f, sanitized (JFloat f) = JFloat f) /\
  (forall d,
     NoDup (map fst d) ->
     exists d',
       sanitized (JDict d) = JDict d' /\
       forall k,
         dict_get k d' =
         if Sanitizer.should_remove k then None
         else option_map sanitized (dict_get k d)).
Proof.
  split; [exact sanitize_object_doc|].
  split; [exact sanitized_list|].
  repeat (split; [reflexivity|]).
  intros d Hnd. exists (fold_left keep_item d []).
  split; [apply sanitized_dict|].
  intros k. rewrite (fold_keep_item_get d Hnd). simpl.
  destruct (Sanitizer.should_remove k); [reflexivity|].
  now destruct (dict_get k d).
Qed.

Lemma C10_structure_preserved_witness :
  NoDup (map fst mixed_object) /\
  exists d',
    sanitized (JDict mixed_object) = JDict d' /\
    forall k,
      dict_get k d' =
      if Sanitizer.should_remove k then None
      else option_map sanitized (dict_get k mixed_object).
Proof.
  assert (Hnd : NoDup (map fst mixed_object)).
  { simpl. repeat constructor; simpl; intuition discriminate. }
  split; [exact Hnd|].
  exact (proj2 (proj2 (proj2 (proj2 (proj2 (proj2
           C10_structure_preserved))))) mixed_object Hnd).
Defined.

(** C3 does not hold of the code: the test after sanitizing a file
    reads the cumulative counter, so the second file, which has no
    redaction of its own, is counted as sanitized too. *)
Theorem C3_files_sanitized_is_cumulative :
  Sanitizer.files_sanitized
    (snd (Sanitizer.sanitize_all_files two_files Sanitizer.init_stats)) = 2%nat
  /\ files_with_redactions two_files = 1%nat
  /\ map (fun f => match f_content f with
                   | Parsed d => redactions_of d
                   | Unreadable => 0%nat
                   end) two_files = [1%nat; 0%nat]
  /\ map (fun f => Sanitizer.should_skip_file (f_path f)) two_files
     = [false; false].
Proof. vm_compute. repeat split. Qed.

(** ** Privacy scanner: the two file lists *)

Lemma analyze_file_lists f res :
  Scanner.safe_files (Scanner.analyze_file f res)
  = Scanner.safe_files res ++ (if is_safe f then [f_path f] else []) /\
  risky_paths (Scanner.analyze_file f res)
  = risky_paths res ++ (if is_risky f then [f_path f] else []) /\
  Scanner.files_analyzed (Scanner.analyze_file f res)
  = (Scanner.files_analyzed res + (if readable f then 1 else 0))%nat.
Proof.
  unfold Scanner.analyze_file, is_risky, is_safe, readable, unreadable,
    risky_paths.
  destruct (f_content f) as [|data]; simpl.
  - rewrite map_app, app_nil_r. simpl. repeat split. lia.
  - destruct (Scanner.file_issues (f_path f) data); simpl.
    + rewrite app_nil_r. repeat split. lia.
    + rewrite map_app, app_nil_r. simpl. repeat split. lia.
Qed.

Lemma analyze_all_lists files :
  forall res,
    Scanner.safe_files (Scanner.analyze_all_files files res)
    = Scanner.safe_files res ++ map f_path (filter is_safe files) /\
    risky_paths (Scanner.analyze_all_files files res)
    = risky_paths res ++ map f_path (filter is_risky files) /\
    Scanner.files_analyzed (Scanner.analyze_all_files files res)
    = (Scanner.files_analyzed res + List.length (filter readable files))%nat.
Proof.
  unfold Scanner.analyze_all_files.
  induction files as [|f rest IH]; simpl; intros res.
  - rewrite !app_nil_r. repeat split. lia.
  - destruct (IH (Scanner.analyze_file f res)) as (Hs & Hr & Hn).
    destruct (analyze_file_lists f res) as (Hs1 & Hr1 & Hn1).
    rewrite Hs, Hr, Hn, Hs1, Hr1, Hn1. repeat split.
    + rewrite <- app_assoc. f_equal. now destruct (is_safe f).
    + rewrite <- app_assoc. f_equal. now destruct (is_risky f).
    + destruct (readable f); simpl; lia.
Qed.

Lemma same_path_same_file files :
  NoDup (map f_path files) ->
  forall f g, In f files -> In g files -> f_path f = f_path g -> f = g.
Proof.
  induction files as [|h rest IH]; simpl; intros Hnd f g Hf Hg Hp;
    [contradiction|].
  inversion Hnd as [|? ? Hnotin Hnd']; subst.
  destruct Hf as [<- | Hf], Hg as [<- | Hg]; auto.
  - exfalso. apply Hnotin. rewrite Hp. now apply in_map.
  - exfalso. apply Hnotin. rewrite <- Hp. now apply in_map.
Qed.

Lemma in_paths_filter (P : file -> bool) files p :
  In p (map f_path (filter P files)) <->
  exists f, In f files /\ P f = true /\ f_path f = p.
Proof.
  rewrite in_map_iff. split.
  - intros (f & Hp & Hin). apply filter_In in Hin as [Hin HP]. eauto.
  - intros (f & Hin & HP & Hp). exists f. split; [assumption|].
    apply filter_In. auto.
Qed.

Lemma filter_partition_length (P : file -> bool) files :
  (List.length (filter P files)
   + List.length (filter (fun f => negb (P f)) files)
   = List.length files)%nat.
Proof.
  induction files as [|f rest IH]; simpl; [reflexivity|].
  destruct (P f); simpl; lia.
Qed.

(** C5, as stated, fails: a file that cannot be read is listed as
    risky although the analysis steps gave no issue for it, and it is
    not counted in [files_analyzed]. *)
Lemma C5_counterexample :
  let res := Scanner.analyze_all_files [broken_file] Scanner.init_results in
  analysis_issues broken_file = [] /\
  In (f_path broken_file) (risky_paths res) /\
  (List.length (Scanner.safe_files res)
   + List.length (Scanner.risky_files res))%nat = 1%nat /\
  Scanner.files_analyzed res = 0%nat.
Proof. simpl. repeat split. now left. Qed.

(** C5 (amended): after a run over files with distinct paths, no path
    is in both lists; a path is in one of them exactly when the file
    was visited; a file is in [risky_files] exactly when the analysis
    produced an issue for it or reading it failed; and the two lists
    together have one entry per visited file, [files_analyzed]
    counting only those that could be read. *)
Theorem C5_safe_and_risky files :
  NoDup (map f_path files) ->
  let res := Scanner.analyze_all_files files Scanner.init_results in
  (forall p, ~ (In p (Scanner.safe_files res) /\ In p (risky_paths res))) /\
  (forall p, In p (map f_path files) <->
             In p (Scanner.safe_files res) \/ In p (risky_paths res)) /\
  (forall f, In f files ->
     (In (f_path f) (risky_paths res) <->
      analysis_issues f <> [] \/ unreadable f = true)) /\
  (List.length (Scanner.safe_files res)
   + List.length (Scanner.risky_files res) = List.length files)%nat /\
  (Scanner.files_analyzed res + List.length (filter unreadable files)
   = List.length files)%nat.
Proof.
  intros Hnd res.
  destruct (analyze_all_lists files Scanner.init_results) as (Hs & Hr & Hn).
  fold res in Hs, Hr, Hn. simpl in Hs, Hr, Hn.
  assert (Hrisky : forall f, is_risky f = true <->
                     analysis_issues f <> [] \/ unreadable f = true).
  { intros f. unfold is_risky, is_safe, analysis_issues, unreadable.
    destruct (f_content f) as [|data]; simpl.
    - split; auto.
    - destruct (Scanner.file_issues (f_path f) data); simpl; split;
        try discriminate; auto.
      + intros [H|H]; [now elim H | discriminate].
      + intros _. left. discriminate. }
  split; [|split; [|split; [|split]]].
  - intros p [H1 H2]. rewrite Hs in H1. rewrite Hr in H2.
    apply in_paths_filter in H1 as (f & Hf & Pf & <-).
    apply in_paths_filter in H2 as (g & Hg & Pg & Hp).
    assert (g = f) as -> by (eapply same_path_same_file; eauto).
    unfold is_risky in Pg. rewrite Pf in Pg. discriminate.
  - intros p. rewrite Hs, Hr. split.
    + intros H. apply in_map_iff in H as (f & <- & Hf).
      destruct (is_safe f) eqn:E.
      * left. apply in_paths_filter. eauto.
      * right. apply in_paths_filter. exists f. unfold is_risky.
        rewrite E. auto.
    + intros [H|H]; apply in_paths_filter in H as (f & Hf & _ & <-);
        now apply in_map.
  - intros f Hf. rewrite Hr. split.
    + intros H. apply in_paths_filter in H as (g & Hg & Pg & Hp).
      assert (g = f) as -> by (eapply same_path_same_file; eauto).
      now apply Hrisky.
    + intros H. apply in_paths_filter. exists f.
      repeat split; auto. now apply Hrisky.
  - rewrite Hs. unfold risky_paths in Hr.
    rewrite <- (length_map fst (Scanner.risky_files res)), Hr.
    rewrite !length_map. apply filter_partition_length.
  - rewrite Hn.
    rewrite <- (filter_partition_length readable files). f_equal.
    unfold readable. f_equal. apply filter_ext. intros f.
    symmetry. apply negb_involutive.
Qed.

Lemma C5_safe_and_risky_witness :
  NoDup (map f_path three_files) /\
  let res := Scanner.analyze_all_files three_files Scanner.init_results in
  (List.length (Scanner.safe_files res)
   + List.length (Scanner.risky_files res) = 3)%nat /\
  (Scanner.files_analyzed res + 1 = 3)%nat.
Proof.
  assert (Hnd : NoDup (map f_path three_files)).
  { simpl. repeat constructor; simpl; intuition discriminate. }
  split; [exact Hnd|].
  destruct (C5_safe_and_risky three_files Hnd) as (_ & _ & _ & H1 & H2).
  split; [exact H1 | exact H2].
Defined.

(** ** Diagnostic reporter: when [analyze_artists] returns *)

Section ArtistAnalysis.
Import Reporter.

Lemma round_half_even_div_le a b :
  (round_half_even_div a b <= a / b + 1)%Z.
Proof.
  unfold round_half_even_div.
  destruct (2 * (a mod b) ?= b)%Z; [destruct (Z.even (a / b))| |]; lia.
Qed.

Lemma tenth_z_lt n : (0 < n)%Z -> (tenth_z n < n)%Z.
Proof.
  intros Hn. unfold tenth_z.
  set (v := (n * 3602879701896397)%Z).
  assert (Hv : (0 < v)%Z) by (unfold v; lia).
  destruct (Z.log2 v + 1 - 53 <=? 0)%Z eqn:E.
  - rewrite Z.shiftr_div_pow2 by lia.
    apply Z.div_lt_upper_bound; [reflexivity|].
    change (2 ^ 55)%Z with 36028797018963968%Z. unfold v. lia.
  - apply Z.leb_gt in E.
    set (s := (Z.log2 v + 1 - 53)%Z) in *.
    rewrite Z.shiftr_div_pow2 by lia.
    assert (Hs : (0 < 2 ^ s)%Z) by (apply Z.pow_pos_nonneg; lia).
    assert (Hle : (2 ^ s <= v)%Z).
    { transitivity (2 ^ Z.log2 v)%Z.
      - apply Z.pow_le_mono_r; unfold s; lia.
      - now apply Z.log2_spec. }
    pose proof (round_half_even_div_le v (2 ^ s)) as Hq.
    pose proof (Z.mul_div_le v (2 ^ s) Hs) as Hd.
    apply Z.div_lt_upper_bound; [reflexivity|].
    change (2 ^ 55)%Z with 36028797018963968%Z.
    assert (round_half_even_div v (2 ^ s) * 2 ^ s <= 2 * v)%Z by nia.
    unfold v in *. lia.
Qed.

Lemma tenth_lt n : (0 < n)%nat -> (tenth n < n)%nat.
Proof.
  intros Hn. unfold tenth.
  pose proof (tenth_z_lt (Z.of_nat n)) as H. lia.
Qed.

Lemma overflow_bound_large : (2 ^ 126 <= overflow_bound)%Z.
Proof. apply Z.leb_le. vm_compute. reflexivity. Qed.

Lemma int_truediv_ok a b :
  (0 < b)%Z -> (Z.abs a < 2 ^ 126 * b)%Z ->
  exists q, int_truediv a b = Ok q.
Proof.
  intros Hb Ha. unfold int_truediv.
  destruct b as [|pb|pb]; try lia.
  assert (E : (overflow_bound * Z.abs (Z.pos pb) <=? Z.abs a)%Z = false).
  { apply Z.leb_gt. pose proof overflow_bound_large.
    change (Z.abs (Z.pos pb)) with (Z.pos pb). nia. }
  rewrite E. destruct (Z.abs a); simpl; eauto.
Qed.

Lemma map_result_ok {A B} (f : A -> result B) l :
  Forall (fun x => exists y, f x = Ok y) l ->
  exists ys, map_result f l = Ok ys.
Proof.
  induction 1 as [|x r [y Hy] _ [ys IH]]; simpl; [eauto|].
  rewrite Hy. simpl. rewrite IH. simpl. eauto.
Qed.

Lemma int_valued_mono B B' d :
  (B <= B')%Z -> int_valued B d -> int_valued B' d.
Proof.
  intros HB. apply Forall_impl. intros kv (a & Ha & Hle).
  exists a. split; [assumption | lia].
Qed.

Lemma dd_get_int B k d :
  (0 <= B)%Z -> int_valued B d ->
  exists a, dd_get k d = PInt a /\ (Z.abs a <= B)%Z.
Proof.
  intros HB Hd. unfold dd_get.
  induction Hd as [|[k' v] r (a & Ha & Hle) _ IH]; simpl.
  - exists 0%Z. split; [reflexivity | lia].
  - destruct (key_eq k k'); [|exact IH]. simpl in Ha. eauto.
Qed.

Lemma dd_put_int B k a d :
  (Z.abs a <= B)%Z -> int_valued B d -> int_valued B (dd_put k (PInt a) d).
Proof.
  intros Ha Hd.
  induction Hd as [|[k' v] r Hkv Hr IH]; simpl.
  - constructor; [|constructor]. simpl. eauto.
  - destruct (key_eq k k').
    + constructor; [simpl; eauto | exact Hr].
    + constructor; assumption.
Qed.

Lemma dd_add_int B C k z d :
  hashable k = true -> (0 <= B)%Z -> (Z.abs z <= C)%Z -> int_valued B d ->
  exists d', dd_add k (PInt z) d = Ok d' /\ int_valued (B + C) d'.
Proof.
  intros Hk HB Hz Hd. unfold dd_add. rewrite Hk.
  destruct (dd_get_int B k d HB Hd) as (a & -> & Ha). simpl.
  eexists. split; [reflexivity|].
  apply dd_put_int; [lia|].
  apply (int_valued_mono B); [lia | assumption].
Qed.

Lemma count_entry_plain B entry streams time :
  plain_entry entry = true -> (0 <= B)%Z ->
  int_valued B streams -> int_valued B time ->
  exists streams' time',
    count_entry entry (streams, time) = Ok (streams', time') /\
    int_valued (B + 2 ^ 63) streams' /\ int_valued (B + 2 ^ 63) time'.
Proof.
  intros Hp HB Hs Ht. unfold plain_entry in Hp.
  destruct entry as [| | | | | |e]; try discriminate.
  apply andb_true_iff in Hp as [Ha Hm].
  assert (Hmono : forall d, int_valued B d -> int_valued (B + 2 ^ 63) d).
  { intros d. apply int_valued_mono. lia. }
  unfold count_entry. simpl.
  destruct (dict_get "artistName" e) as [[| | | |s| |]|]; try discriminate;
    simpl; [|exists streams, time; auto].
  destruct (negb (String.eqb s "")); [|exists streams, time; auto].
  destruct (dd_add_int B (2 ^ 63) (JStr s) 1 streams eq_refl HB) as
    (streams' & -> & Hs'); [lia | assumption |]. simpl.
  assert (Hz : exists z,
             to_num (match dict_get "msPlayed" e with
                     | Some v => v | None => JInt 0 end) = Ok (PInt z)
             /\ (Z.abs z <= 2 ^ 63)%Z).
  { destruct (dict_get "msPlayed" e) as [[| |z| | | |]|]; try discriminate.
    - exists z. split; [reflexivity|]. apply Z.ltb_lt in Hm. lia.
    - exists 0%Z. split; [reflexivity | lia]. }
  destruct Hz as (z & -> & Hz). simpl.
  destruct (dd_add_int B (2 ^ 63) (JStr s) z time eq_refl HB Hz Ht) as
    (time' & -> & Ht'). simpl.
  exists streams', time'. auto.
Qed.

Lemma count_entries_plain entries :
  forallb plain_entry entries = true ->
  forall B streams time,
    (0 <= B)%Z -> int_valued B streams -> int_valued B time ->
    exists streams' time',
      count_entries entries (streams, time) = Ok (streams', time') /\
      int_valued (B + Z.of_nat (List.length entries) * 2 ^ 63) time'.
Proof.
  induction entries as [|entry rest IH]; intros Hp B streams time HB Hs Ht.
  - exists streams, time. split; [reflexivity|].
    simpl. now rewrite Z.add_0_r.
  - simpl in Hp. apply andb_true_iff in Hp as [He Hr].
    destruct (count_entry_plain B entry streams time He HB Hs Ht)
      as (s1 & t1 & E1 & Hs1 & Ht1).
    destruct (IH Hr (B + 2 ^ 63)%Z s1 t1) as (s2 & t2 & E2 & Ht2);
      try assumption; [lia|].
    exists s2, t2. split.
    + cbn [count_entries]. rewrite E1. exact E2.
    + eapply int_valued_mono; [|exact Ht2].
      cbn [List.length]. lia.
Qed.

Lemma insert_desc_in x l y : In y (insert_desc x l) -> y = x \/ In y l.
Proof.
  induction l as [|z r IH]; simpl.
  - intros [<-|[]]. now left.
  - destruct (num_gt (snd z) (snd x)); simpl.
    + intros [<-|H]; [right; now left|].
      destruct (IH H); auto.
    + intros [<-|H]; auto.
Qed.

Lemma sorted_desc_in l y : In y (sorted_desc l) -> In y l.
Proof.
  induction l as [|x r IH]; simpl; [auto|].
  intros H. apply insert_desc_in in H as [->|H]; auto.
Qed.

Lemma insert_desc_length x l :
  List.length (insert_desc x l) = S (List.length l).
Proof.
  induction l as [|z r IH]; simpl; [reflexivity|].
  destruct (num_gt (snd z) (snd x)); simpl; now rewrite ?IH.
Qed.

Lemma sorted_desc_length l : List.length (sorted_desc l) = List.length l.
Proof.
  induction l as [|x r IH]; simpl; [reflexivity|].
  now rewrite insert_desc_length, IH.
Qed.

Lemma firstn_in {A} n (l : list A) x : In x (firstn n l) -> In x l.
Proof.
  revert l. induction n as [|n IH]; intros [|y r]; simpl; try tauto.
  intros [->|H]; auto.
Qed.

Lemma top_10_percent_ok streams :
  exists n, top_10_percent streams = Ok n /\ (n <= List.length streams)%nat.
Proof.
  unfold top_10_percent. destruct streams as [|kv r]; [exists 0%nat; auto|].
  set (d := kv :: r).
  destruct (nth_error (map snd (sorted_desc d)) (tenth (List.length d)))
    as [threshold|] eqn:E.
  - eexists. split; [reflexivity|].
    rewrite <- (length_map snd d). apply filter_length_le.
  - exfalso. apply nth_error_None in E.
    rewrite length_map, sorted_desc_length in E.
    assert (0 < List.length d)%nat by (unfold d; simpl; lia).
    pose proof (tenth_lt (List.length d)). lia.
Qed.

Lemma time_hours_ok B v :
  (B <= 2 ^ 126)%Z ->
  (exists a, v = PInt a /\ (Z.abs a <= B)%Z) ->
  exists h, time_hours v = Ok h.
Proof.
  intros HB (a & -> & Ha). unfold time_hours.
  destruct (int_truediv_ok a 3600000) as [q ->]; [lia | lia |].
  simpl. eauto.
Qed.

(** [analyze_artists] returns on every plain export. *)
Lemma analyze_artists_ok merged_data :
  plain_export merged_data = true ->
  exists r, analyze_artists merged_data = Ok r.
Proof.
  unfold plain_export, analyze_artists.
  destruct merged_data as [| | | | | |md]; try discriminate.
  cbn [py_get bind].
  destruct (dict_get "streaming_history" md) as [v|];
    [|cbn [truthy negb]; eauto].
  intros Hp.
  destruct (truthy v) eqn:Hv; cbn [negb]; [|eauto].
  destruct v as [| | | | |l|];
    try (exfalso; revert Hp; simpl in Hv |- *; rewrite ?Hv; discriminate).
  apply andb_true_iff in Hp as [Hall Hlen]. apply Z.ltb_lt in Hlen.
  cbn [iterate bind].
  destruct (count_entries_plain l Hall 0 [] []) as (streams & time & E & Ht);
    try (constructor || lia).
  unfold ddict in *. rewrite E.
  rewrite Z.add_0_l in Ht. cbn [bind].
  assert (HB : (Z.of_nat (List.length l) * 2 ^ 63 <= 2 ^ 126)%Z).
  { change (2 ^ 126)%Z with (2 ^ 63 * 2 ^ 63)%Z. nia. }
  destruct (top_10_percent_ok streams) as (n & -> & Hn). cbn [bind].
  destruct (map_result_ok
              (fun kv => h <- time_hours (dd_get (fst kv) time) ;;
                         Ok (mkRow (fst kv) (snd kv) h))
              (firstn 20 (sorted_desc streams))) as [rows1 ->].
  { apply Forall_forall. intros kv _.
    destruct (time_hours_ok _ (dd_get (fst kv) time) HB) as [h ->].
    - apply dd_get_int; [lia | assumption].
    - cbn [bind]. eauto. }
  cbn [bind].
  destruct (map_result_ok
              (fun kv => h <- time_hours (snd kv) ;;
                         Ok (mkRow (fst kv) (dd_get (fst kv) streams) h))
              (firstn 20 (sorted_desc time))) as [rows2 ->].
  { apply Forall_forall. intros kv Hin.
    apply firstn_in, sorted_desc_in in Hin.
    unfold int_valued in Ht. rewrite Forall_forall in Ht.
    destruct (time_hours_ok _ (snd kv) HB (Ht kv Hin)) as [h ->].
    cbn [bind]. eauto. }
  cbn [bind].
  destruct (0 <? List.length streams)%nat eqn:Hpos; [|cbn [bind]; eauto].
  apply Nat.ltb_lt in Hpos.
  destruct (int_truediv_ok (Z.of_nat n) (Z.of_nat (List.length streams)))
    as [q ->]; [lia | | cbn [bind]; eauto].
  assert (1 <= 2 ^ 126)%Z by (apply Z.leb_le; reflexivity).
  rewrite Z.abs_eq by lia. nia.
Qed.

End ArtistAnalysis.

(** ** Reporter: the records the artist analysis accepts *)

Section ArtistTypes.
Import Reporter.

Lemma num_valued_mono B B' d :
  (B <= B')%Z -> num_valued B d -> num_valued B' d.
Proof.
  intros HB. apply Forall_impl. intros [k [a|f]]; simpl; [lia | trivial].
Qed.

Lemma dd_get_num B k d :
  (0 <= B)%Z -> num_valued B d ->
  match dd_get k d with PInt a => (Z.abs a <= B)%Z | PFloat _ => True end.
Proof.
  intros HB Hd. unfold dd_get.
  induction Hd as [|[k' v] r Hv _ IH]; simpl; [lia|].
  destruct (key_eq k k'); [exact Hv | exact IH].
Qed.

Lemma dd_put_num B k v d :
  match v with PInt a => (Z.abs a <= B)%Z | PFloat _ => True end ->
  num_valued B d -> num_valued B (dd_put k v d).
Proof.
  intros Hv Hd.
  induction Hd as [|[k' v'] r Hkv Hr IH]; simpl.
  - constructor; [exact Hv | constructor].
  - destruct (key_eq k k'); constructor; assumption.
Qed.

Lemma float_of_int_ok z :
  (Z.abs z < overflow_bound)%Z -> exists f, float_of_int z = Ok f.
Proof.
  intros Hz. unfold float_of_int.
  assert (E : (overflow_bound <=? Z.abs z)%Z = false)
    by (apply Z.leb_gt; exact Hz).
  rewrite E. eauto.
Qed.

Lemma overflow_bound_pos : (1 < overflow_bound)%Z.
Proof. apply Z.ltb_lt. vm_compute. reflexivity. Qed.

Lemma dd_add_num B C k delta d :
  hashable k = true -> (0 <= B)%Z -> (0 <= C)%Z ->
  (B + C < overflow_bound)%Z ->
  match delta with PInt z => (Z.abs z <= C)%Z | PFloat _ => True end ->
  num_valued B d ->
  exists d', dd_add k delta d = Ok d' /\ num_valued (B + C) d'.
Proof.
  intros Hk HB HC Hsum Hdelta Hd. unfold dd_add. rewrite Hk.
  pose proof (dd_get_num B k d HB Hd) as Hget.
  assert (Hd' : num_valued (B + C) d)
    by (apply (num_valued_mono B); [lia | assumption]).
  destruct (dd_get k d) as [a|f], delta as [z|g]; cbn [num_add].
  - cbn [bind]. eexists. split; [reflexivity|].
    apply dd_put_num; [lia | assumption].
  - destruct (float_of_int_ok a) as [fa ->]; [lia|]. cbn [bind].
    eexists. split; [reflexivity|]. now apply dd_put_num.
  - destruct (float_of_int_ok z) as [fz ->]; [lia|]. cbn [bind].
    eexists. split; [reflexivity|]. now apply dd_put_num.
  - cbn [bind]. eexists. split; [reflexivity|]. now apply dd_put_num.
Qed.

(** Counting one more stream never raises. *)
Lemma dd_add_one k d :
  hashable k = true -> exists d', dd_add k (PInt 1) d = Ok d'.
Proof.
  intros Hk. unfold dd_add. rewrite Hk.
  destruct (dd_get k d) as [a|f]; cbn [num_add].
  - cbn [bind]. eauto.
  - destruct (float_of_int_ok 1) as [f1 ->];
      [apply overflow_bound_pos | cbn [bind]; eauto].
Qed.

Lemma tally_key_hashable a : tally_key a = true -> hashable a = true.
Proof. destruct a as [| | |[]| | |]; simpl; congruence. Qed.

Lemma tally_weight_nonneg entry : (0 <= tally_weight entry)%Z.
Proof.
  unfold tally_weight. destruct entry as [| | | | | |e]; try lia.
  destruct (truthy _); [|lia].
  destruct (field_or _ _ _) as [|[]|z| | | |]; lia.
Qed.

Lemma total_weight_nonneg entries : (0 <= total_weight entries)%Z.
Proof.
  induction entries as [|entry rest IH]; simpl; [lia|].
  pose proof (tally_weight_nonneg entry). lia.
Qed.

Lemma count_entry_typed B entry streams time :
  typed_entry entry = true -> (0 <= B)%Z ->
  (B + tally_weight entry < overflow_bound)%Z ->
  num_valued B time ->
  exists streams' time',
    count_entry entry (streams, time) = Ok (streams', time') /\
    num_valued (B + tally_weight entry) time'.
Proof.
  intros Hp HB HB' Ht. unfold typed_entry in Hp.
  unfold tally_weight in HB' |- *.
  destruct entry as [| | | | | |e]; try discriminate.
  cbv zeta in Hp. cbn [field_or] in Hp, HB' |- *.
  unfold count_entry. cbn [py_get bind].
  set (artist := match dict_get "artistName" e with
                 | Some v => v | None => JStr "" end) in *.
  destruct (truthy artist) eqn:Hart.
  2:{ exists streams, time. split; [reflexivity|]. now rewrite Z.add_0_r. }
  cbn [negb orb] in Hp. apply andb_true_iff in Hp as [Hkey Hms].
  apply tally_key_hashable in Hkey.
  destruct (dd_add_one artist streams Hkey) as [streams' ->]. cbn [bind].
  set (ms := match dict_get "msPlayed" e with
             | Some v => v | None => JInt 0 end) in *.
  assert (Hdelta : exists delta,
            to_num ms = Ok delta /\
            match delta with
            | PInt z =>
                (Z.abs z <= match ms with
                            | JInt z => Z.abs z
                            | JBool true => 1
                            | _ => 0
                            end)%Z
            | PFloat _ => True
            end).
  { destruct ms as [|b|z|f| | |]; try discriminate.
    - exists (PInt (if b then 1 else 0)). split; [reflexivity|].
      destruct b; simpl; lia.
    - exists (PInt z). split; [reflexivity | lia].
    - exists (PFloat f). split; [reflexivity | exact I]. }
  destruct Hdelta as (delta & -> & Hdelta). cbn [bind].
  assert (Hw : (0 <= match ms with
                     | JInt z => Z.abs z
                     | JBool true => 1
                     | _ => 0
                     end)%Z)
    by (destruct ms as [|[]|z| | | |]; lia).
  destruct (dd_add_num B _ artist delta time Hkey HB Hw HB' Hdelta Ht)
    as (time' & -> & Ht').
  cbn [bind]. exists streams', time'. auto.
Qed.

Lemma count_entries_typed entries :
  forallb typed_entry entries = true ->
  forall B streams time,
    (0 <= B)%Z -> (B + total_weight entries < overflow_bound)%Z ->
    num_valued B time ->
    exists streams' time',
      count_entries entries (streams, time) = Ok (streams', time') /\
      num_valued (B + total_weight entries) time'.
Proof.
  induction entries as [|entry rest IH];
    intros Hp B streams time HB HB' Ht.
  - exists streams, time. split; [reflexivity|].
    simpl. now rewrite Z.add_0_r.
  - simpl in Hp. apply andb_true_iff in Hp as [He Hr].
    cbn [total_weight fold_right] in HB' |- *.
    fold (total_weight rest) in HB' |- *.
    pose proof (tally_weight_nonneg entry) as Hw.
    pose proof (total_weight_nonneg rest) as Hws.
    destruct (count_entry_typed B entry streams time He HB)
      as (s1 & t1 & E1 & Ht1); try assumption; [lia|].
    destruct (IH Hr (B + tally_weight entry)%Z s1 t1) as (s2 & t2 & E2 & Ht2);
      try assumption; [lia | lia |].
    exists s2, t2. split.
    + cbn [count_entries]. rewrite E1. cbn [bind]. exact E2.
    + now rewrite Z.add_assoc.
Qed.

Lemma int_truediv_below a b :
  (0 < b)%Z -> (Z.abs a < overflow_bound * b)%Z ->
  exists q, int_truediv a b = Ok q.
Proof.
  intros Hb Ha. unfold int_truediv.
  destruct b as [|pb|pb]; try lia.
  assert (E : (overflow_bound * Z.abs (Z.pos pb) <=? Z.abs a)%Z = false).
  { apply Z.leb_gt. change (Z.abs (Z.pos pb)) with (Z.pos pb). exact Ha. }
  rewrite E. destruct (Z.abs a); simpl; eauto.
Qed.

Lemma time_hours_num v :
  match v with
  | PInt a => (Z.abs a < overflow_bound)%Z
  | PFloat _ => True
  end ->
  exists h, time_hours v = Ok h.
Proof.
  destruct v as [a|f]; intros H; unfold time_hours; [|eauto].
  destruct (int_truediv_below a 3600000) as [q ->]; [lia | |].
  - pose proof overflow_bound_pos. nia.
  - cbn [bind]. eauto.
Qed.

(** [analyze_artists] returns on every typed export. *)
Lemma analyze_artists_typed_ok merged_data :
  typed_export merged_data = true ->
  exists r, analyze_artists merged_data = Ok r.
Proof.
  unfold typed_export, analyze_artists.
  destruct merged_data as [| | | | | |md]; try discriminate.
  cbn [py_get bind].
  destruct (dict_get "streaming_history" md) as [v|];
    [|cbn [truthy negb]; eauto].
  intros Hp.
  destruct (truthy v) eqn:Hv; cbn [negb]; [|eauto].
  destruct v as [| | | | |l|];
    try (exfalso; revert Hp; simpl in Hv |- *; rewrite ?Hv; discriminate).
  apply andb_true_iff in Hp as [Hall Hsum]. apply Z.ltb_lt in Hsum.
  cbn [iterate bind].
  pose proof (total_weight_nonneg l) as Hpos0.
  destruct (count_entries_typed l Hall 0 [] []) as (streams & time & E & Ht);
    try (constructor || lia).
  unfold ddict in *. rewrite E.
  rewrite Z.add_0_l in Ht. cbn [bind].
  assert (Hnum : forall v,
            match v with
            | PInt a => (Z.abs a <= total_weight l)%Z
            | PFloat _ => True
            end ->
            exists h, time_hours v = Ok h).
  { intros v Hv'. apply time_hours_num. destruct v; [lia | exact I]. }
  destruct (top_10_percent_ok streams) as (n & -> & Hn). cbn [bind].
  destruct (map_result_ok
              (fun kv => h <- time_hours (dd_get (fst kv) time) ;;
                         Ok (mkRow (fst kv) (snd kv) h))
              (firstn 20 (sorted_desc streams))) as [rows1 ->].
  { apply Forall_forall. intros kv _.
    destruct (Hnum (dd_get (fst kv) time)) as [h ->].
    - now apply dd_get_num.
    - cbn [bind]. eauto. }
  cbn [bind].
  destruct (map_result_ok
              (fun kv => h <- time_hours (snd kv) ;;
                         Ok (mkRow (fst kv) (dd_get (fst kv) streams) h))
              (firstn 20 (sorted_desc time))) as [rows2 ->].
  { apply Forall_forall. intros kv Hin.
    apply firstn_in, sorted_desc_in in Hin.
    unfold num_valued in Ht. rewrite Forall_forall in Ht.
    destruct (Hnum (snd kv) (Ht kv Hin)) as [h ->].
    cbn [bind]. eauto. }
  cbn [bind].
  destruct (0 <? List.length streams)%nat eqn:Hpos; [|cbn [bind]; eauto].
  apply Nat.ltb_lt in Hpos.
  destruct (int_truediv_ok (Z.of_nat n) (Z.of_nat (List.length streams)))
    as [q ->]; [lia | | cbn [bind]; eauto].
  assert (1 <= 2 ^ 126)%Z by (apply Z.leb_le; reflexivity).
  rewrite Z.abs_eq by lia. nia.
Qed.

(** A record that breaks the tally makes the loop raise. *)
Lemma count_entry_breaks entry acc :
  breaks_tally entry = true -> is_ok (count_entry entry acc) = false.
Proof.
  destruct acc as [streams time]. unfold breaks_tally, count_entry.
  destruct entry as [| | | | | |e]; try reflexivity.
  cbv zeta. cbn [field_or py_get bind].
  set (artist := match dict_get "artistName" e with
                 | Some v => v | None => JStr "" end).
  intros H. apply andb_true_iff in H as [Hart H]. rewrite Hart.
  destruct (dd_add artist (PInt 1) streams) as [s1|] eqn:E1; [|reflexivity].
  cbn [bind].
  apply orb_true_iff in H as [H|H].
  - unfold dd_add in E1. apply negb_true_iff in H. rewrite H in E1.
    discriminate.
  - destruct (match dict_get "msPlayed" e with
              | Some v => v | None => JInt 0 end)
      as [| | | | | |]; try discriminate; reflexivity.
Qed.

Lemma count_entries_breaks entries :
  existsb breaks_tally entries = true ->
  forall acc, is_ok (count_entries entries acc) = false.
Proof.
  induction entries as [|entry rest IH]; [discriminate|].
  intros H acc. cbn [count_entries].
  destruct (count_entry entry acc) as [acc'|] eqn:E; [|reflexivity].
  cbn [bind]. simpl in H. apply orb_true_iff in H as [H|H].
  - pose proof (count_entry_breaks entry acc H) as Hb.
    rewrite E in Hb. discriminate.
  - now apply IH.
Qed.

Lemma analyze_artists_ill_typed merged_data :
  ill_typed_export merged_data = true ->
  is_ok (analyze_artists merged_data) = false.
Proof.
  unfold ill_typed_export, analyze_artists.
  destruct merged_data as [| | | | | |md]; try reflexivity.
  cbn [py_get bind].
  destruct (dict_get "streaming_history" md) as [v|]; [|discriminate].
  intros H.
  assert (Hv : truthy v = true).
  { destruct v as [| | | | |l|]; try exact H.
    destruct l; [discriminate | reflexivity]. }
  rewrite Hv. cbn [negb].
  destruct v as [| | | |s|l|d]; try reflexivity; try discriminate.
  - destruct s as [|c s]; [discriminate|]. reflexivity.
  - cbn [iterate bind].
    pose proof (count_entries_breaks l H ([], [])) as Hb.
    destruct (count_entries l ([], [])); [discriminate | reflexivity].
  - destruct d as [|[k x] d]; [discriminate|]. reflexivity.
Qed.

End ArtistTypes.




(* ===================================================================== *)
(** * Further properties of the scripts *)
(* ===================================================================== *)

(** ** Sanitizer: counters *)

Lemma bump_bump n k st : bump k (bump n st) = bump (n + k) st.
Proof. unfold bump. simpl. f_equal. lia. Qed.

Lemma bump_zero st : bump 0 st = st.
Proof. destruct st. unfold bump. simpl. f_equal. lia. Qed.

Lemma sanitize_string_bump s :
  exists n, forall st, snd (Sanitizer.sanitize_string s st) = bump n st.
Proof.
  unfold Sanitizer.sanitize_string.
  destruct (fold_left Sanitizer.redact_step Sanitizer.redaction_patterns
              (s, 0%nat)) as [t r].
  exists r. intros st. simpl.
  destruct (0 <? r)%nat eqn:E; [reflexivity|].
  apply Nat.ltb_ge in E. assert (r = 0)%nat as -> by lia.
  symmetry. apply bump_zero.
Qed.

Lemma sanitize_each_bump l :
  Forall (fun v => exists n, forall st,
            snd (Sanitizer.sanitize_object v st) = bump n st) l ->
  exists n, forall st, snd (sanitize_each l st) = bump n st.
Proof.
  induction 1 as [|x r [n Hx] _ [k IH]]; simpl.
  - exists 0%nat. intros st. symmetry. apply bump_zero.
  - exists (n + k)%nat. intros st. specialize (Hx st).
    destruct (Sanitizer.sanitize_object x st) as [x' st1]. simpl in Hx.
    specialize (IH st1). destruct (sanitize_each r st1) as [r' st2].
    simpl in *. subst. apply bump_bump.
Qed.

Lemma sanitize_items_bump d :
  Forall (fun kv => exists n, forall st,
            snd (Sanitizer.sanitize_object (snd kv) st) = bump n st) d ->
  exists n, forall acc st, snd (sanitize_items d acc st) = bump n st.
Proof.
  induction 1 as [|[k v] r [n Hx] _ [j IH]]; simpl.
  - exists 0%nat. intros acc st. symmetry. apply bump_zero.
  - destruct (Sanitizer.should_remove k).
    + exists j. intros acc st. apply IH.
    + exists (n + j)%nat. intros acc st. specialize (Hx st). simpl in Hx.
      destruct (Sanitizer.sanitize_object v st) as [v' st1]. simpl in Hx.
      rewrite IH. subst. apply bump_bump.
Qed.

Lemma sanitize_object_bump_ex obj :
  exists n, forall st, snd (Sanitizer.sanitize_object obj st) = bump n st.
Proof.
  induction obj as [| b | z | f | s | l IH | d IH] using json_ind;
    try (exists 0%nat; intros st; symmetry; apply bump_zero).
  - destruct (sanitize_string_bump s) as [n Hn]. exists n. intros st.
    specialize (Hn st). simpl.
    destruct (Sanitizer.sanitize_string s st). exact Hn.
  - destruct (sanitize_each_bump l IH) as [n Hn]. exists n. intros st.
    rewrite sanitize_object_list. specialize (Hn st).
    destruct (sanitize_each l st). exact Hn.
  - destruct (sanitize_items_bump d IH) as [n Hn]. exists n. intros st.
    rewrite sanitize_object_dict. apply Hn.
Qed.

(** What sanitizing a document does to the counters. *)
Lemma sanitize_object_bump obj st :
  snd (Sanitizer.sanitize_object obj st) = bump (redactions_of obj) st.
Proof.
  destruct (sanitize_object_bump_ex obj) as [n Hn].
  rewrite Hn. unfold redactions_of. now rewrite Hn.
Qed.

Lemma sanitize_each_sum l st :
  snd (sanitize_each l st) = bump (list_sum (map redactions_of l)) st.
Proof.
  revert st. induction l as [|x r IH]; intros st; simpl.
  - symmetry. apply bump_zero.
  - pose proof (sanitize_object_bump x st) as Hx.
    destruct (Sanitizer.sanitize_object x st) as [x' st1]. simpl in Hx.
    specialize (IH st1). destruct (sanitize_each r st1) as [r' st2].
    simpl in *. subst. apply bump_bump.
Qed.

Lemma sanitize_items_sum d :
  forall acc st,
    snd (sanitize_items d acc st)
    = bump (list_sum
              (map (fun kv => redactions_of (snd kv))
                 (filter (fun kv => negb (Sanitizer.should_remove (fst kv)))
                    d))) st.
Proof.
  induction d as [|[k v] r IH]; intros acc st; simpl.
  - symmetry. apply bump_zero.
  - destruct (Sanitizer.should_remove k); simpl; [apply IH|].
    pose proof (sanitize_object_bump v st) as Hx.
    destruct (Sanitizer.sanitize_object v st) as [v' st1]. simpl in Hx.
    rewrite IH. subst. apply bump_bump.
Qed.

Lemma redactions_of_list l :
  redactions_of (JList l) = list_sum (map redactions_of l).
Proof.
  unfold redactions_of. rewrite sanitize_object_list.
  pose proof (sanitize_each_sum l Sanitizer.init_stats) as H.
  destruct (sanitize_each l Sanitizer.init_stats). simpl in *.
  now rewrite H.
Qed.

Lemma redactions_of_dict d :
  redactions_of (JDict d)
  = list_sum
      (map (fun kv => redactions_of (snd kv))
         (filter (fun kv => negb (Sanitizer.should_remove (fst kv))) d)).
Proof.
  unfold redactions_of.
  rewrite sanitize_object_dict, sanitize_items_sum. reflexivity.
Qed.

(** X1: sanitizing a document adds its own redactions to
    [total_redactions] and leaves the two file counters alone; the
    redactions of a list are the sum of those of its elements, and the
    redactions of an object the sum over the values of the keys that
    are kept. *)
Theorem X1_redactions_add_up :
  (forall obj st,
     snd (Sanitizer.sanitize_object obj st) = bump (redactions_of obj) st) /\
  (forall l, redactions_of (JList l) = list_sum (map redactions_of l)) /\
  (forall d,
     redactions_of (JDict d)
     = list_sum
         (map (fun kv => redactions_of (snd kv))
            (filter (fun kv => negb (Sanitizer.should_remove (fst kv))) d))).
Proof.
  split; [exact sanitize_object_bump|].
  split; [exact redactions_of_list | exact redactions_of_dict].
Qed.

(** ** Sanitizer: texts and documents with nothing to redact *)

Lemma fold_redact_step_none ps text :
  (forall p, In p ps -> findall (fst (snd p)) text = []) ->
  fold_left Sanitizer.redact_step ps (text, 0%nat) = (text, 0%nat).
Proof.
  induction ps as [|[name [pat repl]] r IH]; intros H; [reflexivity|].
  cbn [fold_left]. unfold Sanitizer.redact_step at 2.
  pose proof (H (name, (pat, repl)) (or_introl eq_refl)) as H0.
  simpl in H0. rewrite H0.
  apply IH. intros p Hp. apply H. now right.
Qed.

Lemma sanitize_string_unchanged text st :
  (forall p, In p Sanitizer.redaction_patterns ->
             findall (fst (snd p)) text = []) ->
  Sanitizer.sanitize_string text st = (text, st).
Proof.
  intros H. unfold Sanitizer.sanitize_string.
  now rewrite fold_redact_step_none.
Qed.

(** X2: a text in which none of the seven patterns has a match comes
    back unchanged and the counters stay as they were. *)
Theorem X2_unmatched_text_unchanged text st :
  (forall p, In p Sanitizer.redaction_patterns ->
             findall (fst (snd p)) text = []) ->
  Sanitizer.sanitize_string text st = (text, st).
Proof. apply sanitize_string_unchanged. Qed.

Lemma X2_unmatched_text_unchanged_witness :
  Sanitizer.sanitize_string "Sample Track 1" Sanitizer.init_stats
  = ("Sample Track 1", Sanitizer.init_stats).
Proof.
  apply (X2_unmatched_text_unchanged "Sample Track 1").
  intros p Hp. simpl in Hp.
  repeat (destruct Hp as [<- | Hp]; [vm_compute; reflexivity|]).
  contradiction.
Defined.

Lemma dict_get_app k a b :
  dict_get k (a ++ b) =
  match dict_get k a with Some v => Some v | None => dict_get k b end.
Proof.
  induction a as [|[k' v'] r IH]; simpl; [reflexivity|].
  destruct (String.eqb k k'); auto.
Qed.

Lemma dict_set_fresh k v acc :
  dict_get k acc = None -> dict_set k v acc = acc ++ [(k, v)].
Proof.
  induction acc as [|[k' v'] r IH]; simpl; [reflexivity|].
  destruct (String.eqb k k'); [discriminate|].
  intros H. now rewrite IH.
Qed.

Lemma fold_keep_item_append d :
  NoDup (map fst d) ->
  forall acc,
    (forall k, In k (map fst d) -> dict_get k acc = None) ->
    fold_left keep_item d acc
    = acc ++ map (fun kv => (fst kv, sanitized (snd kv)))
               (filter (fun kv => negb (Sanitizer.should_remove (fst kv))) d).
Proof.
  induction d as [|[k0 v0] r IH]; simpl; intros Hnd acc Hfresh.
  - now rewrite app_nil_r.
  - inversion Hnd as [|? ? Hnotin Hnd']; subst.
    unfold keep_item at 2. simpl.
    destruct (Sanitizer.should_remove k0); simpl.
    + apply IH; auto.
    + rewrite IH; auto.
      * rewrite dict_set_fresh by auto. now rewrite <- app_assoc.
      * intros k Hk. rewrite dict_set_fresh by auto.
        rewrite dict_get_app, (Hfresh k) by auto. simpl.
        destruct (String.eqb k k0) eqn:E; [|reflexivity].
        apply String.eqb_eq in E. subst. contradiction.
Qed.

Lemma sanitized_dict_ordered d :
  NoDup (map fst d) ->
  sanitized (JDict d)
  = JDict (map (fun kv => (fst kv, sanitized (snd kv)))
             (filter (fun kv => negb (Sanitizer.should_remove (fst kv))) d)).
Proof.
  intros Hnd. rewrite sanitized_dict.
  now rewrite fold_keep_item_append.
Qed.

(** X3: the object that sanitization rebuilds from an object with
    distinct keys holds exactly the keys outside the removal list, in
    their original order, each with the sanitization of its value. *)
Theorem X3_rebuilt_object d st :
  NoDup (map fst d) ->
  fst (Sanitizer.sanitize_object (JDict d) st)
  = JDict (map (fun kv => (fst kv, sanitized (snd kv)))
             (filter (fun kv => negb (Sanitizer.should_remove (fst kv))) d)).
Proof.
  intros Hnd. rewrite sanitize_object_doc. now apply sanitized_dict_ordered.
Qed.

Lemma X3_rebuilt_object_witness :
  NoDup (map fst mixed_object) /\
  fst (Sanitizer.sanitize_object (JDict mixed_object) Sanitizer.init_stats)
  = JDict (map (fun kv => (fst kv, sanitized (snd kv)))
             (filter (fun kv => negb (Sanitizer.should_remove (fst kv)))
                mixed_object)).
Proof.
  assert (Hnd : NoDup (map fst mixed_object)).
  { simpl. repeat constructor; simpl; intuition discriminate. }
  split; [exact Hnd|].
  exact (X3_rebuilt_object mixed_object Sanitizer.init_stats Hnd).
Defined.

Lemma existsb_key_none k (r : list (string * json)) :
  existsb (fun kv => String.eqb k (fst kv)) r = false ->
  ~ In k (map fst r).
Proof.
  induction r as [|[k' v'] r IH]; simpl; [tauto|].
  intros H. apply orb_false_iff in H as [H1 H2].
  apply String.eqb_neq in H1. intros [E|E]; [congruence | now apply IH].
Qed.

Lemma unique_keys_dict d :
  unique_keys (JDict d) = true ->
  NoDup (map fst d) /\ Forall (fun kv => unique_keys (snd kv) = true) d.
Proof.
  simpl. induction d as [|[k v] r IH]; simpl; intros H.
  - split; constructor.
  - apply andb_true_iff in H as [H Hr]. apply andb_true_iff in H as [Hk Hv].
    destruct (IH Hr) as [Hnd Hall]. split.
    + constructor; [|assumption].
      apply existsb_key_none. now destruct (existsb _ r).
    + constructor; assumption.
Qed.

Lemma unique_keys_list l :
  unique_keys (JList l) = true ->
  Forall (fun v => unique_keys v = true) l.
Proof.
  simpl. induction l as [|x r IH]; simpl; intros H; [constructor|].
  apply andb_true_iff in H as [Hx Hr]. constructor; auto.
Qed.

Lemma strings_free_text s :
  strings_free redaction_regexes (JStr s) = true ->
  forall p, In p Sanitizer.redaction_patterns ->
            findall (fst (snd p)) s = [].
Proof.
  intros H p Hp.
  change (forallb (fun q => negb (search q s)) redaction_regexes = true) in H.
  rewrite forallb_forall in H.
  specialize (H (fst (snd p))).
  assert (Hin : In (fst (snd p)) redaction_regexes).
  { unfold redaction_regexes.
    exact (in_map (fun q : string * (regex * string) => fst (snd q)) _ _ Hp). }
  specialize (H Hin). unfold search in H.
  now destruct (findall (fst (snd p)) s).
Qed.

Lemma nothing_to_redact_fixed v :
  unique_keys v = true -> keys_clean v = true ->
  strings_free redaction_regexes v = true ->
  sanitized v = v /\ redactions_of v = 0%nat.
Proof.
  induction v as [| b | z | f | s | l IH | d IH] using json_ind;
    intros Hu Hk Hs; try (split; reflexivity).
  - pose proof (sanitize_string_unchanged s Sanitizer.init_stats
                  (strings_free_text s Hs)) as E.
    unfold sanitized, redactions_of. simpl. rewrite E. split; reflexivity.
  - apply unique_keys_list in Hu.
    rewrite keys_clean_list in Hk. rewrite strings_free_list in Hs.
    assert (Hall : map sanitized l = l /\
                   list_sum (map redactions_of l) = 0%nat).
    { induction IH as [|x r Hx _ IHr]; simpl; [split; reflexivity|].
      simpl in Hk, Hs.
      apply andb_true_iff in Hk as [Hk1 Hk2].
      apply andb_true_iff in Hs as [Hs1 Hs2].
      inversion Hu as [|? ? Hu1 Hu2]; subst.
      destruct (Hx Hu1 Hk1 Hs1) as [-> ->].
      destruct (IHr Hu2 Hk2 Hs2) as [-> ->]. split; reflexivity. }
    destruct Hall as [Hm Hsum]. split.
    + now rewrite sanitized_list, Hm.
    + now rewrite redactions_of_list.
  - apply unique_keys_dict in Hu as [Hnd Hu].
    rewrite keys_clean_dict in Hk. rewrite strings_free_dict in Hs.
    assert (Hall :
      map (fun kv => (fst kv, sanitized (snd kv)))
        (filter (fun kv => negb (Sanitizer.should_remove (fst kv))) d) = d /\
      list_sum
        (map (fun kv => redactions_of (snd kv))
           (filter (fun kv => negb (Sanitizer.should_remove (fst kv))) d))
      = 0%nat).
    { clear Hnd. induction IH as [|[k x] r Hx _ IHr]; simpl;
        [split; reflexivity|].
      simpl in Hk, Hs.
      apply andb_true_iff in Hk as [Hk1 Hk2].
      apply andb_true_iff in Hk1 as [Hk0 Hk1].
      apply andb_true_iff in Hs as [Hs1 Hs2].
      inversion Hu as [|? ? Hu1 Hu2]; subst. simpl in Hu1.
      rewrite clean_key_spec in Hk0. rewrite Hk0. simpl.
      destruct (Hx Hu1 Hk1 Hs1) as [E1 E2]. simpl in E1, E2.
      rewrite E1, E2.
      destruct (IHr Hu2 Hk2 Hs2) as [-> ->]. split; reflexivity. }
    destruct Hall as [Hm Hsum]. split.
    + now rewrite sanitized_dict_ordered, Hm.
    + now rewrite redactions_of_dict.
Qed.

(** X4: a document with distinct keys, no key from the removal list
    and no text matching one of the seven patterns goes through
    [sanitize_object] unchanged, counters included. *)
Theorem X4_quiet_document_unchanged v st :
  nothing_to_redact v = true ->
  Sanitizer.sanitize_object v st = (v, st).
Proof.
  unfold nothing_to_redact. intros H.
  apply andb_true_iff in H as [H Hs]. apply andb_true_iff in H as [Hu Hk].
  destruct (nothing_to_redact_fixed v Hu Hk Hs) as [Hdoc Hred].
  pose proof (sanitize_object_doc v st) as H1.
  pose proof (sanitize_object_bump v st) as H2.
  rewrite Hred, bump_zero in H2. rewrite Hdoc in H1.
  destruct (Sanitizer.sanitize_object v st). simpl in *. now subst.
Qed.

Lemma X4_quiet_document_unchanged_witness :
  nothing_to_redact quiet_object = true /\
  Sanitizer.sanitize_object quiet_object Sanitizer.init_stats
  = (quiet_object, Sanitizer.init_stats).
Proof.
  split; [vm_compute; reflexivity|].
  apply (X4_quiet_document_unchanged quiet_object). vm_compute. reflexivity.
Defined.

(** ** Sanitizer: a whole run *)

Lemma sanitize_file_spec f st :
  Sanitizer.sanitize_file f st =
  match f_content f with
  | Unreadable => (JNull, st)
  | Parsed data =>
      let fp := S (Sanitizer.files_processed st) in
      let fs := Sanitizer.files_sanitized st in
      let tr := Sanitizer.total_redactions st in
      if Sanitizer.should_skip_file (f_path f)
      then (JNull, Sanitizer.mkStats fp fs tr)
      else (sanitized data,
            Sanitizer.mkStats fp
              (if (0 <? tr + redactions_of data)%nat then S fs else fs)
              (tr + redactions_of data))
  end.
Proof.
  unfold Sanitizer.sanitize_file.
  destruct (f_content f) as [|data]; [reflexivity|]. cbv zeta.
  destruct (Sanitizer.should_skip_file (f_path f)); [reflexivity|].
  set (st1 := Sanitizer.mkStats _ _ _).
  pose proof (sanitize_object_doc data st1) as H1.
  pose proof (sanitize_object_bump data st1) as H2.
  destruct (Sanitizer.sanitize_object data st1) as [doc st2].
  simpl in H1, H2. subst doc st2. unfold bump, st1. simpl.
  now destruct (0 <? _)%nat.
Qed.

Lemma sanitize_all_files_written files :
  forall st,
    fst (Sanitizer.sanitize_all_files files st) = flat_map written_for files.
Proof.
  induction files as [|f rest IH]; intros st; [reflexivity|].
  cbn [Sanitizer.sanitize_all_files flat_map].
  pose proof (sanitize_file_spec f st) as Hf.
  destruct (Sanitizer.sanitize_file f st) as [out st1].
  specialize (IH st1).
  destruct (Sanitizer.sanitize_all_files rest st1) as [saved st2].
  simpl in IH. subst saved.
  set (W := flat_map written_for rest). cbn [fst].
  unfold written_for.
  destruct (f_content f) as [|data].
  - now injection Hf as -> _.
  - cbv zeta in Hf.
    destruct (Sanitizer.should_skip_file (f_path f)).
    + now injection Hf as -> _.
    + injection Hf as -> _. now destruct (sanitized data).
Qed.



Lemma sanitize_file_counters f st :
  let st' := snd (Sanitizer.sanitize_file f st) in
  Sanitizer.files_processed st'
  = (Sanitizer.files_processed st + (if readable f then 1 else 0))%nat
  /\ Sanitizer.total_redactions st'
     = (Sanitizer.total_redactions st + file_redactions f)%nat
  /\ (Sanitizer.files_sanitized st
      + (if (0 <? file_redactions f)%nat then 1 else 0)
      <= Sanitizer.files_sanitized st')%nat
  /\ (Sanitizer.files_sanitized st'
      <= Sanitizer.files_sanitized st
         + (if sanitizable f then 1 else 0))%nat.
Proof.
  rewrite sanitize_file_spec.
  unfold readable, unreadable, file_redactions, sanitizable.
  destruct (f_content f) as [|data]; simpl; [repeat split; lia|].
  destruct (Sanitizer.should_skip_file (f_path f)); simpl;
    [repeat split; lia|].
  destruct (Nat.ltb_spec 0 (redactions_of data));
    destruct (Nat.ltb_spec 0
                (Sanitizer.total_redactions st + redactions_of data));
    repeat split; lia.
Qed.

Lemma filter_length_cons {A} (P : A -> bool) x l :
  List.length (filter P (x :: l))
  = ((if P x then 1 else 0) + List.length (filter P l))%nat.
Proof. simpl. now destruct (P x). Qed.

Lemma sanitize_all_files_counters files :
  forall st,
    let st' := snd (Sanitizer.sanitize_all_files files st) in
    Sanitizer.files_processed st'
    = (Sanitizer.files_processed st + List.length (filter readable files))%nat
    /\ Sanitizer.total_redactions st'
       = (Sanitizer.total_redactions st
          + list_sum (map file_redactions files))%nat
    /\ (Sanitizer.files_sanitized st
        + List.length (filter (fun f => (0 <? file_redactions f)%nat) files)
        <= Sanitizer.files_sanitized st')%nat
    /\ (Sanitizer.files_sanitized st'
        <= Sanitizer.files_sanitized st
           + List.length (filter sanitizable files))%nat.
Proof.
  induction files as [|f rest IH]; intros st.
  - simpl. repeat split; lia.
  - cbn [Sanitizer.sanitize_all_files].
    pose proof (sanitize_file_counters f st) as Hf.
    destruct (Sanitizer.sanitize_file f st) as [out st1].
    specialize (IH st1).
    destruct (Sanitizer.sanitize_all_files rest st1) as [saved st2].
    cbn [snd] in *. cbv zeta in *.
    rewrite !filter_length_cons. cbn [map].
    change (list_sum (file_redactions f :: map file_redactions rest))
      with (file_redactions f + list_sum (map file_redactions rest))%nat.
    destruct Hf as (F1 & F2 & F3 & F4). destruct IH as (H1 & H2 & H3 & H4).
    repeat split; lia.
Qed.



(** ** Sanitizer: the safe streaming history, file by file *)

Lemma safe_entry_object d :
  Sanitizer.safe_entry (JDict d) = Ok (five_keys (JDict d)).
Proof. reflexivity. Qed.

Lemma safe_entries_spec data :
  forall acc,
    Sanitizer.safe_entries data acc
    = acc ++ filter Sanitizer.valid_safe_entry
               (map five_keys (leading_objects data)).
Proof.
  induction data as [|entry rest IH]; intros acc; simpl.
  - now rewrite app_nil_r.
  - destruct entry as [| | | | | |d]; simpl; try now rewrite app_nil_r.
    match goal with
    | |- context [if ?c then _ else _] => destruct c
    end.
    + rewrite IH, <- app_assoc. reflexivity.
    + apply IH.
Qed.

(** X8: the safe streaming history is the concatenation, file by file,
    of the five-key copies of the valid records.  Within one array the
    records after the first entry that is not an object are lost with
    it; files that do not parse or are not arrays add nothing. *)
Theorem X8_safe_history_by_file files acc :
  Sanitizer.create_safe_streaming_history files acc
  = acc ++ flat_map safe_records_of files.
Proof.
  revert acc. induction files as [|f rest IH]; intros acc; simpl.
  - now rewrite app_nil_r.
  - unfold safe_records_of at 1.
    destruct (f_content f) as [|[| | | | |data|]];
      try (rewrite IH; reflexivity).
    rewrite IH, safe_entries_spec, <- app_assoc. reflexivity.
Qed.

(** ** Sanitizer: the safe playlists *)

Lemma has_keys_intro ks d : map fst d = ks -> has_keys ks (JDict d) = true.
Proof.
  intros H. unfold has_keys.
  now destruct (list_eq_dec string_dec (map fst d) ks).
Qed.

Lemma safe_item_keys item si :
  safe_item item = Ok si ->
  has_keys ["trackName"; "artistName"; "albumName"; "addedAt"] si = true.
Proof.
  unfold safe_item. intros H.
  destruct (py_get item "track" (JDict [])) as [track|]; [|discriminate].
  cbn [bind] in H.
  destruct (py_get track "trackName" (JStr "")); [|discriminate].
  cbn [bind] in H.
  destruct (py_get track "artistName" (JStr "")); [|discriminate].
  cbn [bind] in H.
  destruct (py_get track "albumName" (JStr "")); [|discriminate].
  cbn [bind] in H.
  destruct (py_get item "addedAt" (JStr "")); [|discriminate].
  cbn [bind] in H. injection H as <-. reflexivity.
Qed.

Lemma map_result_forall {A B} (f : A -> result B) (P : B -> Prop) l :
  (forall x y, f x = Ok y -> P y) ->
  forall ys, Reporter.map_result f l = Ok ys -> Forall P ys.
Proof.
  intros Hf. induction l as [|x r IH]; simpl; intros ys H.
  - injection H as <-. constructor.
  - destruct (f x) as [y|] eqn:E; [|discriminate]. simpl in H.
    destruct (Reporter.map_result f r) as [ys'|]; [|discriminate].
    simpl in H. injection H as <-. constructor; eauto.
Qed.

Lemma map_result_length {A B} (f : A -> result B) l :
  forall ys, Reporter.map_result f l = Ok ys ->
             List.length ys = List.length l.
Proof.
  induction l as [|x r IH]; simpl; intros ys H.
  - now injection H as <-.
  - destruct (f x) as [y|]; [|discriminate]. simpl in H.
    destruct (Reporter.map_result f r) as [ys'|]; [|discriminate].
    simpl in H. injection H as <-. simpl. now rewrite (IH ys').
Qed.

Lemma safe_playlist_shaped playlist sp :
  safe_playlist playlist = Ok sp -> safe_playlist_shape sp = true.
Proof.
  unfold safe_playlist. intros H.
  destruct (py_get playlist "name" (JStr "")); [|discriminate].
  cbn [bind] in H.
  destruct (py_get playlist "description" (JStr "")); [|discriminate].
  cbn [bind] in H.
  destruct (py_get playlist "numberOfFollowers" (JInt 0)); [|discriminate].
  cbn [bind] in H.
  match type of H with
  | bind ?X _ = _ => destruct X as [items|] eqn:E; [|discriminate]
  end.
  cbn [bind] in H. injection H as <-.
  unfold safe_playlist_shape. rewrite has_keys_intro by reflexivity.
  simpl. apply forallb_forall.
  assert (Hall : Forall (fun si =>
            has_keys ["trackName"; "artistName"; "albumName"; "addedAt"] si
            = true) items).
  { destruct playlist as [| | | | | |p]; try discriminate.
    destruct (dict_get "items" p) as [v|].
    - destruct (iterate v) as [its|]; [|discriminate]. cbn [bind] in E.
      eapply map_result_forall; [|exact E]. apply safe_item_keys.
    - injection E as <-. constructor. }
  now apply Forall_forall.
Qed.

Lemma safe_playlists_loop_shaped playlists :
  forall acc,
    forallb safe_playlist_shape acc = true ->
    forallb safe_playlist_shape (safe_playlists_loop playlists acc) = true.
Proof.
  induction playlists as [|p rest IH]; simpl; intros acc Hacc; [assumption|].
  destruct (safe_playlist p) as [sp|] eqn:E; [|assumption].
  apply IH. rewrite forallb_app, Hacc. simpl.
  now rewrite (safe_playlist_shaped p sp E).
Qed.

(** X9: every playlist written to safe_playlists.json is an object
    with exactly the keys name, description, numberOfFollowers and
    items, and every element of items an object with exactly the keys
    trackName, artistName, albumName and addedAt: no other field of
    the export gets through. *)
Theorem X9_safe_playlists_shape files :
  forallb safe_playlist_shape (create_safe_playlists files []) = true.
Proof.
  assert (H : forall acc,
            forallb safe_playlist_shape acc = true ->
            forallb safe_playlist_shape (create_safe_playlists files acc)
            = true).
  { induction files as [|f rest IH]; simpl; intros acc Hacc; [assumption|].
    destruct (f_content f) as [|[| | | | | |d]]; auto.
    destruct (dict_get "playlists" d) as [v|]; auto.
    destruct (iterate v) as [pls|]; auto.
    apply IH. now apply safe_playlists_loop_shaped. }
  now apply H.
Qed.

Lemma safe_item_tidy item :
  tidy_item item = true -> exists si, safe_item item = Ok si.
Proof.
  unfold tidy_item, safe_item.
  destruct item as [| | | | | |i]; try discriminate. simpl.
  destruct (dict_get "track" i) as [[| | | | | |t]|]; try discriminate;
    simpl; eauto.
Qed.

Lemma safe_playlist_tidy playlist :
  tidy_playlist playlist = true ->
  exists sp, safe_playlist playlist = Ok sp /\
             item_count sp = item_count playlist.
Proof.
  unfold tidy_playlist, safe_playlist.
  destruct playlist as [| | | | | |p]; try discriminate.
  cbn [py_get bind]. unfold item_count at 2, field.
  destruct (dict_get "items" p) as [[| | | | |items|]|]; try discriminate.
  - intros Ht. cbn [iterate bind].
    destruct (map_result_ok safe_item items) as [sis E].
    { apply Forall_forall. intros x Hx. apply safe_item_tidy.
      rewrite forallb_forall in Ht. now apply Ht. }
    rewrite E. cbn [bind]. eexists. split; [reflexivity|].
    unfold item_count. simpl. now apply (map_result_length safe_item).
  - intros _. cbn [bind]. eexists. split; reflexivity.
Qed.

Lemma safe_playlists_loop_tidy playlists :
  forallb tidy_playlist playlists = true ->
  forall acc,
    exists sps,
      safe_playlists_loop playlists acc = acc ++ sps /\
      map item_count sps = map item_count playlists.
Proof.
  induction playlists as [|p rest IH]; simpl; intros H acc.
  - exists []. now rewrite app_nil_r.
  - apply andb_true_iff in H as [Hp Hr].
    destruct (safe_playlist_tidy p Hp) as (sp & -> & Hc).
    destruct (IH Hr (acc ++ [sp])) as (sps & -> & Hm).
    exists (sp :: sps). split.
    + now rewrite <- app_assoc.
    + simpl. now rewrite Hc, Hm.
Qed.

(** X10: from an array of playlists of the expected types the loop
    appends one safe playlist per source playlist, in order, each with
    as many items as its source. *)
Theorem X10_tidy_playlists_kept playlists acc :
  forallb tidy_playlist playlists = true ->
  exists sps,
    safe_playlists_loop playlists acc = acc ++ sps /\
    map item_count sps = map item_count playlists.
Proof. intros H. now apply safe_playlists_loop_tidy. Qed.

Lemma X10_tidy_playlists_kept_witness :
  forallb tidy_playlist tidy_playlists = true /\
  exists sps,
    safe_playlists_loop tidy_playlists [] = [] ++ sps /\
    map item_count sps = [2%nat; 0%nat].
Proof.
  split; [reflexivity|].
  apply (X10_tidy_playlists_kept tidy_playlists []). reflexivity.
Defined.

(** X11: a playlist on which the loop body raises is dropped together
    with every playlist after it in the same file; the playlists
    collected before it stay. *)
Theorem X11_playlist_loop_cut before bad after acc e :
  safe_playlist bad = Raise e ->
  safe_playlists_loop (before ++ bad :: after) acc
  = safe_playlists_loop before acc.
Proof.
  intros Hbad. revert acc.
  induction before as [|p rest IH]; simpl; intros acc.
  - now rewrite Hbad.
  - destruct (safe_playlist p); [apply IH | reflexivity].
Qed.

Lemma X11_playlist_loop_cut_witness :
  safe_playlist (JStr "oops") = Raise AttributeError /\
  safe_playlists_loop (tidy_playlists ++ JStr "oops" :: tidy_playlists) []
  = safe_playlists_loop tidy_playlists [].
Proof.
  split; [reflexivity|].
  apply (X11_playlist_loop_cut tidy_playlists (JStr "oops") tidy_playlists
           [] AttributeError).
  reflexivity.
Defined.

(** ** Merger: what each step adds and what it leaves alone *)

Lemma streaming_step f md :
  let md' := Merger.guarded (Merger.streaming_body f) md in
  Merger.streaming_history md'
  = Merger.streaming_history md ++ array_contents f /\
  Merger.files_processed md'
  = (Merger.files_processed md + (if is_array_file f then 1 else 0))%nat /\
  Merger.playlists md' = Merger.playlists md /\
  Merger.user_data md' = Merger.user_data md /\
  Merger.total_streams md' = Merger.total_streams md.
Proof.
  unfold Merger.guarded, Merger.streaming_body, array_contents, is_array_file.
  destruct (f_content f) as [|[| | | | |data|]]; simpl;
    rewrite ?app_nil_r; repeat split; lia.
Qed.

Lemma merge_streaming_history_spec all_files md :
  let md' := Merger.merge_streaming_history all_files md in
  Merger.streaming_history md'
  = Merger.streaming_history md ++ flat_map array_contents all_files /\
  Merger.files_processed md'
  = (Merger.files_processed md
     + List.length (filter is_array_file all_files))%nat /\
  Merger.playlists md' = Merger.playlists md /\
  Merger.user_data md' = Merger.user_data md /\
  Merger.total_streams md' = Merger.total_streams md.
Proof.
  unfold Merger.merge_streaming_history. revert md.
  induction all_files as [|f rest IH]; intros md.
  - simpl. rewrite app_nil_r. repeat split. lia.
  - cbn [fold_left flat_map]. rewrite filter_length_cons.
    destruct (streaming_step f md) as (S1 & S2 & S3 & S4 & S5).
    destruct (IH (Merger.guarded (Merger.streaming_body f) md))
      as (H1 & H2 & H3 & H4 & H5).
    cbv zeta in *. rewrite H1, H2, H3, H4, H5, S1, S2, S3, S4, S5.
    rewrite app_assoc. repeat split. lia.
Qed.

(** X12: merging the streaming files appends the contents of the
    files that hold an array, in file order, and counts exactly those
    files; playlists, user data and [total_streams] are not touched. *)
Theorem X12_streaming_concatenated all_files md :
  let md' := Merger.merge_streaming_history all_files md in
  Merger.streaming_history md'
  = Merger.streaming_history md ++ flat_map array_contents all_files /\
  Merger.files_processed md'
  = (Merger.files_processed md
     + List.length (filter is_array_file all_files))%nat /\
  Merger.playlists md' = Merger.playlists md /\
  Merger.user_data md' = Merger.user_data md /\
  Merger.total_streams md' = Merger.total_streams md.
Proof. apply merge_streaming_history_spec. Qed.

Lemma playlists_step_frame f md :
  let md' := Merger.guarded (Merger.playlists_body f) md in
  Merger.files_processed md'
  = (Merger.files_processed md + (if playlists_counted f then 1 else 0))%nat /\
  Merger.streaming_history md' = Merger.streaming_history md /\
  Merger.user_data md' = Merger.user_data md /\
  Merger.total_streams md' = Merger.total_streams md.
Proof.
  unfold Merger.guarded, Merger.playlists_body, playlists_counted.
  destruct (f_content f) as [|[| | | | | |d]]; simpl;
    try (repeat split; lia).
  destruct (dict_get "playlists" d) as [[]|]; simpl; repeat split; lia.
Qed.

Lemma merge_playlists_frame playlist_files md :
  let md' := Merger.merge_playlists playlist_files md in
  Merger.files_processed md'
  = (Merger.files_processed md
     + List.length (filter playlists_counted playlist_files))%nat /\
  Merger.streaming_history md' = Merger.streaming_history md /\
  Merger.user_data md' = Merger.user_data md /\
  Merger.total_streams md' = Merger.total_streams md.
Proof.
  unfold Merger.merge_playlists. revert md.
  induction playlist_files as [|f rest IH]; intros md.
  - simpl. repeat split. lia.
  - cbn [fold_left]. rewrite filter_length_cons.
    destruct (playlists_step_frame f md) as (S1 & S2 & S3 & S4).
    destruct (IH (Merger.guarded (Merger.playlists_body f) md))
      as (H1 & H2 & H3 & H4).
    cbv zeta in *. rewrite H1, H2, H3, H4, S1, S2, S3, S4.
    repeat split. lia.
Qed.

(** X13: merging the playlist files counts a file exactly when it is
    an object whose "playlists" value is an array, a string or an
    object, and touches neither the streaming history nor the user
    data nor [total_streams]. *)
Theorem X13_playlist_files_counted playlist_files md :
  let md' := Merger.merge_playlists playlist_files md in
  Merger.files_processed md'
  = (Merger.files_processed md
     + List.length (filter playlists_counted playlist_files))%nat /\
  Merger.streaming_history md' = Merger.streaming_history md /\
  Merger.user_data md' = Merger.user_data md /\
  Merger.total_streams md' = Merger.total_streams md.
Proof. apply merge_playlists_frame. Qed.

Lemma dict_set_in k v d kv :
  In kv (dict_set k v d) -> In kv d \/ kv = (k, v).
Proof.
  induction d as [|[k0 v0] r IH]; simpl.
  - intros [<-|[]]. now right.
  - destruct (String.eqb k k0) eqn:E; simpl.
    + apply String.eqb_eq in E. subst k0.
      intros [<-|H]; [now right | left; now right].
    + intros [<-|H]; [left; now left|].
      destruct (IH H); [left; now right | now right].
Qed.

Lemma user_data_step filename c md :
  let md' := Merger.guarded (Merger.user_data_body filename c) md in
  Merger.streaming_history md' = Merger.streaming_history md /\
  Merger.playlists md' = Merger.playlists md /\
  Merger.total_streams md' = Merger.total_streams md /\
  (md' = md \/
   exists safe_data,
     has_keys (allowed_fields filename) safe_data = true /\
     Merger.user_data md'
     = dict_set (Merger.stem filename) safe_data (Merger.user_data md)).
Proof.
  unfold Merger.guarded, Merger.user_data_body, allowed_fields.
  destruct c as [|data]; [simpl; auto|].
  match goal with
  | |- context [bind ?X _] => destruct X as [safe|] eqn:E
  end; [|simpl; auto].
  cbn [bind]. cbv zeta. simpl. repeat split. right. exists safe.
  split; [|reflexivity].
  destruct (String.eqb filename "Identity.json");
    [|destruct (String.eqb filename "Userdata.json")].
  - destruct (Merger.get_or_none data "country"); [|discriminate].
    destruct (Merger.get_or_none data "birthdate"); [|discriminate].
    destruct (Merger.get_or_none data "gender"); [|discriminate].
    simpl in E. now injection E as <-.
  - destruct (Merger.get_or_none data "username"); [|discriminate].
    destruct (Merger.get_or_none data "email"); [|discriminate].
    destruct (Merger.get_or_none data "created"); [|discriminate].
    simpl in E. now injection E as <-.
  - destruct (Merger.len_of data "tracks"); [|discriminate].
    destruct (Merger.len_of data "albums"); [|discriminate].
    destruct (Merger.len_of data "artists"); [|discriminate].
    simpl in E. now injection E as <-.
Qed.

Lemma merge_user_data_fold present names :
  forall md,
    let md' := fold_left (account_step present) names md in
    Merger.streaming_history md' = Merger.streaming_history md /\
    Merger.playlists md' = Merger.playlists md /\
    Merger.total_streams md' = Merger.total_streams md /\
    forall kv, In kv (Merger.user_data md') ->
      In kv (Merger.user_data md) \/
      exists filename,
        In filename names /\ fst kv = Merger.stem filename /\
        has_keys (allowed_fields filename) (snd kv) = true.
Proof.
  induction names as [|name rest IH]; intros md.
  - simpl. auto.
  - cbn [fold_left]. cbv zeta.
    set (md1 := account_step present md name).
    destruct (IH md1) as (H1 & H2 & H3 & H4). cbv zeta in *.
    assert (Hstep :
      Merger.streaming_history md1 = Merger.streaming_history md /\
      Merger.playlists md1 = Merger.playlists md /\
      Merger.total_streams md1 = Merger.total_streams md /\
      forall kv, In kv (Merger.user_data md1) ->
        In kv (Merger.user_data md) \/
        (fst kv = Merger.stem name /\
         has_keys (allowed_fields name) (snd kv) = true)).
    { unfold md1, account_step. destruct (present name) as [c|]; [|auto].
      pose proof (user_data_step name c md) as Hs. cbv zeta in Hs.
      destruct Hs as (S1 & S2 & S3 & S4).
      repeat split; try assumption.
      intros kv Hin.
      destruct S4 as [E | (safe & Hk & Hu)]; [rewrite E in Hin; auto|].
      rewrite Hu in Hin. apply dict_set_in in Hin as [Hin | ->]; auto. }
    destruct Hstep as (S1 & S2 & S3 & S4).
    rewrite H1, H2, H3. repeat split; try assumption.
    intros kv Hin. destruct (H4 kv Hin) as [Hin1 | (fn & Hfn & Hk)].
    + destruct (S4 kv Hin1) as [Hin0 | Hk]; [auto|].
      right. exists name. split; [now left | assumption].
    + right. exists fn. split; [now right | assumption].
Qed.

Lemma user_data_body_object filename data md :
  Merger.user_data
    (Merger.guarded (Merger.user_data_body filename (Parsed data)) md)
  = match account_object filename data with
    | Some o => dict_set (Merger.stem filename) o (Merger.user_data md)
    | None => Merger.user_data md
    end.
Proof.
  unfold Merger.guarded, Merger.user_data_body, account_object,
    Merger.get_or_none, Merger.len_of.
  destruct data as [| | | | | |d];
    try (destruct (String.eqb filename "Identity.json");
         [|destruct (String.eqb filename "Userdata.json")]; reflexivity).
  destruct (String.eqb filename "Identity.json"); [reflexivity|].
  destruct (String.eqb filename "Userdata.json"); [reflexivity|].
  cbn [py_get bind field_or size_of].
  destruct (match dict_get "tracks" d with Some v => v | None => JList [] end)
    as [| | | | s1 | l1 | d1]; try reflexivity;
  destruct (match dict_get "albums" d with Some v => v | None => JList [] end)
    as [| | | | s2 | l2 | d2]; try reflexivity;
  destruct (match dict_get "artists" d with Some v => v | None => JList [] end)
    as [| | | | s3 | l3 | d3]; reflexivity.
Qed.

Lemma account_step_lookup present md filename k :
  dict_get k (Merger.user_data (account_step present md filename))
  = match stored_account present filename with
    | Some o =>
        if String.eqb k (Merger.stem filename) then Some o
        else dict_get k (Merger.user_data md)
    | None => dict_get k (Merger.user_data md)
    end.
Proof.
  unfold account_step, stored_account.
  destruct (present filename) as [[|data]|]; try reflexivity.
  rewrite user_data_body_object.
  destruct (account_object filename data) as [o|]; [|reflexivity].
  destruct (String.eqb k (Merger.stem filename)) eqn:E.
  - apply String.eqb_eq in E. subst k. apply dict_get_set_same.
  - now apply dict_get_set_other.
Qed.

Lemma merge_user_data_lookup present md k :
  dict_get k (Merger.user_data (Merger.merge_user_data present md))
  = match
      (if String.eqb k "YourLibrary"
       then stored_account present "YourLibrary.json" else None),
      (if String.eqb k "Userdata"
       then stored_account present "Userdata.json" else None),
      (if String.eqb k "Identity"
       then stored_account present "Identity.json" else None)
    with
    | Some o, _, _ => Some o
    | None, Some o, _ => Some o
    | None, None, Some o => Some o
    | None, None, None => dict_get k (Merger.user_data md)
    end.
Proof.
  change (Merger.merge_user_data present md)
    with (account_step present
            (account_step present
               (account_step present md "Identity.json") "Userdata.json")
            "YourLibrary.json").
  rewrite !account_step_lookup.
  change (Merger.stem "YourLibrary.json") with "YourLibrary".
  change (Merger.stem "Userdata.json") with "Userdata".
  change (Merger.stem "Identity.json") with "Identity".
  destruct (stored_account present "YourLibrary.json"),
    (stored_account present "Userdata.json"),
    (stored_account present "Identity.json"),
    (String.eqb k "YourLibrary"), (String.eqb k "Userdata"),
    (String.eqb k "Identity"); reflexivity.
Qed.

(** X14: merging the account files stores, under the name of each
    file without its extension, an object with exactly the three
    fields allowed for that file; nothing else of the account files
    reaches the user data, and the streaming history, the playlists
    and [total_streams] are not touched.  The object is stored
    whenever the file exists, parses and its fields can be read: the
    three named fields of an object ([null] for a missing one) for
    Identity and Userdata, the three lengths for YourLibrary.  When
    nothing is stored for a name the entry under it, and every entry
    under another key, stays as it was. *)
Theorem X14_user_data_allow_list present md :
  let md' := Merger.merge_user_data present md in
  Merger.streaming_history md' = Merger.streaming_history md /\
  Merger.playlists md' = Merger.playlists md /\
  Merger.total_streams md' = Merger.total_streams md /\
  (forall kv, In kv (Merger.user_data md') ->
     In kv (Merger.user_data md) \/
     exists filename,
       In filename Merger.user_data_files /\
       fst kv = Merger.stem filename /\
       has_keys (allowed_fields filename) (snd kv) = true) /\
  (forall filename,
     In filename Merger.user_data_files ->
     dict_get (Merger.stem filename) (Merger.user_data md')
     = match stored_account present filename with
       | Some o => Some o
       | None => dict_get (Merger.stem filename) (Merger.user_data md)
       end) /\
  (forall k,
     ~ In k (map Merger.stem Merger.user_data_files) ->
     dict_get k (Merger.user_data md') = dict_get k (Merger.user_data md)).
Proof.
  cbv zeta.
  destruct (merge_user_data_fold present Merger.user_data_files md)
    as (H1 & H2 & H3 & H4).
  split; [exact H1|]. split; [exact H2|]. split; [exact H3|].
  split; [exact H4|]. split.
  - intros filename Hin. rewrite merge_user_data_lookup.
    destruct Hin as [<-|[<-|[<-|[]]]];
      cbn [Merger.stem String.eqb Ascii.eqb Bool.eqb];
      destruct (stored_account present "YourLibrary.json"),
        (stored_account present "Userdata.json"),
        (stored_account present "Identity.json"); reflexivity.
  - intros k Hk. rewrite merge_user_data_lookup.
    assert (E1 : String.eqb k "YourLibrary" = false).
    { apply String.eqb_neq. intros ->. apply Hk. simpl. auto. }
    assert (E2 : String.eqb k "Userdata" = false).
    { apply String.eqb_neq. intros ->. apply Hk. simpl. auto. }
    assert (E3 : String.eqb k "Identity" = false).
    { apply String.eqb_neq. intros ->. apply Hk. simpl. auto. }
    now rewrite E1, E2, E3.
Qed.

Lemma X14_user_data_allow_list_witness :
  dict_get "Identity"
    (Merger.user_data
       (Merger.merge_user_data two_account_files Merger.init_merged))
  = Some (JDict [ ("country", JStr "NO"); ("birthdate", JNull);
                  ("gender", JNull) ]) /\
  dict_get "Userdata"
    (Merger.user_data
       (Merger.merge_user_data two_account_files Merger.init_merged))
  = None.
Proof.
  pose proof (X14_user_data_allow_list two_account_files Merger.init_merged)
    as H.
  cbv zeta in H. destruct H as (_ & _ & _ & _ & H & _).
  split.
  - exact (H "Identity.json" (or_introl eq_refl)).
  - exact (H "Userdata.json" (or_intror (or_introl eq_refl))).
Defined.

(** ** Merger: the cleaning step, further *)

Section CleaningMore.
Import Merger.

Lemma dict_set_same k v d : dict_get k d = Some v -> dict_set k v d = d.
Proof.
  induction d as [|[k0 v0] r IH]; simpl; [discriminate|].
  destruct (String.eqb k k0) eqn:E.
  - intros [= ->]. reflexivity.
  - intros H. now rewrite IH.
Qed.

Lemma clean_entry_cleaned r :
  cleaned_record r = true -> clean_entry r = Ok (Some r).
Proof.
  unfold cleaned_record, clean_entry, get_or_none, field, is_positive_int.
  destruct r as [| | | | | |d]; try discriminate. cbn [py_get bind].
  intros H. repeat (apply andb_true_iff in H as [H ?]).
  rewrite H. cbn [negb].
  match goal with Ha : truthy _ = true |- _ => rewrite Ha end. cbn [negb].
  match goal with Ha : truthy _ = true |- _ => rewrite Ha end. cbn [negb].
  destruct (dict_get "msPlayed" d) as [[| |n| | | |]|] eqn:E;
    try discriminate.
  match goal with Hn : (0 <? n)%Z = true |- _ =>
    assert (Ht : truthy (JInt n) = true)
      by (simpl; apply Z.ltb_lt in Hn; destruct (Z.eqb_spec n 0); [lia|easy]);
    rewrite Ht; cbn [negb py_int]; rewrite Hn
  end.
  now rewrite dict_set_same.
Qed.

Lemma clean_loop_cleaned l :
  Forall (fun r => cleaned_record r = true) l ->
  forall acc, clean_loop l acc = Ok (acc ++ l).
Proof.
  induction 1 as [|r rest Hr _ IH]; intros acc; simpl.
  - now rewrite app_nil_r.
  - rewrite (clean_entry_cleaned r Hr). simpl.
    rewrite IH, <- app_assoc. reflexivity.
Qed.

Lemma clean_streaming_data_again md md' :
  clean_streaming_data md = Ok md' -> clean_streaming_data md' = Ok md'.
Proof.
  unfold clean_streaming_data. intros H.
  destruct (clean_loop (streaming_history md) []) as [out|] eqn:E;
    [|discriminate].
  simpl in H. injection H as <-. simpl.
  rewrite clean_loop_cleaned.
  - reflexivity.
  - apply (clean_loop_records _ _ _ E). constructor.
Qed.

(** What an iteration keeps is its entry with [msPlayed] replaced by
    the integer it converts to. *)
Lemma clean_entry_source entry kept :
  clean_entry entry = Ok (Some kept) ->
  exists d n,
    entry = JDict d /\ kept = JDict (dict_set "msPlayed" (JInt n) d) /\
    py_int (field "msPlayed" entry) = Ok n.
Proof.
  unfold clean_entry, get_or_none, field.
  destruct entry as [| | | | | |d]; try discriminate. cbn [py_get bind].
  destruct (negb (truthy _)); [discriminate|].
  destruct (negb (truthy _)); [discriminate|].
  destruct (negb (truthy _)); [discriminate|].
  destruct (negb (truthy _)); [discriminate|].
  destruct (py_int _) as [n|e] eqn:E; [|destruct e; discriminate].
  destruct (0 <? n)%Z; [|discriminate].
  intros [= <-]. exists d, n. auto.
Qed.

Lemma clean_loop_source entries :
  forall acc out,
    clean_loop entries acc = Ok out ->
    (List.length out <= List.length acc + List.length entries)%nat /\
    forall r, In r out ->
      In r acc \/
      exists d n,
        In (JDict d) entries /\
        r = JDict (dict_set "msPlayed" (JInt n) d) /\
        py_int (field "msPlayed" (JDict d)) = Ok n.
Proof.
  induction entries as [|e rest IH]; simpl; intros acc out H.
  - injection H as <-. split; [lia | auto].
  - destruct (clean_entry e) as [[kept|]|] eqn:E; simpl in H;
      [| |discriminate].
    + destruct (IH _ _ H) as [Hlen Hsrc]. split.
      * rewrite length_app in Hlen. simpl in Hlen. lia.
      * intros r Hr. destruct (Hsrc r Hr) as [Hin | (d & n & Hd & Hk)].
        -- apply in_app_or in Hin as [Hin | [<- | []]]; [auto|].
           right. destruct (clean_entry_source e kept E)
             as (d & n & -> & -> & Hn).
           exists d, n. auto.
        -- right. exists d, n. auto.
    + destruct (IH _ _ H) as [Hlen Hsrc]. split; [lia|].
      intros r Hr. destruct (Hsrc r Hr) as [Hin | (d & n & Hd & Hk)];
        [auto|].
      right. exists d, n. auto.
Qed.

Lemma clean_entry_ok entry :
  is_ok (clean_entry entry) = negb (raises_in_cleaning entry).
Proof.
  unfold clean_entry, get_or_none, raises_in_cleaning, field.
  destruct entry as [| | | | | |d]; try reflexivity. cbn [py_get bind].
  destruct (truthy (match dict_get "trackName" d with
                    | Some v => v | None => JNull end)); [|reflexivity].
  destruct (truthy (match dict_get "artistName" d with
                    | Some v => v | None => JNull end)); [|reflexivity].
  destruct (truthy (match dict_get "endTime" d with
                    | Some v => v | None => JNull end)); [|reflexivity].
  cbn [negb andb].
  destruct (match dict_get "msPlayed" d with
            | Some v => v | None => JNull end) as [| b | z | f | s | l | m];
    try reflexivity.
  - now destruct b.
  - simpl. now destruct (z =? 0)%Z, (0 <? z)%Z.
  - destruct f as [sg | sg | | sg mm ee]; try reflexivity.
    simpl. now destruct (0 <? _)%Z.
  - simpl. destruct (negb (String.eqb s "")); [|reflexivity].
    pose proof (py_int_raises (JStr s)) as Hr.
    pose proof (py_int_no_overflow (JStr s) I) as Hno.
    cbn [py_int] in Hr, Hno.
    destruct (int_of_str s) as [n|e].
    + now destruct (0 <? n)%Z.
    + destruct (Hr e eq_refl) as [-> | [-> | ->]];
        [reflexivity | reflexivity | congruence].
  - now destruct l.
  - now destruct m.
Qed.

Lemma clean_loop_ok entries :
  forall acc,
    is_ok (clean_loop entries acc)
    = negb (existsb raises_in_cleaning entries).
Proof.
  induction entries as [|e rest IH]; intros acc; simpl; [reflexivity|].
  pose proof (clean_entry_ok e) as He.
  destruct (clean_entry e) as [[kept|]|]; simpl in *;
    destruct (raises_in_cleaning e); try discriminate; simpl; auto.
Qed.

End CleaningMore.

(** X15: cleaning is idempotent: a document that the cleaning step
    returned goes through it again unchanged. *)
Theorem X15_cleaning_idempotent md md' :
  Merger.clean_streaming_data md = Ok md' ->
  Merger.clean_streaming_data md' = Ok md'.
Proof. apply clean_streaming_data_again. Qed.

Lemma X15_cleaning_idempotent_witness :
  Merger.clean_streaming_data odd_history = Ok odd_history_cleaned /\
  Merger.clean_streaming_data odd_history_cleaned = Ok odd_history_cleaned.
Proof.
  split; [reflexivity|].
  apply (X15_cleaning_idempotent odd_history odd_history_cleaned).
  reflexivity.
Defined.

(** X16: cleaning never adds records, and every record it keeps is a
    record of the input with nothing changed but msPlayed, which is
    replaced by the integer it converts to. *)
Theorem X16_cleaned_from_input md md' :
  Merger.clean_streaming_data md = Ok md' ->
  (Merger.total_streams md' <= List.length (Merger.streaming_history md))%nat
  /\ forall r, In r (Merger.streaming_history md') ->
       exists d n,
         In (JDict d) (Merger.streaming_history md) /\
         r = JDict (dict_set "msPlayed" (JInt n) d) /\
         py_int (field "msPlayed" (JDict d)) = Ok n.
Proof.
  unfold Merger.clean_streaming_data. intros H.
  destruct (Merger.clean_loop _ _) as [out|] eqn:E; [|discriminate].
  simpl in H. injection H as <-. simpl.
  destruct (clean_loop_source _ _ _ E) as [Hlen Hsrc]. split.
  - simpl in Hlen. lia.
  - intros r Hr. destruct (Hsrc r Hr) as [[] | Hex]. exact Hex.
Qed.

Lemma X16_cleaned_from_input_witness :
  Merger.clean_streaming_data odd_history = Ok odd_history_cleaned /\
  (Merger.total_streams odd_history_cleaned
   <= List.length (Merger.streaming_history odd_history))%nat.
Proof.
  split; [reflexivity|].
  apply (X16_cleaned_from_input odd_history odd_history_cleaned).
  reflexivity.
Defined.

(** X17: the cleaning step raises exactly when some entry of the
    history is not an object, or has truthy trackName, artistName and
    endTime together with an infinite msPlayed; on every other history
    it returns. *)
Theorem X17_cleaning_raises_exactly md :
  is_ok (Merger.clean_streaming_data md)
  = negb (existsb raises_in_cleaning (Merger.streaming_history md)).
Proof.
  unfold Merger.clean_streaming_data.
  rewrite <- (clean_loop_ok _ []).
  now destruct (Merger.clean_loop _ _).
Qed.

(** ** Merger: a whole run *)

Lemma user_data_body_counted filename c md :
  Merger.files_processed (Merger.guarded (Merger.user_data_body filename c) md)
  = (Merger.files_processed md
     + (if is_ok (Merger.user_data_body filename c Merger.init_merged)
        then 1 else 0))%nat.
Proof.
  unfold Merger.guarded, Merger.user_data_body.
  destruct c as [|data]; [simpl; lia|].
  match goal with
  | |- context [bind ?X _] => destruct X as [safe|]
  end; simpl; lia.
Qed.

Lemma account_steps_counted present names :
  forall md,
    Merger.files_processed (fold_left (account_step present) names md)
    = (Merger.files_processed md
       + List.length (filter (account_counted present) names))%nat.
Proof.
  induction names as [|name rest IH]; intros md; [simpl; lia|].
  cbn [fold_left]. rewrite IH, filter_length_cons.
  assert (Hstep :
    Merger.files_processed (account_step present md name)
    = (Merger.files_processed md
       + (if account_counted present name then 1 else 0))%nat).
  { unfold account_step, account_counted.
    destruct (present name) as [c|]; [|lia].
    apply user_data_body_counted. }
  lia.
Qed.

Lemma clean_streaming_data_frame md md' :
  Merger.clean_streaming_data md = Ok md' ->
  Merger.playlists md' = Merger.playlists md /\
  Merger.user_data md' = Merger.user_data md /\
  Merger.files_processed md' = Merger.files_processed md.
Proof.
  unfold Merger.clean_streaming_data. intros H.
  destruct (Merger.clean_loop _ _) as [out|]; [|discriminate].
  simpl in H. injection H as <-. auto.
Qed.

Lemma merge_playlists_contents playlist_files md :
  Merger.playlists (Merger.merge_playlists playlist_files md)
  = Merger.playlists md ++ flat_map playlist_contribution playlist_files.
Proof.
  unfold Merger.merge_playlists. revert md.
  induction playlist_files as [|f rest IH]; simpl; intros md.
  - now rewrite app_nil_r.
  - rewrite IH, playlists_step. now rewrite app_assoc.
Qed.

Lemma clean_streaming_data_length md md' :
  Merger.clean_streaming_data md = Ok md' ->
  (Merger.total_streams md' <= List.length (Merger.streaming_history md))%nat.
Proof.
  unfold Merger.clean_streaming_data. intros H.
  destruct (Merger.clean_loop _ _) as [out|] eqn:E; [|discriminate].
  simpl in H. injection H as <-. simpl.
  destruct (clean_loop_source _ _ _ E) as [Hlen _]. simpl in Hlen. lia.
Qed.

(** X18: when a run of the merger returns, the playlists are what the
    playlist files contribute, in order; [files_processed] is the
    number of streaming files holding an array plus the number of
    playlist files counted plus the number of account files read
    without error; and [total_streams], the length of the cleaned
    history, is at most the number of records in the streaming
    files. *)
Theorem X18_run_summary streaming_files playlist_files present md' :
  Merger.run streaming_files playlist_files present = Ok md' ->
  Merger.playlists md' = flat_map playlist_contribution playlist_files /\
  Merger.files_processed md'
  = (List.length (filter is_array_file streaming_files)
     + List.length (filter playlists_counted playlist_files)
     + List.length (filter (account_counted present)
                      Merger.user_data_files))%nat /\
  Merger.total_streams md' = List.length (Merger.streaming_history md') /\
  (Merger.total_streams md'
   <= List.length (flat_map array_contents streaming_files))%nat.
Proof.
  unfold Merger.run. intros H.
  set (m1 := Merger.merge_streaming_history streaming_files
               Merger.init_merged) in *.
  set (m2 := Merger.merge_playlists playlist_files m1) in *.
  set (m3 := Merger.merge_user_data present m2) in *.
  pose proof (merge_streaming_history_spec streaming_files
                Merger.init_merged) as A. cbv zeta in A. fold m1 in A.
  destruct A as (A1 & A2 & A3 & A4 & A5).
  pose proof (merge_playlists_frame playlist_files m1) as B.
  cbv zeta in B. fold m2 in B. destruct B as (B1 & B2 & B3 & B4).
  pose proof (merge_user_data_fold present Merger.user_data_files m2) as C.
  cbv zeta in C. destruct C as (C1 & C2 & C3 & _).
  change (fold_left (account_step present) Merger.user_data_files m2)
    with m3 in C1, C2, C3.
  pose proof (account_steps_counted present Merger.user_data_files m2) as C4.
  change (fold_left (account_step present) Merger.user_data_files m2)
    with m3 in C4.
  destruct (clean_streaming_data_frame m3 md' H) as (D1 & D2 & D3).
  pose proof (clean_streaming_data_count m3 md' H) as D4.
  pose proof (clean_streaming_data_length m3 md' H) as D5.
  repeat split.
  - rewrite D1, C2. unfold m2.
    rewrite merge_playlists_contents, A3. reflexivity.
  - rewrite D3, C4, B1, A2. simpl. lia.
  - exact D4.
  - rewrite C1, B2, A1 in D5. simpl in D5. exact D5.
Qed.

Lemma X18_run_summary_witness :
  exists md',
    Merger.run small_streaming_files [text_playlists] two_account_files
    = Ok md' /\
    Merger.files_processed md' = 3%nat /\
    Merger.total_streams md' = 1%nat.
Proof.
  destruct (Merger.run small_streaming_files [text_playlists]
              two_account_files) as [md'|e] eqn:E;
    [|vm_compute in E; discriminate].
  exists md'. split; [reflexivity|].
  destruct (X18_run_summary _ _ _ _ E) as (_ & Hp & Ht & _).
  split.
  - rewrite Hp. reflexivity.
  - rewrite Ht. vm_compute in E. injection E as <-. reflexivity.
Defined.

(** ** Scanner: what is inspected *)

Lemma analyze_list l context :
  Scanner._analyze_json_structure (JList l) context
  = analyze_each context l 0.
Proof.
  simpl. generalize 0%nat.
  induction l as [|item rest IH]; intros i; simpl; [reflexivity|].
  now rewrite IH.
Qed.

Lemma analyze_dict d context :
  Scanner._analyze_json_structure (JDict d) context
  = analyze_items context d.
Proof.
  simpl. induction d as [|[key value] rest IH]; simpl; [reflexivity|].
  now rewrite IH.
Qed.

Lemma objectless_no_issues v :
  objectless v = true ->
  forall context, Scanner._analyze_json_structure v context = [].
Proof.
  induction v as [| b | z | f | s | l IH | d IH] using json_ind;
    intros Hv context; try reflexivity; [|discriminate].
  rewrite analyze_list. simpl in Hv. generalize 0%nat.
  induction IH as [|item rest Hitem _ IHrest]; intros i; [reflexivity|].
  simpl in Hv. apply andb_true_iff in Hv as [Hi Hr].
  cbn [analyze_each]. rewrite (IHrest Hr), app_nil_r.
  destruct (Scanner.is_container item); [|reflexivity].
  now apply Hitem.
Qed.

(** X19: the scanner looks at values only as values of object keys.
    A document made of arrays and scalars, with no object at any
    depth, yields no structural issue whatever its texts and numbers
    hold, so its file is judged by its path alone. *)
Theorem X19_arrays_not_inspected path data :
  objectless data = true ->
  (forall context, Scanner._analyze_json_structure data context = []) /\
  Scanner.file_issues path data = Scanner.path_issues path.
Proof.
  intros H. split.
  - now apply objectless_no_issues.
  - unfold Scanner.file_issues.
    now rewrite objectless_no_issues, app_nil_r.
Qed.

Lemma X19_arrays_not_inspected_witness :
  objectless array_of_texts = true /\
  Scanner.file_issues "Spotify Account Data/Marquee.json" array_of_texts
  = [] /\
  Scanner._check_field_value (JStr "a@b.com") "Marquee.json.note" <> [].
Proof.
  split; [reflexivity|]. split.
  - rewrite (proj2 (X19_arrays_not_inspected
                      "Spotify Account Data/Marquee.json" array_of_texts
                      eq_refl)).
    reflexivity.
  - vm_compute. discriminate.
Defined.

(** ** Scanner and sanitizer: the removal list *)

(** Every entry of the removal list is a sensitive field of some tier,
    and every high-risk field is an entry of the removal list. *)
Lemma remove_fields_are_sensitive remove_field :
  In remove_field Sanitizer.remove_fields ->
  exists tier, In tier Scanner.sensitive_fields /\ In remove_field (snd tier).
Proof.
  intros H.
  assert (E : forallb
                (fun rf => existsb
                   (fun t => existsb (String.eqb rf) (snd t))
                   Scanner.sensitive_fields)
                Sanitizer.remove_fields = true)
    by (vm_compute; reflexivity).
  rewrite forallb_forall in E. specialize (E _ H).
  apply existsb_exists in E as (tier & Ht & E).
  apply existsb_exists in E as (sf & Hsf & E).
  apply String.eqb_eq in E. subst sf. eauto.
Qed.

Lemma high_risk_are_removed tier sensitive_field :
  In tier Scanner.sensitive_fields -> In sensitive_field (snd tier) ->
  fst tier = "high_risk" ->
  existsb (String.eqb sensitive_field) Sanitizer.remove_fields = true.
Proof.
  intros Ht Hsf Hhigh.
  assert (E : forallb
                (fun t => negb (String.eqb (fst t) "high_risk")
                          || forallb
                               (fun sf => existsb (String.eqb sf)
                                            Sanitizer.remove_fields)
                               (snd t))
                Scanner.sensitive_fields = true)
    by (vm_compute; reflexivity).
  rewrite forallb_forall in E. specialize (E _ Ht).
  rewrite Hhigh in E. simpl in E.
  rewrite forallb_forall in E. now apply E.
Qed.

(** The field matches that [_check_field_name] reports. *)
Lemma check_field_name_matches key context i :
  In i (Scanner._check_field_name key context) ->
  (exists tier sensitive_field,
     i = Scanner.FieldMatches key context (fst tier) sensitive_field /\
     In tier Scanner.sensitive_fields /\ In sensitive_field (snd tier) /\
     contains (lower sensitive_field) (lower key) = true) \/
  (exists pattern_name, i = Scanner.FieldNameContains key context pattern_name).
Proof.
  unfold Scanner._check_field_name. intros H.
  apply in_app_or in H as [H|H].
  - left. apply in_flat_map in H as (tier & Ht & H).
    apply in_flat_map in H as (sf & Hsf & H).
    destruct (contains (lower sf) (lower key)) eqn:E; [|destruct H].
    destruct H as [<-|[]]. exists tier, sf. auto.
  - right. apply in_flat_map in H as (p & _ & H).
    destruct (search (snd p) key); [|destruct H].
    destruct H as [<-|[]]. eauto.
Qed.

Lemma check_field_name_reports key context tier sensitive_field :
  In tier Scanner.sensitive_fields -> In sensitive_field (snd tier) ->
  contains (lower sensitive_field) (lower key) = true ->
  In (Scanner.FieldMatches key context (fst tier) sensitive_field)
     (Scanner._check_field_name key context).
Proof.
  intros Ht Hsf E. unfold Scanner._check_field_name.
  apply in_or_app. left.
  apply in_flat_map. exists tier. split; [assumption|].
  apply in_flat_map. exists sensitive_field. split; [assumption|].
  rewrite E. now left.
Qed.

Lemma removal_issue_removed key context i :
  In i (Scanner._check_field_name key context) ->
  names_removed_field i || at_high_risk i = true ->
  Sanitizer.should_remove key = true.
Proof.
  intros Hin Hi.
  apply check_field_name_matches in Hin
    as [(tier & sf & -> & Ht & Hsf & E) | (pn & ->)]; [|discriminate].
  assert (Hrm : existsb (String.eqb sf) Sanitizer.remove_fields = true).
  { apply orb_true_iff in Hi as [Hi|Hi]; [exact Hi|].
    unfold at_high_risk in Hi. apply String.eqb_eq in Hi.
    now apply (high_risk_are_removed tier). }
  apply existsb_exists in Hrm as (rf & Hrf & Heq).
  apply String.eqb_eq in Heq. subst rf.
  unfold Sanitizer.should_remove. apply existsb_exists. eauto.
Qed.

Lemma removed_key_reported key context :
  Sanitizer.should_remove key = true ->
  existsb names_removed_field (Scanner._check_field_name key context) = true.
Proof.
  unfold Sanitizer.should_remove. intros H.
  apply existsb_exists in H as (rf & Hrf & E).
  destruct (remove_fields_are_sensitive rf Hrf) as (tier & Ht & Hsf).
  apply existsb_exists.
  exists (Scanner.FieldMatches key context (fst tier) rf). split.
  - now apply check_field_name_reports.
  - unfold names_removed_field.
    apply existsb_exists. exists rf. split; [assumption|].
    apply String.eqb_refl.
Qed.

(** X20: the sanitizer removes a key exactly when the scanner reports
    a field match for it against an entry of the removal list; and
    every field match that the scanner reports at high risk is such a
    match, so a key reported at high risk is always removed. *)
Theorem X20_removed_keys_reported key context :
  Sanitizer.should_remove key
  = existsb names_removed_field (Scanner._check_field_name key context) /\
  forallb (fun i => implb (at_high_risk i) (names_removed_field i))
    (Scanner._check_field_name key context) = true /\
  implb (existsb at_high_risk (Scanner._check_field_name key context))
    (Sanitizer.should_remove key) = true.
Proof.
  split; [|split].
  - destruct (Sanitizer.should_remove key) eqn:E.
    + symmetry. now apply removed_key_reported.
    + symmetry. apply not_true_is_false. intros H.
      apply existsb_exists in H as (i & Hin & Hi).
      rewrite (removal_issue_removed key context i Hin) in E;
        [discriminate|].
      now rewrite Hi.
  - apply forallb_forall. intros i Hin.
    destruct (at_high_risk i) eqn:Hh; [|reflexivity]. simpl.
    apply check_field_name_matches in Hin
      as [(tier & sf & -> & Ht & Hsf & E) | (pn & ->)]; [|discriminate].
    unfold at_high_risk in Hh. unfold names_removed_field.
    apply String.eqb_eq in Hh.
    now apply (high_risk_are_removed tier).
  - destruct (existsb at_high_risk _) eqn:H; [|reflexivity]. simpl.
    apply existsb_exists in H as (i & Hin & Hi).
    apply (removal_issue_removed key context i Hin).
    rewrite Hi. apply orb_true_r.
Qed.

Lemma check_field_value_no_match value context :
  existsb (fun i => names_removed_field i || at_high_risk i)
    (Scanner._check_field_value value context) = false.
Proof.
  apply not_true_is_false. intros H.
  apply existsb_exists in H as (i & Hin & Hi).
  unfold Scanner._check_field_value in Hin.
  destruct value as [| b | z | f | s | l | d]; try destruct Hin.
  - destruct (1000000000000 <? z)%Z; [|destruct Hin].
    destruct Hin as [<-|[]]. discriminate.
  - destruct (SFltb Scanner.large_threshold f); [|destruct Hin].
    destruct Hin as [<-|[]]. discriminate.
  - apply in_flat_map in Hin as (p & _ & Hin).
    destruct (findall (snd p) s); [destruct Hin|].
    destruct Hin as [<-|[]]. discriminate.
Qed.

Lemma clean_document_scan v :
  keys_clean v = true ->
  forall context,
    existsb (fun i => names_removed_field i || at_high_risk i)
      (Scanner._analyze_json_structure v context) = false.
Proof.
  induction v as [| b | z | f | s | l IH | d IH] using json_ind;
    intros Hv context; try reflexivity.
  - rewrite analyze_list. rewrite keys_clean_list in Hv.
    generalize 0%nat.
    induction IH as [|item rest Hitem _ IHrest]; intros i; [reflexivity|].
    simpl in Hv. apply andb_true_iff in Hv as [Hi Hr].
    cbn [analyze_each]. rewrite existsb_app, (IHrest Hr), orb_false_r.
    destruct (Scanner.is_container item); [|reflexivity].
    now apply Hitem.
  - rewrite analyze_dict. rewrite keys_clean_dict in Hv.
    induction IH as [|[key value] rest Hvalue _ IHrest]; [reflexivity|].
    simpl in Hv. apply andb_true_iff in Hv as [Hkv Hr].
    apply andb_true_iff in Hkv as [Hk Hval].
    cbn [analyze_items]. rewrite !existsb_app.
    rewrite check_field_value_no_match, (IHrest Hr), !orb_false_r.
    simpl in Hvalue.
    assert (Hnested :
      existsb (fun i => names_removed_field i || at_high_risk i)
        (if Scanner.is_container value
         then Scanner._analyze_json_structure value (context ++ "." ++ key)
         else []) = false).
    { destruct (Scanner.is_container value); [|reflexivity].
      now apply Hvalue. }
    rewrite Hnested, orb_false_r.
    apply not_true_is_false. intros H.
    apply existsb_exists in H as (i & Hin & Hi).
    pose proof (removal_issue_removed key context i Hin Hi) as Hrm.
    rewrite clean_key_spec, Hrm in Hk. discriminate.
Qed.

(** X21: scanning a document that object sanitization returned never
    reports a field match at high risk, nor a field match against any
    entry of the removal list, at any depth and whatever the input
    was. *)
Theorem X21_sanitized_scan obj st context :
  existsb (fun i => names_removed_field i || at_high_risk i)
    (Scanner._analyze_json_structure
       (fst (Sanitizer.sanitize_object obj st)) context) = false.
Proof.
  rewrite sanitize_object_doc.
  apply clean_document_scan, sanitized_keys_clean.
Qed.

(** ** Scanner: what is recorded for a file *)

Lemma analyze_file_recorded f res :
  ~ In (f_path f) (map fst (Scanner.sensitive_data_found res)) ->
  Scanner.risky_files (Scanner.analyze_file f res)
  = Scanner.risky_files res ++ risky_entry f /\
  Scanner.sensitive_data_found (Scanner.analyze_file f res)
  = Scanner.sensitive_data_found res ++ found_entry f.
Proof.
  unfold Scanner.analyze_file, found_entry, risky_entry, unreadable.
  intros Hfresh.
  destruct (f_content f) as [|data]; simpl.
  - now rewrite app_nil_r.
  - destruct (Scanner.file_issues (f_path f) data) as [|i issues]; simpl.
    + now rewrite !app_nil_r.
    + split; [reflexivity|].
      induction (Scanner.sensitive_data_found res) as [|[k v] m IH];
        [reflexivity|].
      simpl in Hfresh |- *.
      destruct (String.eqb k (f_path f)) eqn:E.
      * apply String.eqb_eq in E. elim Hfresh. now left.
      * f_equal. apply IH. intros H. apply Hfresh. now right.
Qed.

Lemma found_entry_path f p :
  In p (map fst (found_entry f)) -> p = f_path f.
Proof.
  unfold found_entry, risky_entry.
  destruct (unreadable f); [intros []|].
  destruct (f_content f) as [|data]; simpl.
  - intros [<-|[]]. reflexivity.
  - destruct (Scanner.file_issues (f_path f) data); simpl;
      [intros [] | intros [<-|[]]; reflexivity].
Qed.

Lemma analyze_all_recorded files :
  NoDup (map f_path files) ->
  forall res,
    (forall p, In p (map fst (Scanner.sensitive_data_found res)) ->
               ~ In p (map f_path files)) ->
    Scanner.risky_files (Scanner.analyze_all_files files res)
    = Scanner.risky_files res ++ flat_map risky_entry files /\
    Scanner.sensitive_data_found (Scanner.analyze_all_files files res)
    = Scanner.sensitive_data_found res ++ flat_map found_entry files.
Proof.
  unfold Scanner.analyze_all_files.
  induction files as [|f rest IH]; intros Hnd res Hfresh.
  - simpl. now rewrite !app_nil_r.
  - simpl in Hnd. apply NoDup_cons_iff in Hnd as [Hf Hnd].
    destruct (analyze_file_recorded f res) as [Hr Hs].
    { intros H. apply (Hfresh _ H). now left. }
    cbn [fold_left flat_map].
    destruct (IH Hnd (Scanner.analyze_file f res)) as [Hr' Hs'].
    { intros p Hp. rewrite Hs, map_app in Hp.
      apply in_app_or in Hp as [Hp|Hp].
      - intros Hin. apply (Hfresh _ Hp). now right.
      - apply found_entry_path in Hp. now subst p. }
    rewrite Hr', Hs', Hr, Hs, <- !app_assoc. split; reflexivity.
Qed.

(** X22: over files with distinct paths, [risky_files] lists in scan
    order each unreadable file with the single issue "Error reading
    file" and each parsed file that has issues with all of its issues;
    [sensitive_data_found] holds the same entries without the
    unreadable files. *)
Theorem X22_recorded_issues files :
  NoDup (map f_path files) ->
  Scanner.risky_files (Scanner.analyze_all_files files Scanner.init_results)
  = flat_map risky_entry files /\
  Scanner.sensitive_data_found
    (Scanner.analyze_all_files files Scanner.init_results)
  = flat_map found_entry files.
Proof.
  intros Hnd.
  apply (analyze_all_recorded files Hnd Scanner.init_results).
  intros p [].
Qed.

Lemma X22_recorded_issues_witness :
  NoDup (map f_path three_files) /\
  map fst (Scanner.risky_files
             (Scanner.analyze_all_files three_files Scanner.init_results))
  = [ "Spotify Account Data/Userdata.json";
      "Spotify Account Data/Inferences.json" ] /\
  map fst (Scanner.sensitive_data_found
             (Scanner.analyze_all_files three_files Scanner.init_results))
  = [ "Spotify Account Data/Userdata.json" ].
Proof.
  assert (Hnd : NoDup (map f_path three_files)).
  { simpl. repeat constructor; simpl; intuition discriminate. }
  split; [exact Hnd|].
  destruct (X22_recorded_issues three_files Hnd) as [-> ->].
  split; vm_compute; reflexivity.
Defined.

(** ** Reporter: the artist tallies *)

Section ArtistReport.
Import Reporter.

Lemma key_eq_str a k :
  key_eq (JStr a) k
  = match k with JStr b => String.eqb a b | _ => false end.
Proof. now destruct k. Qed.

Lemma dd_find_put_same a v s :
  dd_find (JStr a) (dd_put (JStr a) v s) = Some v.
Proof.
  induction s as [|[k' v'] r IH]; cbn [dd_put dd_find].
  - rewrite key_eq_str, String.eqb_refl. reflexivity.
  - destruct (key_eq (JStr a) k') eqn:E; cbn [dd_find]; rewrite E;
      [reflexivity | exact IH].
Qed.

Lemma dd_find_put_other a b v s :
  a <> b -> dd_find (JStr a) (dd_put (JStr b) v s) = dd_find (JStr a) s.
Proof.
  intros Hab. apply String.eqb_neq in Hab.
  induction s as [|[k' v'] r IH]; cbn [dd_put dd_find].
  - now rewrite key_eq_str, Hab.
  - destruct (key_eq (JStr b) k') eqn:E; cbn [dd_find].
    + rewrite key_eq_str in E. destruct k'; try discriminate.
      apply String.eqb_eq in E. subst.
      now rewrite key_eq_str, Hab.
    + now rewrite IH.
Qed.

Lemma dd_put_keys b v s :
  forall names,
    map fst s = map JStr names ->
    map fst (dd_put (JStr b) v s)
    = map JStr (if existsb (String.eqb b) names then names
                else names ++ [b]).
Proof.
  induction s as [|[k' v'] r IH]; intros [|c ns] H; try discriminate.
  - reflexivity.
  - simpl in H. injection H as -> Hr.
    cbn [dd_put existsb]. rewrite key_eq_str.
    destruct (String.eqb b c); cbn [orb].
    + simpl. now rewrite Hr.
    + cbn [map fst]. rewrite (IH ns Hr).
      now destruct (existsb (String.eqb b) ns).
Qed.

Lemma existsb_eqb_in b names :
  existsb (String.eqb b) names = true <-> In b names.
Proof.
  rewrite existsb_exists. split.
  - intros (c & Hc & E). apply String.eqb_eq in E. now subst.
  - intros H. exists b. split; [assumption | apply String.eqb_refl].
Qed.

Lemma nodup_snoc (names : list string) b :
  NoDup names -> ~ In b names -> NoDup (names ++ [b]).
Proof.
  induction 1 as [|c ns Hc Hns IH]; intros Hb; simpl.
  - constructor; [intros [] | constructor].
  - constructor.
    + intros H. apply in_app_or in H as [H|[<-|[]]]; [contradiction|].
      apply Hb. now left.
    + apply IH. intros H. apply Hb. now right.
Qed.

Lemma plays_of_snoc a seen entry :
  plays_of a (seen ++ [entry])
  = (plays_of a seen + (if counts_for a entry then 1 else 0))%nat.
Proof.
  unfold plays_of. rewrite filter_app, length_app. simpl.
  now destruct (counts_for a entry).
Qed.

Lemma tallied_skip names s seen entry :
  artist_of entry = None ->
  tallied names s seen -> tallied names s (seen ++ [entry]).
Proof.
  intros Hn (Hk & Hnd & Hin & Hget).
  assert (Hp : forall a, plays_of a (seen ++ [entry]) = plays_of a seen).
  { intros a. rewrite plays_of_snoc. unfold counts_for. rewrite Hn. lia. }
  repeat split; try assumption.
  - rewrite Hp. now apply Hin.
  - rewrite Hp. now apply Hin.
  - intros a. now rewrite Hp.
Qed.

Lemma tallied_count names s seen entry b :
  artist_of entry = Some b ->
  tallied names s seen ->
  tallied (if existsb (String.eqb b) names then names else names ++ [b])
    (dd_put (JStr b) (PInt (Z.of_nat (plays_of b seen) + 1)) s)
    (seen ++ [entry]).
Proof.
  intros Hb (Hk & Hnd & Hin & Hget).
  assert (Hp : forall a, plays_of a (seen ++ [entry])
                         = (plays_of a seen
                            + (if String.eqb a b then 1 else 0))%nat).
  { intros a. rewrite plays_of_snoc. unfold counts_for. now rewrite Hb. }
  split; [now apply dd_put_keys|]. split; [|split].
  - destruct (existsb (String.eqb b) names) eqn:E; [assumption|].
    apply nodup_snoc; [assumption|].
    intros H. apply existsb_eqb_in in H. congruence.
  - intros a. rewrite Hp.
    destruct (String.eqb a b) eqn:Eab.
    + apply String.eqb_eq in Eab. subst a. split; [lia|]. intros _.
      destruct (existsb (String.eqb b) names) eqn:E.
      * now apply existsb_eqb_in.
      * apply in_or_app. right. now left.
    + apply String.eqb_neq in Eab. rewrite Nat.add_0_r, <- Hin.
      destruct (existsb (String.eqb b) names); [reflexivity|].
      rewrite in_app_iff. simpl. intuition congruence.
  - intros a. rewrite Hp. unfold dd_get.
    destruct (String.eqb a b) eqn:Eab.
    + apply String.eqb_eq in Eab. subst a.
      rewrite dd_find_put_same. f_equal. lia.
    + apply String.eqb_neq in Eab.
      rewrite (dd_find_put_other a b _ s Eab), Nat.add_0_r.
      apply Hget.
Qed.

Lemma dd_add_put k delta d d' :
  dd_add k delta d = Ok d' -> exists v, d' = dd_put k v d.
Proof.
  unfold dd_add. destruct (hashable k); [|discriminate].
  destruct (num_add (dd_get k d) delta) as [v|]; [|discriminate].
  simpl. intros H. injection H as <-. eauto.
Qed.

Lemma plain_entry_artist entry :
  plain_entry entry = true ->
  exists e, entry = JDict e /\
    match artist_of entry with
    | Some b => dict_get "artistName" e = Some (JStr b) /\ b <> ""
    | None => dict_get "artistName" e = None \/
              dict_get "artistName" e = Some (JStr "")
    end.
Proof.
  unfold plain_entry, artist_of.
  destruct entry as [| | | | | |e]; try discriminate.
  intros H. apply andb_true_iff in H as [Ha _].
  exists e. split; [reflexivity|].
  destruct (dict_get "artistName" e) as [[| | | |a| |]|];
    try discriminate; [|now left].
  destruct (String.eqb a "") eqn:E.
  - apply String.eqb_eq in E. subst. now right.
  - apply String.eqb_neq in E. auto.
Qed.

Lemma count_entry_tallied entry names s t seen s' t' :
  plain_entry entry = true ->
  tallied names s seen -> map fst t = map fst s ->
  count_entry entry (s, t) = Ok (s', t') ->
  exists names', tallied names' s' (seen ++ [entry]) /\
                 map fst t' = map fst s'.
Proof.
  intros Hp Hs Ht H.
  destruct (plain_entry_artist entry Hp) as (e & -> & Ha).
  destruct (artist_of (JDict e)) as [b|] eqn:Hb.
  - destruct Ha as [Ha Hne]. apply String.eqb_neq in Hne.
    unfold count_entry in H. cbn [py_get bind] in H.
    rewrite Ha in H. cbn [truthy] in H. rewrite Hne in H.
    cbn [negb] in H.
    pose proof Hs as (Hk & _ & _ & Hget).
    unfold dd_add at 1 in H. cbn [hashable] in H.
    rewrite Hget in H. cbn [num_add bind] in H.
    destruct (to_num _) as [delta|]; [|discriminate]. cbn [bind] in H.
    destruct (dd_add (JStr b) delta t) as [t1|] eqn:E; [|discriminate].
    cbn [bind] in H. injection H as <- <-.
    destruct (dd_add_put _ _ _ _ E) as [v ->].
    eexists. split; [apply (tallied_count _ _ _ _ b Hb Hs)|].
    rewrite Hk in Ht.
    now rewrite (dd_put_keys b _ t names Ht), (dd_put_keys b _ s names Hk).
  - assert (E : count_entry (JDict e) (s, t) = Ok (s, t)).
    { unfold count_entry. cbn [py_get bind].
      destruct Ha as [-> | ->]; reflexivity. }
    rewrite E in H. injection H as <- <-.
    exists names. split; [now apply tallied_skip | assumption].
Qed.

Lemma count_entries_tallied entries :
  forallb plain_entry entries = true ->
  forall names s t seen s' t',
    tallied names s seen -> map fst t = map fst s ->
    count_entries entries (s, t) = Ok (s', t') ->
    exists names', tallied names' s' (seen ++ entries) /\
                   map fst t' = map fst s'.
Proof.
  induction entries as [|entry rest IH];
    intros Hp names s t seen s' t' Hs Ht H.
  - simpl in H. injection H as <- <-. rewrite app_nil_r. eauto.
  - simpl in Hp. apply andb_true_iff in Hp as [He Hr].
    cbn [count_entries] in H.
    destruct (count_entry entry (s, t)) as [[s1 t1]|] eqn:E;
      [|discriminate].
    cbn [bind] in H.
    destruct (count_entry_tallied _ _ _ _ _ _ _ He Hs Ht E)
      as (names1 & Hs1 & Ht1).
    destruct (IH Hr _ _ _ _ _ _ Hs1 Ht1 H) as (names' & Hs' & Ht').
    rewrite <- app_assoc in Hs'. eauto.
Qed.

Lemma dd_find_in s :
  forall names a v,
    map fst s = map JStr names -> NoDup names ->
    In (JStr a, v) s -> dd_find (JStr a) s = Some v.
Proof.
  induction s as [|[k' v'] r IH]; intros [|c ns] a v Hk Hnd Hin;
    try discriminate; [destruct Hin|].
  simpl in Hk. injection Hk as -> Hr.
  apply NoDup_cons_iff in Hnd as [Hc Hns].
  cbn [dd_find]. rewrite key_eq_str.
  destruct Hin as [E|Hin].
  - injection E as -> ->. now rewrite String.eqb_refl.
  - assert (Ha : In a ns).
    { apply (in_map fst) in Hin. simpl in Hin. rewrite Hr in Hin.
      apply in_map_iff in Hin as (b & E & Hb). now injection E as ->. }
    assert (Hac : String.eqb a c = false).
    { apply String.eqb_neq. intros ->. contradiction. }
    rewrite Hac. now apply (IH ns).
Qed.

Lemma tallied_entry names s seen k v :
  tallied names s seen -> In (k, v) s ->
  exists a, k = JStr a /\ (0 < plays_of a seen)%nat /\
            v = PInt (Z.of_nat (plays_of a seen)).
Proof.
  intros (Hk & Hnd & Hin & Hget) H.
  assert (Ha : exists a, k = JStr a /\ In a names).
  { apply (in_map fst) in H. simpl in H. rewrite Hk in H.
    apply in_map_iff in H as (a & <- & Ha). eauto. }
  destruct Ha as (a & -> & Ha). exists a.
  split; [reflexivity|]. split; [now apply Hin|].
  pose proof (Hget a) as G. unfold dd_get in G.
  now rewrite (dd_find_in s names a v Hk Hnd H) in G.
Qed.

Lemma plays_pos_iff a entries :
  (0 < plays_of a entries)%nat <-> In a (artists_of entries).
Proof.
  unfold plays_of, artists_of.
  induction entries as [|entry rest IH]; simpl; [split; [lia | intros []]|].
  unfold counts_for at 1.
  destruct (artist_of entry) as [b|]; simpl.
  - destruct (String.eqb a b) eqn:E; simpl.
    + apply String.eqb_eq in E. subst. split; [auto | lia].
    + apply String.eqb_neq in E. rewrite IH.
      split; [auto | intros [H|H]; [congruence | assumption]].
  - exact IH.
Qed.

Lemma tallied_length names s seen :
  tallied names s seen ->
  List.length s = List.length (nodup string_dec (artists_of seen)).
Proof.
  intros (Hk & Hnd & Hin & _).
  rewrite <- (length_map fst s), Hk, length_map.
  apply Nat.le_antisymm; apply NoDup_incl_length;
    try assumption; try apply NoDup_nodup; intros a Ha.
  - apply nodup_In, plays_pos_iff, Hin, Ha.
  - apply Hin, plays_pos_iff. now apply nodup_In in Ha.
Qed.

(** The order of the sorted items. *)
Lemma num_ge_int a b : num_ge (PInt a) (PInt b) = (b <=? a)%Z.
Proof.
  unfold num_ge, cmp_num.
  destruct (Z.compare_spec a b); symmetry;
    (apply Z.leb_le || apply Z.leb_gt); lia.
Qed.

Lemma num_gt_int a b : num_gt (PInt a) (PInt b) = (b <? a)%Z.
Proof.
  unfold num_gt, cmp_num.
  destruct (Z.compare_spec a b); symmetry;
    (apply Z.ltb_lt || apply Z.ltb_ge); lia.
Qed.

Lemma insert_desc_descending x l :
  (exists a, snd x = PInt a) ->
  Forall (fun kv => exists a, snd kv = PInt a) l ->
  descending (map snd l) = true ->
  descending (map snd (insert_desc x l)) = true.
Proof.
  intros [a Hx] Hl.
  induction Hl as [|y r [b Hy] Hr IH]; intros Hd; [reflexivity|].
  cbn [map descending] in Hd. apply andb_true_iff in Hd as [Hyr Hdr].
  rewrite forallb_forall in Hyr.
  cbn [insert_desc]. rewrite Hx, Hy, num_gt_int.
  destruct (a <? b)%Z eqn:E.
  - apply Z.ltb_lt in E.
    cbn [map descending]. rewrite (IH Hdr), andb_true_r.
    apply forallb_forall. intros z Hz.
    apply in_map_iff in Hz as (kv & <- & Hkv).
    apply insert_desc_in in Hkv as [-> | Hkv].
    + rewrite Hx, Hy, num_ge_int. apply Z.leb_le. lia.
    + apply Hyr. now apply in_map.
  - apply Z.ltb_ge in E.
    cbn [map descending]. rewrite Hdr, andb_true_r.
    apply andb_true_iff. split.
    + cbn [forallb]. rewrite Hx, Hy, num_ge_int.
      apply andb_true_iff. split; [apply Z.leb_le; lia|].
      apply forallb_forall. intros z Hz.
      pose proof (Hyr z Hz) as Hge.
      apply in_map_iff in Hz as (kv & <- & Hkv).
      rewrite Forall_forall in Hr. destruct (Hr kv Hkv) as [c Hc].
      rewrite Hc in Hge |- *. rewrite Hy in Hge.
      rewrite num_ge_int in Hge |- *.
      apply Z.leb_le in Hge. apply Z.leb_le. lia.
    + apply forallb_forall. intros z Hz. now apply Hyr.
Qed.

Lemma sorted_desc_int l :
  Forall (fun kv => exists a, snd kv = PInt a) l ->
  Forall (fun kv => exists a, snd kv = PInt a) (sorted_desc l).
Proof.
  intros H. apply Forall_forall. intros kv Hkv.
  rewrite Forall_forall in H. now apply H, sorted_desc_in.
Qed.

Lemma sorted_desc_descending l :
  Forall (fun kv => exists a, snd kv = PInt a) l ->
  descending (map snd (sorted_desc l)) = true.
Proof.
  induction 1 as [|x r Hx Hr IH]; [reflexivity|].
  cbn [sorted_desc fold_right].
  apply insert_desc_descending; [assumption | | exact IH].
  now apply sorted_desc_int.
Qed.

Lemma descending_firstn n :
  forall l, descending l = true -> descending (firstn n l) = true.
Proof.
  induction n as [|n IH]; intros [|x r] H; try reflexivity.
  cbn [descending] in H. apply andb_true_iff in H as [Hx Hr].
  cbn [firstn descending]. rewrite (IH r Hr), andb_true_r.
  rewrite forallb_forall in Hx. apply forallb_forall.
  intros y Hy. now apply Hx, (firstn_in n).
Qed.

Lemma sorted_desc_nodup l :
  NoDup (map fst l) -> NoDup (map fst (sorted_desc l)).
Proof.
  induction l as [|x r IH]; intros H; [constructor|].
  simpl in H. apply NoDup_cons_iff in H as [Hx Hr].
  cbn [sorted_desc fold_right]. fold (sorted_desc r).
  specialize (IH Hr).
  assert (Hfresh : ~ In (fst x) (map fst (sorted_desc r))).
  { intros H. apply Hx. apply in_map_iff in H as (kv & E & Hkv).
    rewrite <- E. now apply in_map, sorted_desc_in. }
  induction (sorted_desc r) as [|y q IHq]; simpl.
  - constructor; [intros [] | constructor].
  - simpl in IH, Hfresh. apply NoDup_cons_iff in IH as [Hy Hq].
    destruct (num_gt (snd y) (snd x)); simpl.
    + constructor.
      * intros H. apply in_map_iff in H as (kv & E & Hkv).
        apply insert_desc_in in Hkv as [-> | Hkv].
        -- apply Hfresh. now left.
        -- apply Hy. rewrite <- E. now apply in_map.
      * apply IHq; [assumption|]. intros H. apply Hfresh. now right.
    + constructor; [exact Hfresh|]. now constructor.
Qed.

Lemma nodup_firstn {A} n :
  forall l : list A, NoDup l -> NoDup (firstn n l).
Proof.
  induction n as [|n IH]; intros [|x r] H; simpl; try constructor.
  - apply NoDup_cons_iff in H as [Hx Hr].
    intros Hin. apply Hx. now apply (firstn_in n).
  - apply NoDup_cons_iff in H as [Hx Hr]. now apply IH.
Qed.

Lemma map_result_map {A B C} (f : A -> result B) (g : B -> C)
  (h : A -> C) l :
  (forall x y, f x = Ok y -> g y = h x) ->
  forall ys, map_result f l = Ok ys -> map g ys = map h l.
Proof.
  intros Hf. induction l as [|x r IH]; simpl; intros ys H.
  - now injection H as <-.
  - destruct (f x) as [y|] eqn:E; [|discriminate]. simpl in H.
    destruct (map_result f r) as [ys'|]; [|discriminate].
    simpl in H. injection H as <-. simpl.
    now rewrite (Hf x y E), (IH ys').
Qed.

Lemma top_10_percent_bounds s n :
  Forall (fun kv => exists a, snd kv = PInt a) s ->
  top_10_percent s = Ok n ->
  (n <= List.length s)%nat /\ (s <> [] -> (1 <= n)%nat).
Proof.
  intros Hint H. split.
  - destruct (top_10_percent_ok s) as (m & E & Hm). congruence.
  - intros Hne. unfold top_10_percent in H.
    destruct s as [|kv r]; [congruence|].
    set (d := kv :: r) in *.
    destruct (nth_error (map snd (sorted_desc d)) (tenth (List.length d)))
      as [threshold|] eqn:E; [|discriminate].
    injection H as <-.
    apply nth_error_In in E.
    apply in_map_iff in E as (x & Ex & Hx). apply sorted_desc_in in Hx.
    rewrite Forall_forall in Hint. destruct (Hint x Hx) as [a Ha].
    assert (Hin : In threshold
                    (filter (fun v => num_ge v threshold) (map snd d))).
    { apply filter_In. split; [rewrite <- Ex; now apply in_map|].
      rewrite <- Ex, Ha, num_ge_int. apply Z.leb_refl. }
    change (1 <= List.length
                   (filter (fun v => num_ge v threshold) (map snd d)))%nat.
    destruct (filter (fun v => num_ge v threshold) (map snd d));
      [destruct Hin | simpl; lia].
Qed.

Lemma tallied_empty : tallied [] [] [].
Proof.
  split; [reflexivity|]. split; [constructor|]. split.
  - intros a. unfold plays_of. simpl. split; [intros [] | lia].
  - intros a. reflexivity.
Qed.

(** What [analyze_artists] returns on a plain export. *)
Lemma analyze_artists_cases merged_data res :
  plain_export merged_data = true ->
  analyze_artists merged_data = Ok res ->
  match res with
  | None => history_of merged_data = []
  | Some r =>
      exists names s t,
        history_of merged_data <> [] /\
        tallied names s (history_of merged_data) /\
        map fst t = map fst s /\
        total_artists r = List.length s /\
        map (fun row => (artist row, streams row))
          (top_artists_by_streams r)
        = firstn 20 (sorted_desc s) /\
        map (fun row => (artist row, streams row))
          (top_artists_by_time r)
        = map (fun kv => (fst kv, dd_get (fst kv) s))
            (firstn 20 (sorted_desc t)) /\
        top_10_percent s = Ok (top_10_percent_artists r) /\
        (s = [] -> concentration_ratio r = PInt 0)
  end.
Proof.
  unfold plain_export, analyze_artists, history_of.
  destruct merged_data as [| | | | | |md]; try discriminate.
  cbn [py_get bind].
  destruct (dict_get "streaming_history" md) as [v|].
  2:{ cbn [truthy negb String.eqb]. intros _ H.
      injection H as <-. reflexivity. }
  intros Hp H.
  destruct (truthy v) eqn:Hv; cbn [negb] in H.
  2:{ injection H as <-. destruct v as [| | | | |l|]; try reflexivity.
      now destruct l. }
  destruct v as [| | | | |l|];
    try (exfalso; revert Hp; simpl in Hv |- *; rewrite ?Hv; discriminate).
  apply andb_true_iff in Hp as [Hall _].
  cbn [iterate bind] in H.
  destruct (count_entries l ([], [])) as [[s t]|] eqn:E; [|discriminate].
  cbn [bind] in H.
  destruct (count_entries_tallied l Hall [] [] [] [] s t tallied_empty
              eq_refl E) as (names & Hs & Ht).
  simpl in Hs.
  destruct (top_10_percent s) as [n|] eqn:E10; [|discriminate].
  cbn [bind] in H.
  destruct (map_result
              (fun kv => h <- time_hours (dd_get (fst kv) t) ;;
                         Ok (mkRow (fst kv) (snd kv) h))
              (firstn 20 (sorted_desc s))) as [rows1|] eqn:R1;
    [|discriminate].
  cbn [bind] in H.
  destruct (map_result
              (fun kv => h <- time_hours (snd kv) ;;
                         Ok (mkRow (fst kv) (dd_get (fst kv) s) h))
              (firstn 20 (sorted_desc t))) as [rows2|] eqn:R2;
    [|discriminate].
  cbn [bind] in H.
  assert (Hrow1 : forall (g : json * pynum -> result spec_float)
                    (c : json * pynum -> pynum) kv row,
             (h <- g kv ;; Ok (mkRow (fst kv) (c kv) h)) = Ok row ->
             (artist row, streams row) = (fst kv, c kv)).
  { intros g c kv row Hrow. destruct (g kv); [|discriminate].
    simpl in Hrow. now injection Hrow as <-. }
  match type of H with
  | bind ?m _ = _ => destruct m as [ratio|] eqn:ER; [|discriminate]
  end.
  cbn [bind] in H. injection H as <-. cbn [total_artists
    top_artists_by_streams top_artists_by_time top_10_percent_artists
    concentration_ratio].
  exists names, s, t.
  split; [destruct l; [discriminate Hv | discriminate]|].
  split; [exact Hs|]. split; [exact Ht|]. split; [reflexivity|].
  split.
  { rewrite (map_result_map _ (fun row => (artist row, streams row))
               (fun kv => (fst kv, snd kv)) _
               (Hrow1 (fun kv => time_hours (dd_get (fst kv) t)) snd)
               _ R1).
    rewrite <- (map_id (firstn 20 (sorted_desc s))) at 2.
    apply map_ext. now intros []. }
  split.
  { apply (map_result_map _ (fun row => (artist row, streams row))
             (fun kv => (fst kv, dd_get (fst kv) s)) _
             (Hrow1 (fun kv => time_hours (snd kv))
                (fun kv => dd_get (fst kv) s))
             _ R2). }
  split; [exact E10|].
  intros ->. simpl in ER. now injection ER as <-.
Qed.

End ArtistReport.

Lemma nodup_map_jstr names : NoDup names -> NoDup (map JStr names).
Proof.
  induction 1 as [|a ns Ha Hns IH]; simpl; constructor; [|exact IH].
  intros H. apply in_map_iff in H as (b & E & Hb).
  injection E as ->. contradiction.
Qed.

Lemma tallied_ints names s seen :
  tallied names s seen ->
  Forall (fun kv => exists a, snd kv = Reporter.PInt a) s.
Proof.
  intros H. apply Forall_forall. intros [k v] Hkv.
  destruct (tallied_entry names s seen k v H Hkv) as (a & _ & _ & ->).
  simpl. eauto.
Qed.

(** X23: on a plain export the artist analysis never raises.  It
    leaves the report alone exactly when the history is missing or
    empty; otherwise [total_artists] is the number of distinct
    non-empty artist names, both top lists have min(20, total_artists)
    rows, and [top_10_percent_artists] is at most [total_artists] and
    at least 1 as soon as there is an artist; without any artist the
    concentration ratio is the integer 0. *)
Theorem X23_artist_report_sizes merged_data :
  plain_export merged_data = true ->
  match Reporter.analyze_artists merged_data with
  | Raise _ => False
  | Ok None => history_of merged_data = []
  | Ok (Some r) =>
      history_of merged_data <> [] /\
      Reporter.total_artists r
      = List.length (nodup string_dec (artists_of (history_of merged_data))) /\
      List.length (Reporter.top_artists_by_streams r)
      = Nat.min 20 (Reporter.total_artists r) /\
      List.length (Reporter.top_artists_by_time r)
      = Nat.min 20 (Reporter.total_artists r) /\
      (Reporter.top_10_percent_artists r <= Reporter.total_artists r)%nat /\
      (Reporter.total_artists r = 0%nat ->
       Reporter.concentration_ratio r = Reporter.PInt 0) /\
      ((0 < Reporter.total_artists r)%nat ->
       (1 <= Reporter.top_10_percent_artists r)%nat)
  end.
Proof.
  intros Hp. destruct (analyze_artists_ok merged_data Hp) as [res E].
  rewrite E. pose proof (analyze_artists_cases merged_data res Hp E) as H.
  destruct res as [r|]; [|exact H].
  destruct H as (names & s & t & Hne & Hs & Ht & Htot & R1 & R2 & H10 & Hr).
  destruct (top_10_percent_bounds s _ (tallied_ints _ _ _ Hs) H10)
    as [Hle Hge].
  assert (Hlen : List.length t = List.length s).
  { now rewrite <- (length_map fst t), Ht, length_map. }
  split; [exact Hne|]. split; [|split; [|split; [|split; [|split]]]].
  - rewrite Htot. apply (tallied_length names), Hs.
  - rewrite <- (length_map (fun row => (Reporter.artist row,
                                         Reporter.streams row))), R1.
    now rewrite length_firstn, sorted_desc_length, Htot.
  - rewrite <- (length_map (fun row => (Reporter.artist row,
                                         Reporter.streams row))), R2.
    now rewrite length_map, length_firstn, sorted_desc_length, Hlen, Htot.
  - now rewrite Htot.
  - rewrite Htot. intros H0. apply Hr. now destruct s.
  - rewrite Htot. intros Hpos. apply Hge. intros ->. simpl in Hpos. lia.
Qed.

Lemma X23_artist_report_sizes_witness :
  plain_export five_plays = true /\
  exists r, Reporter.analyze_artists five_plays = Ok (Some r) /\
            Reporter.total_artists r = 3%nat /\
            (1 <= Reporter.top_10_percent_artists r)%nat.
Proof.
  split; [reflexivity|].
  pose proof (X23_artist_report_sizes five_plays eq_refl) as H.
  destruct (Reporter.analyze_artists five_plays) as [[r|]|];
    [|discriminate H | destruct H].
  exists r. split; [reflexivity|].
  destruct H as (_ & Htot & _ & _ & _ & _ & Hge).
  split; [exact Htot|]. apply Hge. rewrite Htot. vm_compute. lia.
Defined.

(** X24: on a plain export every row of the two top lists names an
    artist of the history together with the exact number of records
    of that artist; no artist appears twice in a list; and the rows of
    [top_artists_by_streams] are in non-increasing order of
    streams. *)
Theorem X24_artist_tallies merged_data r :
  plain_export merged_data = true ->
  Reporter.analyze_artists merged_data = Ok (Some r) ->
  (forall row,
     In row (Reporter.top_artists_by_streams r
             ++ Reporter.top_artists_by_time r) ->
     exists a,
       Reporter.artist row = JStr a /\
       (0 < plays_of a (history_of merged_data))%nat /\
       Reporter.streams row
       = Reporter.PInt (Z.of_nat (plays_of a (history_of merged_data)))) /\
  NoDup (map Reporter.artist (Reporter.top_artists_by_streams r)) /\
  NoDup (map Reporter.artist (Reporter.top_artists_by_time r)) /\
  descending (map Reporter.streams (Reporter.top_artists_by_streams r))
  = true.
Proof.
  intros Hp E.
  destruct (analyze_artists_cases merged_data (Some r) Hp E)
    as (names & s & t & _ & Hs & Ht & _ & R1 & R2 & _ & _).
  set (pair_of := fun row => (Reporter.artist row, Reporter.streams row))
    in *.
  assert (Ha : forall l, map Reporter.artist l = map fst (map pair_of l))
    by (intros l; rewrite map_map; reflexivity).
  assert (Hst : forall l, map Reporter.streams l = map snd (map pair_of l))
    by (intros l; rewrite map_map; reflexivity).
  pose proof Hs as (Hk & Hnd & Hin & Hget).
  assert (Hkeys_s : NoDup (map fst s))
    by (rewrite Hk; now apply nodup_map_jstr).
  assert (Hkeys_t : NoDup (map fst t)) by now rewrite Ht.
  split; [|split; [|split]].
  - intros row Hrow. apply in_app_or in Hrow as [Hrow|Hrow].
    + apply (in_map pair_of) in Hrow. rewrite R1 in Hrow.
      apply firstn_in, sorted_desc_in in Hrow.
      now apply (tallied_entry names s _ _ _ Hs).
    + apply (in_map pair_of) in Hrow. rewrite R2 in Hrow.
      apply in_map_iff in Hrow as (kv & Ekv & Hkv).
      apply firstn_in, sorted_desc_in in Hkv.
      unfold pair_of in Ekv. injection Ekv as Eart Estr.
      apply (in_map fst) in Hkv. rewrite Ht, Hk in Hkv.
      apply in_map_iff in Hkv as (a & Ea & Hnames).
      exists a. rewrite <- Eart, <- Estr, <- Ea.
      split; [reflexivity|]. split; [now apply Hin | apply Hget].
  - rewrite Ha, R1, <- firstn_map.
    now apply nodup_firstn, sorted_desc_nodup.
  - rewrite Ha, R2, map_map. cbn [fst].
    change (fun x : json * Reporter.pynum => fst x)
      with (@fst json Reporter.pynum).
    rewrite <- firstn_map.
    now apply nodup_firstn, sorted_desc_nodup.
  - rewrite Hst, R1, <- firstn_map.
    apply descending_firstn, sorted_desc_descending.
    apply (tallied_ints names s _ Hs).
Qed.

Lemma X24_artist_tallies_witness :
  plain_export five_plays = true /\
  exists r, Reporter.analyze_artists five_plays = Ok (Some r) /\
            map Reporter.artist (Reporter.top_artists_by_streams r)
            = [JStr "B"; JStr "A"; JStr "C"] /\
            descending
              (map Reporter.streams (Reporter.top_artists_by_streams r))
            = true.
Proof.
  split; [reflexivity|].
  destruct (Reporter.analyze_artists five_plays) as [[r|]|] eqn:E;
    try (vm_compute in E; discriminate).
  exists r. split; [reflexivity|]. split.
  - vm_compute in E. injection E as <-. reflexivity.
  - apply (X24_artist_tallies five_plays r eq_refl E).
Defined.
